(** * SmartGrade: grading-request orchestration and instruction ledger

    A shallow embedding of [src/types.ts], [src/services/geminiService.ts]
    and the session handlers of [src/App.tsx], with the properties of the
    request composer, the response handling and the refinement round-trip.

    Conventions.
    - A JavaScript string is the list of its UTF-16 code units ([jsstring]);
      literals are written as Rocq strings (UTF-8 in the file) and decoded
      by [js].
    - [undefined]/[null] for an optional value is [None].
    - A number is a binary64 value ([Double.number]); the text of a JSON
      number is turned into one by correct rounding ([Double.ofDecimal]).
    - The one external effect is [ai.models.generateContent]; an [async]
      function is a tree of type [Eff] whose nodes are that call and the
      React state setters, and [run] executes it against an oracle for the
      provider, recording every call that was made. *)

From Stdlib Require Import String Ascii List NArith ZArith QArith Lia Bool.
From Stdlib Require Import DecimalString DecimalNat Sorted.
From Stdlib Require DecimalN DecimalPos DecimalFacts.
Import ListNotations.
Close Scope Q_scope.
Open Scope string_scope.
Open Scope list_scope.
Open Scope nat_scope.

Set Implicit Arguments.
Set Warnings "-register-all".

(* ================================================================== *)
(** * JavaScript strings *)
(* ================================================================== *)

Module Js.

(** A string value: its UTF-16 code units, each below [65536]. *)
Definition jsstring := list N.

(** Decoding of a UTF-8 byte sequence into code units (code points above
    the basic plane become a surrogate pair). *)
Fixpoint utf8_decode (bs : list N) : jsstring :=
  match bs with
  | [] => []
  | b1 :: r1 =>
    if (b1 <? 128)%N then b1 :: utf8_decode r1
    else match r1 with
    | [] => [65533%N]
    | b2 :: r2 =>
      if (b1 <? 224)%N
      then (N.lor (N.shiftl (N.land b1 31) 6) (N.land b2 63)) :: utf8_decode r2
      else match r2 with
      | [] => [65533%N]
      | b3 :: r3 =>
        if (b1 <? 240)%N
        then (N.lor (N.shiftl (N.land b1 15) 12)
                (N.lor (N.shiftl (N.land b2 63) 6) (N.land b3 63)))
             :: utf8_decode r3
        else match r3 with
        | [] => [65533%N]
        | b4 :: r4 =>
          let cp := N.lor (N.shiftl (N.land b1 7) 18)
                      (N.lor (N.shiftl (N.land b2 63) 12)
                         (N.lor (N.shiftl (N.land b3 63) 6) (N.land b4 63))) in
          let v := (cp - 65536)%N in
          (55296 + N.shiftr v 10)%N :: (56320 + N.land v 1023)%N
            :: utf8_decode r4
        end
      end
    end
  end.

(** A string literal of the source. *)
Definition js (s : string) : jsstring :=
  utf8_decode (map N_of_ascii (list_ascii_of_string s)).

Arguments js : simpl never.

(** The double quote, for literals that contain one. *)
Definition dquote : jsstring := [34%N].

Definition eqb (a b : jsstring) : bool :=
  if list_eq_dec N.eq_dec a b then true else false.

(** Truthiness of a string: every string but the empty one. *)
Definition truthy (s : jsstring) : bool :=
  match s with [] => false | _ :: _ => true end.

(** Truthiness of an optional string: [undefined] and the empty string are falsy. *)
Definition truthy_opt (o : option jsstring) : bool :=
  match o with None => false | Some s => truthy s end.

(** [a || b] on strings. *)
Definition or_else (a : option jsstring) (b : jsstring) : jsstring :=
  match a with Some s => if truthy s then s else b | None => b end.

(** WhiteSpace and LineTerminator code points of ECMAScript, the ones
    [String.prototype.trim] strips. *)
Definition isWhiteSpace (c : N) : bool :=
  ((9 <=? c) && (c <=? 13) || (c =? 32) || (c =? 160) || (c =? 5760)
   || (8192 <=? c) && (c <=? 8202) || (c =? 8232) || (c =? 8233)
   || (c =? 8239) || (c =? 8287) || (c =? 12288) || (c =? 65279))%N.

Fixpoint trimStart (s : jsstring) : jsstring :=
  match s with
  | [] => []
  | c :: r => if isWhiteSpace c then trimStart r else s
  end.

Definition trimEnd (s : jsstring) : jsstring := rev (trimStart (rev s)).

(** [s.trim()] *)
Definition trim (s : jsstring) : jsstring := trimEnd (trimStart s).

(** [String(n)] for a non-negative integer: its decimal digits. *)
Definition ofNat (n : nat) : jsstring :=
  map N_of_ascii (list_ascii_of_string (NilEmpty.string_of_uint (Nat.to_uint n))).

(** [needle] occurs in [s] ([s.includes(needle)]). *)
Definition includes (s needle : jsstring) : Prop :=
  exists pre post, s = pre ++ needle ++ post.

End Js.

Import Js.

(** A value with properties, as the handlers read it when it is thrown:
    its [name] and its [message] ([undefined] when it has none). The
    errors of the engine and of the provider's SDK are [Error] objects,
    whose [message] is a string. *)
Record JsError := mkError { errName : jsstring; errMessage : option jsstring }.

(** What a [catch] block can meet: [undefined] or [null], of which no
    property can be read, or a value with properties. *)
Inductive Thrown :=
| Nullish
| Raised (e : JsError).

(** The [TypeError] of a property read on [undefined] or [null]; the
    message is the engine's own wording and is kept as one fixed text. *)
Definition typeError : JsError :=
  mkError (js "TypeError") (Some (js "Cannot read properties of undefined")).

(* ================================================================== *)
(** * JSON texts *)
(* ================================================================== *)

Module JSONText.

(** What a JSON text writes down, before it is made a value of the
    engine. A number is the exact decimal [(-1)^neg * mant * 10^exp10] of
    its literal. An object is the list of its members in the order of
    the text, a name that is written more than once being kept once, at
    its first place and with its last value. *)
Inductive value :=
| Null
| Bool (b : bool)
| Number (neg : bool) (mant : N) (exp10 : Z)
| Str (s : jsstring)
| Array (xs : list value)
| Object (props : list (jsstring * value)).

Section ValueInduction.

Variable P : value -> Prop.
Hypothesis HNull : P Null.
Hypothesis HBool : forall b, P (Bool b).
Hypothesis HNumber : forall neg mant e, P (Number neg mant e).
Hypothesis HStr : forall s, P (Str s).
Hypothesis HArray : forall xs, Forall P xs -> P (Array xs).
Hypothesis HObject : forall ps, Forall (fun kv => P (snd kv)) ps -> P (Object ps).

(** Induction on a value, with the hypothesis for every item of an array
    and every property of an object. *)
Fixpoint value_induction (v : value) : P v :=
  match v with
  | Null => HNull
  | Bool b => @HBool b
  | Number neg mant e => @HNumber neg mant e
  | Str s => @HStr s
  | Array xs =>
    @HArray xs
      ((fix items (l : list value) : Forall P l :=
          match l with
          | [] => @Forall_nil _ P
          | x :: r => @Forall_cons _ P x r (value_induction x) (items r)
          end) xs)
  | Object ps =>
    @HObject ps
      ((fix props (l : list (jsstring * value)) : Forall (fun kv => P (snd kv)) l :=
          match l with
          | [] => @Forall_nil _ (fun kv => P (snd kv))
          | (k, x) :: r =>
            @Forall_cons _ (fun kv => P (snd kv)) (k, x) r (value_induction x) (props r)
          end) ps)
  end.

End ValueInduction.

(** The value of the member named [k]. *)
Fixpoint lookup (k : jsstring) (props : list (jsstring * value)) : option value :=
  match props with
  | [] => None
  | (k', v) :: rest => if Js.eqb k k' then Some v else lookup k rest
  end.

(** One more member: an existing name keeps its place and takes the new
    value, a new name goes last. *)
Fixpoint setProp (props : list (jsstring * value)) (k : jsstring) (v : value)
  : list (jsstring * value) :=
  match props with
  | [] => [(k, v)]
  | (k', v') :: rest =>
    if Js.eqb k k' then (k', v) :: rest else (k', v') :: setProp rest k v
  end.

(** The object of a member list: the properties are defined one after
    the other, so of two members of the same name the later gives the
    value. *)
Definition objectOf (ms : list (jsstring * value)) : value :=
  Object (fold_left (fun o m => setProp o (fst m) (snd m)) ms []).

(** ** The parser *)

Inductive result (A : Type) :=
| Ok (a : A) (rest : list N)
| SyntaxErr
| OutOfFuel.
Arguments SyntaxErr {A}.
Arguments OutOfFuel {A}.

Definition isCh (a : ascii) (c : N) : bool := (c =? N_of_ascii a)%N.

Definition isQuote (c : N) : bool := (c =? 34)%N.

Definition isWs (c : N) : bool :=
  ((c =? 32) || (c =? 9) || (c =? 10) || (c =? 13))%N.

Fixpoint skipWs (s : list N) : list N :=
  match s with
  | c :: r => if isWs c then skipWs r else s
  | [] => []
  end.

Definition isDigit (c : N) : bool := ((48 <=? c) && (c <=? 57))%N.

Definition hexVal (c : N) : option N :=
  if isDigit c then Some (c - 48)%N
  else if ((97 <=? c) && (c <=? 102))%N then Some (c - 87)%N
  else if ((65 <=? c) && (c <=? 70))%N then Some (c - 55)%N
  else None.

Definition hex4 (a b c d : N) : option N :=
  match hexVal a, hexVal b, hexVal c, hexVal d with
  | Some x, Some y, Some z, Some w => Some (((x * 16 + y) * 16 + z) * 16 + w)%N
  | _, _, _, _ => None
  end.

(** The code unit an escape letter stands for. *)
Definition escape (e : N) : option N :=
  if isQuote e then Some 34%N
  else if isCh "\" e then Some 92%N
  else if isCh "/" e then Some 47%N
  else if isCh "b" e then Some 8%N
  else if isCh "f" e then Some 12%N
  else if isCh "n" e then Some 10%N
  else if isCh "r" e then Some 13%N
  else if isCh "t" e then Some 9%N
  else None.

(** The characters of a string literal, after its opening quote, up to
    and including the closing quote. *)
Fixpoint parseChars (s : list N) : option (jsstring * list N) :=
  match s with
  | [] => None
  | c :: r =>
    if isQuote c then Some ([], r)
    else if isCh "\" c then
      match r with
      | [] => None
      | e :: r1 =>
        if isCh "u" e then
          match r1 with
          | h1 :: h2 :: h3 :: h4 :: r2 =>
            match hex4 h1 h2 h3 h4 with
            | Some u =>
              match parseChars r2 with
              | Some (str, rest) => Some (u :: str, rest)
              | None => None
              end
            | None => None
            end
          | _ => None
          end
        else
          match escape e with
          | Some u =>
            match parseChars r1 with
            | Some (str, rest) => Some (u :: str, rest)
            | None => None
            end
          | None => None
          end
      end
    else if (c <? 32)%N then None
    else
      match parseChars r with
      | Some (str, rest) => Some (c :: str, rest)
      | None => None
      end
  end.

(** A maximal run of decimal digits, most significant first. *)
Fixpoint takeDigits (s : list N) : list N * list N :=
  match s with
  | c :: r =>
    if isDigit c then let '(ds, rest) := takeDigits r in (c :: ds, rest)
    else ([], s)
  | [] => ([], [])
  end.

Definition digitsVal (ds : list N) : N :=
  fold_left (fun acc d => (acc * 10 + (d - 48))%N) ds 0%N.

(** The integer part: a single [0], or a digit run that does not start
    with [0]. *)
Definition parseInt (s : list N) : option (list N * list N) :=
  match s with
  | c :: r =>
    if isCh "0" c then Some ([c], r)
    else if isDigit c then Some (takeDigits s)
    else None
  | [] => None
  end.

Definition parseFrac (s : list N) : option (list N * list N) :=
  match s with
  | c :: r =>
    if isCh "." c then
      match takeDigits r with
      | ([], _) => None
      | (ds, rest) => Some (ds, rest)
      end
    else Some ([], s)
  | [] => Some ([], [])
  end.

Definition parseExpDigits (neg : bool) (s : list N) : option (Z * list N) :=
  match takeDigits s with
  | ([], _) => None
  | (ds, rest) =>
    let e := Z.of_N (digitsVal ds) in
    Some (if neg then (- e)%Z else e, rest)
  end.

Definition parseExp (s : list N) : option (Z * list N) :=
  match s with
  | c :: r =>
    if isCh "e" c || isCh "E" c then
      match r with
      | sg :: r1 =>
        if isCh "-" sg then parseExpDigits true r1
        else if isCh "+" sg then parseExpDigits false r1
        else parseExpDigits false r
      | [] => None
      end
    else Some (0%Z, s)
  | [] => Some (0%Z, [])
  end.

Definition parseNumber (s : list N) : result value :=
  let '(neg, s1) :=
    match s with
    | c :: r => if isCh "-" c then (true, r) else (false, s)
    | [] => (false, s)
    end in
  match parseInt s1 with
  | None => SyntaxErr
  | Some (ids, s2) =>
    match parseFrac s2 with
    | None => SyntaxErr
    | Some (fds, s3) =>
      match parseExp s3 with
      | None => SyntaxErr
      | Some (e, s4) =>
        Ok (Number neg (digitsVal (ids ++ fds)) (e - Z.of_nat (length fds))) s4
      end
    end
  end.

(** [s] starts with the code units of [w]. *)
Fixpoint expect (w s : list N) : option (list N) :=
  match w with
  | [] => Some s
  | a :: w' =>
    match s with
    | c :: r => if (c =? a)%N then expect w' r else None
    | [] => None
    end
  end.

Definition keyword (w : string) (v : value) (s : list N) : result value :=
  match expect (js w) s with
  | Some rest => Ok v rest
  | None => SyntaxErr
  end.

Fixpoint parseValue (fuel : nat) (s : list N) {struct fuel} : result value :=
  match fuel with
  | O => OutOfFuel
  | S f =>
    match skipWs s with
    | [] => SyntaxErr
    | c :: r =>
      if isCh "{" c then
        match skipWs r with
        | c' :: r' =>
          if isCh "}" c' then Ok (Object []) r'
          else
            match parseMembers f (c' :: r') with
            | Ok ms rest => Ok (objectOf ms) rest
            | SyntaxErr => SyntaxErr
            | OutOfFuel => OutOfFuel
            end
        | [] => SyntaxErr
        end
      else if isCh "[" c then
        match skipWs r with
        | c' :: r' =>
          if isCh "]" c' then Ok (Array []) r'
          else
            match parseElements f (c' :: r') with
            | Ok vs rest => Ok (Array vs) rest
            | SyntaxErr => SyntaxErr
            | OutOfFuel => OutOfFuel
            end
        | [] => SyntaxErr
        end
      else if isQuote c then
        match parseChars r with
        | Some (str, rest) => Ok (Str str) rest
        | None => SyntaxErr
        end
      else if isCh "t" c then keyword "rue" (Bool true) r
      else if isCh "f" c then keyword "alse" (Bool false) r
      else if isCh "n" c then keyword "ull" Null r
      else parseNumber (c :: r)
    end
  end

with parseElements (fuel : nat) (s : list N) {struct fuel} : result (list value) :=
  match fuel with
  | O => OutOfFuel
  | S f =>
    match parseValue f s with
    | Ok v r =>
      match skipWs r with
      | c :: r' =>
        if isCh "," c then
          match parseElements f r' with
          | Ok vs rest => Ok (v :: vs) rest
          | SyntaxErr => SyntaxErr
          | OutOfFuel => OutOfFuel
          end
        else if isCh "]" c then Ok [v] r'
        else SyntaxErr
      | [] => SyntaxErr
      end
    | SyntaxErr => SyntaxErr
    | OutOfFuel => OutOfFuel
    end
  end

with parseMembers (fuel : nat) (s : list N) {struct fuel}
  : result (list (jsstring * value)) :=
  match fuel with
  | O => OutOfFuel
  | S f =>
    match skipWs s with
    | q :: r0 =>
      if isQuote q then
        match parseChars r0 with
        | Some (k, r1) =>
          match skipWs r1 with
          | col :: r2 =>
            if isCh ":" col then
              match parseValue f r2 with
              | Ok v r3 =>
                match skipWs r3 with
                | c :: r4 =>
                  if isCh "," c then
                    match parseMembers f r4 with
                    | Ok ms rest => Ok ((k, v) :: ms) rest
                    | SyntaxErr => SyntaxErr
                    | OutOfFuel => OutOfFuel
                    end
                  else if isCh "}" c then Ok [(k, v)] r4
                  else SyntaxErr
                | [] => SyntaxErr
                end
              | SyntaxErr => SyntaxErr
              | OutOfFuel => OutOfFuel
              end
            else SyntaxErr
          | [] => SyntaxErr
          end
        | None => SyntaxErr
        end
      else SyntaxErr
    | [] => SyntaxErr
    end
  end.

(** The message of the [SyntaxError] is the engine's own wording; it is
    kept as one fixed text. *)
Definition syntaxError : JsError :=
  mkError (js "SyntaxError") (Some (js "Unexpected token in JSON")).

(** The grammar of [JSON.parse(text)]: one value, surrounded by optional
    white space. The fuel is enough for every input (see
    [parseValue_fuel]). *)
Definition read (text : jsstring) : value + JsError :=
  match parseValue (2 * length text + 1) text with
  | Ok v rest =>
    match skipWs rest with
    | [] => inl v
    | _ :: _ => inr syntaxError
    end
  | _ => inr syntaxError
  end.

End JSONText.

(* ================================================================== *)
(** * JavaScript numbers *)
(* ================================================================== *)

Module Double.

(** The Number type: [NaN], the two infinities, and [(-1)^neg * m * 2^e].
    The canonical form of a finite number has [m < 2^53] and
    [-1074 <= e <= 971], with [2^52 <= m] unless [e = -1074]; zero is
    [m = 0] at [e = -1074], with its sign. *)
Inductive number :=
| NaN
| Infinity (neg : bool)
| Finite (neg : bool) (m : N) (e : Z).

Definition emin : Z := (-1074)%Z.
Definition emax : Z := 971%Z.

Definition canonical (x : number) : bool :=
  match x with
  | Finite _ m e =>
    ((Z.of_N m <? 2 ^ 53) && (emin <=? e) && (e <=? emax)
     && ((2 ^ 52 <=? Z.of_N m) || (e =? emin)))%Z
  | _ => true
  end.

(** [2^e] as the fraction [num e / den e]. *)
Definition num (e : Z) : Z := (2 ^ Z.max 0 e)%Z.
Definition den (e : Z) : Z := (2 ^ Z.max 0 (- e))%Z.

(** The integer nearest to [p / q], the even one of two that are equally
    near. *)
Definition roundDiv (p q : Z) : Z :=
  let n := (p / q)%Z in
  match (2 * (p mod q) ?= q)%Z with
  | Lt => n
  | Gt => (n + 1)%Z
  | Eq => if Z.even n then n else (n + 1)%Z
  end.

(** The exponent of the power of two at or below [p / q]. *)
Definition ilog2 (p q : Z) : Z :=
  let l := (Z.log2 p - Z.log2 q)%Z in
  if (p * den l <? q * num l)%Z then (l - 1)%Z else l.

(** The Number value of the fraction [p / q]: rounded to 53 bits, or to
    the multiple of [2^-1074] when it is below [2^-1022], and an infinity
    when the rounded value is beyond the largest finite number. *)
Definition ofFraction (neg : bool) (p q : Z) : number :=
  if (p =? 0)%Z then Finite neg 0 emin
  else
    let e := Z.max emin (ilog2 p q - 52) in
    let n := roundDiv (p * den e) (q * num e) in
    let '(n, e) := if (n =? 2 ^ 53)%Z then ((2 ^ 52)%Z, (e + 1)%Z) else (n, e) in
    if (emax <? e)%Z then Infinity neg else Finite neg (Z.to_N n) e.

(** The Number value of the decimal [(-1)^neg * mant * 10^exp10], as the
    engines compute it for a literal of any length: the nearest binary64
    value. *)
Definition ofDecimal (neg : bool) (mant : N) (exp10 : Z) : number :=
  ofFraction neg (Z.of_N mant * 10 ^ Z.max 0 exp10)%Z (10 ^ Z.max 0 (- exp10))%Z.

Definition signed (neg : bool) (x : Z) : Z := if neg then (- x)%Z else x.

(** The rational that a finite number is. *)
Definition toQ (x : number) : option Q :=
  match x with
  | Finite neg m e => Some (Qmake (signed neg (Z.of_N m * num e)) (Z.to_pos (den e)))
  | _ => None
  end.

(** The rational that a decimal is. *)
Definition decimalQ (neg : bool) (mant : N) (exp10 : Z) : Q :=
  Qmake (signed neg (Z.of_N mant * 10 ^ Z.max 0 exp10)) (Z.to_pos (10 ^ Z.max 0 (- exp10))).

(** [x] is as near to [p / q] as a number can be: within half a unit of
    its last place, or the infinity when [p / q] is at or beyond
    [2^1024 - 2^970], half a unit above the largest finite number. *)
Definition nearFraction (neg : bool) (p q : Z) (x : number) : Prop :=
  match x with
  | NaN => False
  | Infinity s => s = neg /\ ((2 ^ 54 - 1) * (q * 2 ^ 970) <= p)%Z
  | Finite s m e =>
    s = neg /\ (2 * Z.abs (p * den e - Z.of_N m * (q * num e)) <= q * num e)%Z
  end.

Definition near (neg : bool) (mant : N) (exp10 : Z) (x : number) : Prop :=
  nearFraction neg (Z.of_N mant * 10 ^ Z.max 0 exp10)%Z (10 ^ Z.max 0 (- exp10))%Z x.

(** [p / q < 2^e] and [2^e <= p / q], without division. *)
Definition below (p q e : Z) : Prop := (p * den e < q * num e)%Z.
Definition atLeast (p q e : Z) : Prop := (q * num e <= p * den e)%Z.

(** [x] is the decimal [(-1)^neg * mant * 10^exp10] itself. *)
Definition exactly (neg : bool) (mant : N) (exp10 : Z) (x : number) : Prop :=
  match toQ x with
  | Some q => Qeq q (decimalQ neg mant exp10)
  | None => False
  end.

(** The decimal is a binary64 value. *)
Definition representable (neg : bool) (mant : N) (exp10 : Z) : Prop :=
  exists x, canonical x = true /\ exactly neg mant exp10 x.

End Double.

(* ================================================================== *)
(** * JSON values and [JSON.parse] *)
(* ================================================================== *)

Module JSON.

(** A value that [JSON.parse] returns. An object is the list of its own
    properties in creation order (the order only shows when the
    properties are enumerated, which the code here does not do). *)
Inductive value :=
| Null
| Bool (b : bool)
| Number (x : Double.number)
| Str (s : jsstring)
| Array (xs : list value)
| Object (props : list (jsstring * value)).

(** Property read [o[k]] on an object. *)
Fixpoint lookup (k : jsstring) (props : list (jsstring * value)) : option value :=
  match props with
  | [] => None
  | (k', v) :: rest => if Js.eqb k k' then Some v else lookup k rest
  end.

(** Property definition [o[k] = v]: an existing key keeps its place and
    takes the new value, a new key goes last. *)
Fixpoint setProp (props : list (jsstring * value)) (k : jsstring) (v : value)
  : list (jsstring * value) :=
  match props with
  | [] => [(k, v)]
  | (k', v') :: rest =>
    if Js.eqb k k' then (k', v) :: rest else (k', v') :: setProp rest k v
  end.

(** The value of what a text writes down: each number literal becomes
    its Number value, everything else is taken as it is. *)
Fixpoint evaluate (t : JSONText.value) : value :=
  match t with
  | JSONText.Null => Null
  | JSONText.Bool b => Bool b
  | JSONText.Number neg mant exp10 => Number (Double.ofDecimal neg mant exp10)
  | JSONText.Str s => Str s
  | JSONText.Array xs => Array (map evaluate xs)
  | JSONText.Object ps => Object (map (fun kv => let '(k, x) := kv in (k, evaluate x)) ps)
  end.

(** [JSON.parse(text)] *)
Definition parse (text : jsstring) : value + JsError :=
  match JSONText.read text with
  | inl t => inl (evaluate t)
  | inr e => inr e
  end.

End JSON.

(* ================================================================== *)
(** * [src/types.ts] *)
(* ================================================================== *)

Inductive Language := en | zh.

Inductive GradingStatus := idle | processing | success | error | improving.

(** [FileWithPreview]. The browser [File] handle is not read by any of
    the code below and is left out. *)
Record FileWithPreview := mkFile {
  previewUrl : jsstring;
  base64 : option jsstring;
  mimeType : jsstring
}.

(** [GradingResult] and [QuestionResult] are compile-time interfaces: at
    run time a grading result is whatever value [JSON.parse] returned. *)
Definition GradingResult := JSON.value.

(* ================================================================== *)
(** * The provider interface and asynchronous code *)
(* ================================================================== *)

(** [Type] and [Schema] of the provider's SDK, as far as the grading
    schema uses them. *)
Inductive SchemaType := STRING | NUMBER | BOOLEAN | ARRAY | OBJECT.

Inductive Schema :=
| mkSchema (type : SchemaType) (description : option jsstring)
           (properties : list (jsstring * Schema)) (items : option Schema)
           (required : list jsstring).

Inductive Part :=
| TextPart (text : jsstring)
| InlineData (mimeType : jsstring) (data : jsstring).

Inductive Contents :=
| ContentParts (parts : list Part)
| ContentText (text : jsstring).

Record GenerationConfig := mkConfig {
  responseMimeType : jsstring;
  responseSchema : Schema;
  temperature : Q
}.

Record GenerateContentParameters := mkParams {
  model : jsstring;
  contents : Contents;
  config : option GenerationConfig
}.

(** What one call of [ai.models.generateContent] comes back with: a
    response, whose [text] may be [undefined], or a rejection with some
    value. *)
Inductive ModelOutcome :=
| Responded (text : option jsstring)
| Failed (e : Thrown).

(** Asynchronous code over a state of type [S]: it returns, throws,
    awaits the provider, or calls a state setter and goes on. *)
Inductive Eff (S A : Type) : Type :=
| Ret (a : A)
| Throw (e : Thrown)
| Invoke (req : GenerateContentParameters) (k : ModelOutcome -> Eff S A)
| Update (f : S -> S) (k : Eff S A).
Arguments Ret {S A} a.
Arguments Throw {S A} e.

Fixpoint bind {S A B} (p : Eff S A) (k : A -> Eff S B) : Eff S B :=
  match p with
  | Ret a => k a
  | Throw e => Throw e
  | Invoke req h => Invoke req (fun o => bind (h o) k)
  | Update f q => Update f (bind q k)
  end.

(** [try { p } catch (error) { h error }] *)
Fixpoint tryCatch {S A} (p : Eff S A) (h : Thrown -> Eff S A) : Eff S A :=
  match p with
  | Ret a => Ret a
  | Throw e => h e
  | Invoke req k => Invoke req (fun o => tryCatch (k o) h)
  | Update f q => Update f (tryCatch q h)
  end.

Notation "x <- p ;; k" := (bind p (fun x => k))
  (at level 61, p at next level, right associativity).
Notation "p ;; k" := (bind p (fun _ => k))
  (at level 61, right associativity).

(** [await ai.models.generateContent(req)] *)
Definition generateContent {S} (req : GenerateContentParameters)
  : Eff S (option jsstring) :=
  Invoke req (fun o =>
    match o with
    | Responded text => Ret text
    | Failed e => Throw e
    end).

Definition set {S} (f : S -> S) : Eff S unit := Update f (Ret tt).

(** A finished run: how the code ended, the state it left, and the calls
    it made to the provider, each with the state it was made in. *)
Record Trace (S A : Type) := mkTrace {
  outcome : A + Thrown;
  final : S;
  calls : list (S * GenerateContentParameters)
}.

Fixpoint run {S A} (ai : GenerateContentParameters -> ModelOutcome)
    (p : Eff S A) (s : S) : Trace S A :=
  match p with
  | Ret a => mkTrace (inl a) s []
  | Throw e => mkTrace (inr e) s []
  | Invoke req k =>
    let t := run ai (k (ai req)) s in
    mkTrace (outcome t) (final t) ((s, req) :: calls t)
  | Update f k => run ai k (f s)
  end.

(* ================================================================== *)
(** * [src/services/geminiService.ts] *)
(* ================================================================== *)

Definition str (s : string) : option jsstring := Some (js s).

Definition field (ty : SchemaType) (d : option jsstring) : Schema :=
  mkSchema ty d [] None [].

Definition gradingSchema : Schema :=
  mkSchema OBJECT None
    [ (js "studentName", field STRING (str "Inferred name of the student if visible, else 'Student'"));
      (js "totalScore", field NUMBER (str "Total points earned"));
      (js "maxScore", field NUMBER (str "Total possible points"));
      (js "letterGrade", field STRING (str "Letter grade (A, B, C, etc.)"));
      (js "summary", field STRING (str "A brief summary of performance"));
      (js "constructiveFeedback", field STRING (str "Encouraging feedback for the student"));
      (js "questions",
        mkSchema ARRAY None []
          (Some (mkSchema OBJECT None
            [ (js "questionId", field STRING (str "Question number or label (e.g., '1', '2a')"));
              (js "score", field NUMBER (str "Points earned for this question"));
              (js "maxScore", field NUMBER (str "Max points for this question"));
              (js "isCorrect", field BOOLEAN None);
              (js "studentAnswer", field STRING (str "Brief text description of the student's answer"));
              (js "correction", field STRING (str "The correct answer and explanation if wrong"));
              (js "rubricReference", field STRING (str "Quote the specific text from the rubric/answer key image that justifies this score."));
              (js "comments", field STRING (str "Specific comments on this question")) ]
            None
            [ js "questionId"; js "score"; js "maxScore"; js "isCorrect";
              js "studentAnswer"; js "correction"; js "comments" ]))
          []) ]
    None
    [ js "totalScore"; js "maxScore"; js "letterGrade"; js "summary";
      js "questions"; js "constructiveFeedback" ].

(** [xs.forEach((x, index) => ...)] over an accumulator that the callback
    updates. *)
Fixpoint forEachFrom {A B} (index : nat) (xs : list A) (f : B -> A -> nat -> B)
    (acc : B) : B :=
  match xs with
  | [] => acc
  | x :: rest => forEachFrom (S index) rest f (f acc x index)
  end.

Definition forEach {A B} (xs : list A) (f : B -> A -> nat -> B) (acc : B) : B :=
  forEachFrom 0 xs f acc.

(** [parts.push(p)] *)
Definition push (parts : list Part) (p : Part) : list Part := parts ++ [p].

Definition LF : jsstring := [10%N].

Definition langInstruction (language : Language) : jsstring :=
  match language with
  | zh => js "IMPORTANT: Provide ALL text fields (summary, feedback, studentAnswer, correction, comments, rubricReference) in Simplified Chinese (简体中文)."
  | en => js "IMPORTANT: Provide all text fields in English."
  end.

Definition promptHead : jsstring := js "
    You are an expert academic grader for K-12 education. 
    Your task is to grade a student's exam paper based on the provided answer key (rubric) and optional instructions.
    
    ".

Definition promptTail : jsstring := js "

    Instructions:
    1. Analyze the 'Rubric/Answer Key' images to understand the correct answers and point distribution.
    2. Analyze the 'Student Exam' images. 
    3. Grade each question carefully. Partial credit is allowed if the rubric implies it or if the student shows partial understanding (unless strict grading is requested).
    4. For every question, you MUST quote the specific part of the rubric/answer key that explains why you gave that score in the 'rubricReference' field.
    5. Be fair, consistent, and constructive.
    6. If the student's handwriting is illegible, mark it as 0 and note it in comments.
    7. Return the result in the specified JSON format.
  ".

Definition promptText (instructions : jsstring) (language : Language) : jsstring :=
  let promptText := promptHead ++ langInstruction language ++ promptTail in
  let promptText :=
    if truthy (trim instructions)
    then promptText ++ LF ++ LF ++ js "Additional Teacher Instructions: " ++ instructions
    else promptText in
  promptText ++ LF ++ LF
    ++ js "Below are the images. First, the Answer Key/Rubric, then the Student Exam.".

(** The [parts] array that [gradeExam] builds before it calls the
    provider. *)
Definition gradeExamParts (examFiles rubricFiles : list FileWithPreview)
    (instructions : jsstring) (language : Language) : list Part :=
  let parts := [] in
  let parts := push parts (TextPart (promptText instructions language)) in
  let parts :=
    forEach rubricFiles (fun parts f index =>
      match base64 f with
      | Some data =>
        if truthy data then
          let parts := push parts
            (TextPart (js "[Image: Rubric Page " ++ ofNat (index + 1) ++ js "]")) in
          push parts (InlineData (mimeType f) data)
        else parts
      | None => parts
      end) parts in
  forEach examFiles (fun parts f index =>
    match base64 f with
    | Some data =>
      if truthy data then
        let parts := push parts
          (TextPart (js "[Image: Student Exam Page " ++ ofNat (index + 1) ++ js "]")) in
        push parts (InlineData (mimeType f) data)
      else parts
    | None => parts
    end) parts.

Definition gradeExamRequest (examFiles rubricFiles : list FileWithPreview)
    (instructions : jsstring) (language : Language) : GenerateContentParameters :=
  mkParams (js "gemini-2.5-flash")
    (ContentParts (gradeExamParts examFiles rubricFiles instructions language))
    (Some (mkConfig (js "application/json") gradingSchema (2 # 10)%Q)).

(** [gradeExam]. The [catch] logs the error and throws it again. *)
Definition gradeExam {S} (examFiles rubricFiles : list FileWithPreview)
    (instructions : jsstring) (language : Language) : Eff S GradingResult :=
  tryCatch
    (response <- generateContent
                   (gradeExamRequest examFiles rubricFiles instructions language) ;;
     match response with
     | Some text =>
       if truthy text then
         match JSON.parse text with
         | inl data => Ret data
         | inr e => Throw (Raised e)
         end
       else Throw (Raised (mkError (js "Error") (str "No response text generated")))
     | None => Throw (Raised (mkError (js "Error") (str "No response text generated")))
     end)
    (fun error => Throw error).

Definition refineHead : jsstring := js "
    You are a helpful assistant for a teacher.
    The teacher is providing feedback on how an exam was graded to improve future grading consistency.
    
    Current Instructions: ".

Definition refineMid : jsstring := js "
    
    Teacher's Complaint/Feedback: ".

Definition refineTail : jsstring := js "
    
    Task:
    Based on the teacher's feedback, formulate a clear, concise, and specific instruction rule that should be added to the grading instructions.
    This new rule should ensure that the AI grader accounts for the specific issue mentioned by the teacher (e.g., deducting points for missing keywords, checking for specific concepts like 'regeneration' or 'Gankeng Ancient Town').
    
    Output Format:
    Return ONLY the text of the new instruction rule. Do not include conversational text.
    If the language is Chinese, return the rule in Chinese.
  ".

Definition improvePrompt (currentInstructions teacherFeedback : jsstring) : jsstring :=
  refineHead ++ dquote ++ currentInstructions ++ dquote
    ++ refineMid ++ dquote ++ teacherFeedback ++ dquote ++ refineTail.

Definition improveRequest (currentInstructions teacherFeedback : jsstring)
  : GenerateContentParameters :=
  mkParams (js "gemini-2.5-flash")
    (ContentText (improvePrompt currentInstructions teacherFeedback)) None.

(** [response.text?.trim()], or the empty string when that is falsy. *)
Definition ruleText (text : option jsstring) : jsstring :=
  or_else (option_map trim text) [].

(** [generateImprovedInstructions]; its [language] argument is not read. *)
Definition generateImprovedInstructions {S} (currentInstructions teacherFeedback : jsstring)
    (language : Language) : Eff S jsstring :=
  tryCatch
    (response <- generateContent (improveRequest currentInstructions teacherFeedback) ;;
     Ret (ruleText response))
    (fun error => Throw error).

(* ================================================================== *)
(** * [src/App.tsx]: the session state and its handlers *)
(* ================================================================== *)

(** The text of [translations[language].errorFiles]. *)
Definition errorFiles (language : Language) : jsstring :=
  match language with
  | en => js "Please upload at least one exam image and one rubric/key image."
  | zh => js "请至少上传一张试卷图片和一张答案图片。"
  end.

(** The [useState] cells of [App]. [instructions] is the instruction
    ledger. *)
Record App := mkApp {
  language : Language;
  examFiles : list FileWithPreview;
  rubricFiles : list FileWithPreview;
  instructions : jsstring;
  status : GradingStatus;
  result : option GradingResult;
  errorMessage : option jsstring
}.

Definition initialApp : App := mkApp zh [] [] [] idle None None.

Definition setLanguage (f : Language -> Language) (s : App) : App :=
  mkApp (f (language s)) (examFiles s) (rubricFiles s) (instructions s)
        (status s) (result s) (errorMessage s).

Definition setExamFiles (v : list FileWithPreview) (s : App) : App :=
  mkApp (language s) v (rubricFiles s) (instructions s)
        (status s) (result s) (errorMessage s).

Definition setRubricFiles (v : list FileWithPreview) (s : App) : App :=
  mkApp (language s) (examFiles s) v (instructions s)
        (status s) (result s) (errorMessage s).

(** [setInstructions(prev => f(prev))]; a plain value is a constant [f]. *)
Definition setInstructions (f : jsstring -> jsstring) (s : App) : App :=
  mkApp (language s) (examFiles s) (rubricFiles s) (f (instructions s))
        (status s) (result s) (errorMessage s).

Definition setStatus (v : GradingStatus) (s : App) : App :=
  mkApp (language s) (examFiles s) (rubricFiles s) (instructions s)
        v (result s) (errorMessage s).

Definition setResult (v : option GradingResult) (s : App) : App :=
  mkApp (language s) (examFiles s) (rubricFiles s) (instructions s)
        (status s) v (errorMessage s).

Definition setErrorMessage (v : option jsstring) (s : App) : App :=
  mkApp (language s) (examFiles s) (rubricFiles s) (instructions s)
        (status s) (result s) v.

(** [error.message] in a [catch] block. *)
Definition readMessage {S} (error : Thrown) : Eff S (option jsstring) :=
  match error with
  | Nullish => Throw (Raised typeError)
  | Raised e => Ret (errMessage e)
  end.

(** [handleGrade], as the closure of a render in state [c]: the values it
    reads are those of [c], the setters act on the state of the time they
    run. *)
Definition handleGrade (c : App) : Eff App unit :=
  if (length (examFiles c) =? 0)%nat || (length (rubricFiles c) =? 0)%nat then
    set (setErrorMessage (Some (errorFiles (language c))))
  else
    set (setStatus processing) ;;
    set (setErrorMessage None) ;;
    tryCatch
      (gradingResult <- gradeExam (examFiles c) (rubricFiles c)
                                  (instructions c) (language c) ;;
       set (setResult (Some gradingResult)) ;;
       set (setStatus success))
      (fun e =>
         set (setStatus error) ;;
         message <- readMessage e ;;
         set (setErrorMessage
                (Some (or_else message
                         (js "An unexpected error occurred during grading."))))).

Definition handleReset : Eff App unit :=
  set (setResult None) ;;
  set (setStatus idle) ;;
  set (setExamFiles []) ;;
  set (setRubricFiles []) ;;
  set (setInstructions (fun _ => [])) ;;
  set (setErrorMessage None).

(** The rule as the ledger takes it: after what is there and a blank
    line, under the tag [[Updated Rule]: ]. *)
Definition appendRule (newRule prev : jsstring) : jsstring :=
  let prefix := if truthy prev then prev ++ LF ++ LF else [] in
  prefix ++ js "[Updated Rule]: " ++ newRule.

Definition handleImproveInstructions (c : App) (feedback : jsstring) : Eff App unit :=
  if negb (truthy feedback) then Ret tt
  else
    set (setStatus improving) ;;
    tryCatch
      (newRule <- generateImprovedInstructions (instructions c) feedback (language c) ;;
       if truthy newRule then
         set (setInstructions (appendRule newRule)) ;;
         set (setResult None) ;;
         set (setStatus idle)
       else
         set (setStatus success))
      (fun e => set (setStatus success)).

Definition toggleLanguage : Eff App unit :=
  set (setLanguage (fun prev => match prev with en => zh | zh => en end)).

(** Truthiness of a number: all but [NaN] and the two zeros. *)
Definition truthyNumber (x : Double.number) : bool :=
  match x with
  | Double.NaN => false
  | Double.Infinity _ => true
  | Double.Finite _ m _ => negb (m =? 0)%N
  end.

(** Truthiness of a parsed value: [null], [false], zero and the empty
    string are falsy. *)
Definition truthyValue (v : JSON.value) : bool :=
  match v with
  | JSON.Null => false
  | JSON.Bool b => b
  | JSON.Number x => truthyNumber x
  | JSON.Str s => truthy s
  | JSON.Array _ => true
  | JSON.Object _ => true
  end.

(** Truthiness of the [result] cell; [null] is [None] and also the parsed
    [JSON.Null]. *)
Definition truthyResult (r : option GradingResult) : bool :=
  match r with Some v => truthyValue v | None => false end.

(** The entries of a list under their index as property name. *)
Fixpoint indexedFrom {A} (i : nat) (xs : list A) : list (jsstring * A) :=
  match xs with
  | [] => []
  | x :: rest => (ofNat i, x) :: indexedFrom (S i) rest
  end.

(** The own enumerable properties that [{...v}] copies. *)
Definition ownProperties (v : JSON.value) : list (jsstring * JSON.value) :=
  match v with
  | JSON.Object ps => ps
  | JSON.Array xs => indexedFrom 0 xs
  | JSON.Str s => indexedFrom 0 (map (fun c => JSON.Str [c]) s)
  | _ => []
  end.

(** [handleUpdateScore]. The new score is any number, [NaN] included
    ([ScoreCard] passes [Number(tempValue)]). *)
Definition handleUpdateScore (c : App) (newScore : Double.number) : Eff App unit :=
  match result c with
  | Some r =>
    if truthyValue r then
      set (setResult
             (Some (JSON.Object
                      (JSON.setProp (ownProperties r) (js "totalScore")
                         (JSON.Number newScore)))))
    else Ret tt
  | None => Ret tt
  end.

(** The element that the [main] of [App] returns: the spinner,
    [<ResultView result={r} ... />] or the upload form. What [ResultView]
    makes of its [result] is its own matter (see [questionsMissing]). *)
Inductive Screen := Spinner | Report (r : GradingResult) | UploadForm.

Definition screen (s : App) : Screen :=
  match status s with
  | improving => Spinner
  | success =>
    match result s with
    | Some r => if truthyValue r then Report r else UploadForm
    | None => UploadForm
    end
  | _ => UploadForm
  end.

(** [disabled] of the grade button of the upload form. *)
Definition gradeButtonDisabled (s : App) : bool :=
  match status s with processing => true | _ => false end.

(** The error box of the upload form shows a truthy [errorMessage]. *)
Definition errorShown (s : App) : option jsstring :=
  match errorMessage s with
  | Some m => if truthy m then Some m else None
  | None => None
  end.

(** A handler started from the state it was rendered in. *)
Definition fire (ai : GenerateContentParameters -> ModelOutcome)
    (handler : App -> Eff App unit) (s : App) : Trace App unit :=
  run ai (handler s) s.

(* ================================================================== *)
(** * [src/components/ImageUploader.tsx] and [ResultView] *)
(* ================================================================== *)

(** [s.split(",")]: the pieces of [s] between its commas; never empty. *)
Fixpoint splitComma (s : jsstring) : list jsstring :=
  match s with
  | [] => [[]]
  | c :: rest =>
    if (c =? 44)%N then [] :: splitComma rest
    else
      match splitComma rest with
      | piece :: pieces => (c :: piece) :: pieces
      | [] => [[c]]
      end
  end.

(** [result.split(',')[1]]: the text after the [data:...;base64,] prefix
    of a data URL, [undefined] when the text has no comma. *)
Definition base64Data (result : jsstring) : option jsstring :=
  nth_error (splitComma result) 1.

(** A file of the file input, as the handler sees it: [file.type], the
    URL that [URL.createObjectURL] gives it, and [reader.result] at
    [loadend], which is [null] when the file could not be read. *)
Record SelectedFile := mkSelected {
  fileType : jsstring;
  objectUrl : jsstring;
  readResult : option jsstring
}.

(** The loop of [handleFileSelect]: the files are read one after the
    other. Where a read gives no result the [split] throws inside the
    event handler, the awaited promise is never resolved and the loop
    does not go on: [None]. *)
Fixpoint readFiles (selected : list SelectedFile) : option (list FileWithPreview) :=
  match selected with
  | [] => Some []
  | f :: rest =>
    match readResult f with
    | None => None
    | Some result =>
      match readFiles rest with
      | Some newFiles =>
        Some (mkFile (objectUrl f) (base64Data result) (fileType f) :: newFiles)
      | None => None
      end
    end
  end.

(** [handleFileSelect]: the list it passes to [onFilesChange], or [None]
    when [onFilesChange] is not called ([e.target.files] is [null], or a
    read did not come back). *)
Definition handleFileSelect (files : list FileWithPreview)
    (selected : option (list SelectedFile)) : option (list FileWithPreview) :=
  match selected with
  | Some chosen =>
    match readFiles chosen with
    | Some newFiles => Some (files ++ newFiles)
    | None => None
    end
  | None => None
  end.

(** [xs.filter((x, i) => p(x, i))] *)
Fixpoint filterFrom {A} (i : nat) (p : A -> nat -> bool) (xs : list A) : list A :=
  match xs with
  | [] => []
  | x :: rest =>
    if p x i then x :: filterFrom (S i) p rest else filterFrom (S i) p rest
  end.

(** [removeFile]: the list it passes to [onFilesChange]. *)
Definition removeFile (files : list FileWithPreview) (index : nat)
  : list FileWithPreview :=
  filterFrom 0 (fun _ i => negb (i =? index)) files.

(** The upload area is rendered while [files.length < maxFiles]. *)
Definition uploadAreaShown (files : list FileWithPreview) (maxFiles : nat) : bool :=
  length files <? maxFiles.

(** [result.questions] is not an array. The body of [ResultView]
    evaluates [result.questions.map(...)], which then throws a
    [TypeError]: with such a [result] no render of [ResultView] comes to
    its end. *)
Definition questionsMissing (result : JSON.value) : bool :=
  match result with
  | JSON.Object ps =>
    match JSON.lookup (js "questions") ps with
    | Some (JSON.Array _) => false
    | _ => true
    end
  | _ => true
  end.

(** [disabled] of the button of [ResultView] that calls
    [onImproveInstructions(feedback)]. *)
Definition improveButtonDisabled (feedback : jsstring) : bool :=
  negb (truthy (trim feedback)).

(* ================================================================== *)
(** * Vocabulary of the properties *)
(* ================================================================== *)

(** [s] begins with a white-space code unit. *)
Definition startsBlank (s : jsstring) : bool :=
  match s with c :: _ => isWhiteSpace c | [] => false end.

Definition blank (s : jsstring) : bool := forallb isWhiteSpace s.

(** The shape a schema declares, in the words of the specification: a
    value has it when it is of the declared type, an array's items have
    the shape of [items], and an object has every [required] property and
    each declared property it has is of its declared shape. *)
Fixpoint conforms (sc : Schema) (v : JSON.value) {struct sc} : bool :=
  match sc with
  | mkSchema ty _ props items req =>
    match ty, v with
    | STRING, JSON.Str _ => true
    | NUMBER, JSON.Number _ => true
    | BOOLEAN, JSON.Bool _ => true
    | ARRAY, JSON.Array xs =>
      match items with
      | Some it => forallb (conforms it) xs
      | None => true
      end
    | OBJECT, JSON.Object ps =>
      forallb (fun k => match JSON.lookup k ps with Some _ => true | None => false end) req
      && (fix each (props : list (jsstring * Schema)) : bool :=
            match props with
            | [] => true
            | (k, sc') :: rest =>
              match JSON.lookup k ps with
              | Some v' => conforms sc' v'
              | None => true
              end && each rest
            end) props
    | _, _ => false
    end
  end.

(** A literal in which ['] stands for the double quote. *)
Definition jsq (s : string) : jsstring :=
  map (fun c => if (c =? 39)%N then 34%N else c) (js s).

Definition noResponseText : JsError :=
  mkError (js "Error") (str "No response text generated").

(** The file has an image payload: [base64] is there and not empty. *)
Definition hasPayload (f : FileWithPreview) : bool := truthy_opt (base64 f).

Definition rubricMarker (n : nat) : jsstring :=
  js "[Image: Rubric Page " ++ ofNat n ++ js "]".

Definition examMarker (n : nat) : jsstring :=
  js "[Image: Student Exam Page " ++ ofNat n ++ js "]".

(** The segments one [forEach] loop of [gradeExam] appends, for the files
    from position [index] on. *)
Fixpoint pagesFrom (marker : nat -> jsstring) (index : nat)
    (files : list FileWithPreview) : list Part :=
  match files with
  | [] => []
  | f :: rest =>
    match base64 f with
    | Some data =>
      if truthy data
      then TextPart (marker (index + 1)) :: InlineData (mimeType f) data
             :: pagesFrom marker (S index) rest
      else pagesFrom marker (S index) rest
    | None => pagesFrom marker (S index) rest
    end
  end.

(** The page numbers of the files that have a payload: position plus
    one, the position being the one in the whole input. *)
Fixpoint pageNumbersFrom (index : nat) (files : list FileWithPreview) : list nat :=
  match files with
  | [] => []
  | f :: rest =>
    if hasPayload f then (index + 1) :: pageNumbersFrom (S index) rest
    else pageNumbersFrom (S index) rest
  end.

Definition pageNumbers (files : list FileWithPreview) : list nat :=
  pageNumbersFrom 0 files.

(** The image a file is sent as: its mime type and its payload. *)
Definition imageOf (f : FileWithPreview) : jsstring * jsstring :=
  (mimeType f, match base64 f with Some data => data | None => [] end).

(** The image segments of a segment list, in order. *)
Definition imagesOf (parts : list Part) : list (jsstring * jsstring) :=
  flat_map (fun p => match p with InlineData m d => [(m, d)] | TextPart _ => [] end) parts.

(** The text segments of a segment list, in order. *)
Definition textsOf (parts : list Part) : list jsstring :=
  flat_map (fun p => match p with TextPart t => [t] | InlineData _ _ => [] end) parts.

(** The list is made of pairs: a text segment, then an image segment. *)
Fixpoint paired (parts : list Part) : bool :=
  match parts with
  | [] => true
  | TextPart _ :: InlineData _ _ :: rest => paired rest
  | _ => false
  end.

(** ** JSON text of a value

    The compact text of what a JSON text can write down: strings with
    the escapes that [JSON.stringify] writes, arrays and objects without white space, a
    number as its sign, the digits of its mantissa and, when the exponent
    is not zero, [e] and the exponent. *)

Definition digitsOf (n : N) : list N :=
  map N_of_ascii (list_ascii_of_string (NilEmpty.string_of_uint (N.to_uint n))).

Definition hexDigit (n : N) : N := if (n <? 10)%N then (48 + n)%N else (87 + n)%N.

Definition encodeChar (c : N) : list N :=
  if (c =? 34)%N then [92; 34]%N
  else if (c =? 92)%N then [92; 92]%N
  else if (c <? 32)%N
       then [92; 117; 48; 48; hexDigit (c / 16); hexDigit (c mod 16)]%N
       else [c].

Definition encodeString (s : jsstring) : list N :=
  34%N :: flat_map encodeChar s ++ [34%N].

Definition encodeNumber (neg : bool) (mant : N) (e : Z) : list N :=
  (if neg then [45%N] else [])
  ++ digitsOf mant
  ++ (if (e =? 0)%Z then []
      else 101%N :: (if (e <? 0)%Z then [45%N] else []) ++ digitsOf (Z.abs_N e)).

Fixpoint commaJoin (parts : list (list N)) : list N :=
  match parts with
  | [] => []
  | p :: rest =>
    match rest with
    | [] => p
    | _ :: _ => p ++ 44%N :: commaJoin rest
    end
  end.

Fixpoint encode (v : JSONText.value) : list N :=
  match v with
  | JSONText.Null => js "null"
  | JSONText.Bool b => if b then js "true" else js "false"
  | JSONText.Number neg mant e => encodeNumber neg mant e
  | JSONText.Str s => encodeString s
  | JSONText.Array xs => 91%N :: commaJoin (map encode xs) ++ [93%N]
  | JSONText.Object ps =>
    123%N
      :: commaJoin (map (fun kv => let '(k, x) := kv in
                                   encodeString k ++ 58%N :: encode x) ps)
      ++ [125%N]
  end.

Fixpoint distinct (ks : list jsstring) : bool :=
  match ks with
  | [] => true
  | k :: rest => negb (existsb (Js.eqb k) rest) && distinct rest
  end.

(** No object of the value has two properties of the same name. *)
Fixpoint distinctKeys (v : JSONText.value) : bool :=
  match v with
  | JSONText.Array xs => forallb distinctKeys xs
  | JSONText.Object ps =>
    distinct (map fst ps)
    && forallb (fun kv => let '(_, x) := kv in distinctKeys x) ps
  | _ => true
  end.

(** ** What is written and what is returned *)

(** [t] and [v] are of the same structure, with the same strings,
    booleans and property names at the same places, and every number
    literal of [t] stands in [R] to the number of [v] at its place. *)
Fixpoint agree (R : bool -> N -> Z -> Double.number -> Prop)
    (t : JSONText.value) (v : JSON.value) {struct t} : Prop :=
  match t, v with
  | JSONText.Null, JSON.Null => True
  | JSONText.Bool a, JSON.Bool b => a = b
  | JSONText.Number neg mant exp10, JSON.Number x => R neg mant exp10 x
  | JSONText.Str a, JSON.Str b => a = b
  | JSONText.Array xs, JSON.Array ys =>
    (fix items (l : list JSONText.value) (l' : list JSON.value) : Prop :=
       match l, l' with
       | [], [] => True
       | x :: r, y :: r' => agree R x y /\ items r r'
       | _, _ => False
       end) xs ys
  | JSONText.Object ps, JSON.Object qs =>
    (fix props (l : list (jsstring * JSONText.value))
         (l' : list (jsstring * JSON.value)) : Prop :=
       match l, l' with
       | [], [] => True
       | (k, x) :: r, (k', y) :: r' => k = k' /\ agree R x y /\ props r r'
       | _, _ => False
       end) ps qs
  | _, _ => False
  end.

(** Every number literal of [t] has the property [P]. *)
Fixpoint allNumbers (P : bool -> N -> Z -> Prop) (t : JSONText.value) : Prop :=
  match t with
  | JSONText.Number neg mant exp10 => P neg mant exp10
  | JSONText.Array xs =>
    (fix items (l : list JSONText.value) : Prop :=
       match l with
       | [] => True
       | x :: r => allNumbers P x /\ items r
       end) xs
  | JSONText.Object ps =>
    (fix props (l : list (jsstring * JSONText.value)) : Prop :=
       match l with
       | [] => True
       | (_, x) :: r => allNumbers P x /\ props r
       end) ps
  | _ => True
  end.

(** The literal is an integer of magnitude below [2^53], written without
    exponent. *)
Definition safeInteger (neg : bool) (mant : N) (exp10 : Z) : Prop :=
  exp10 = 0%Z /\ (Z.of_N mant < 2 ^ 53)%Z.

(** Every number of [v] is in canonical form, so that two numbers of
    the same value are the same. *)
Fixpoint canonicalValue (v : JSON.value) : bool :=
  match v with
  | JSON.Number x => Double.canonical x
  | JSON.Array xs => forallb canonicalValue xs
  | JSON.Object ps => forallb (fun kv => let '(_, x) := kv in canonicalValue x) ps
  | _ => true
  end.

(** ** Vocabulary of the parser properties *)

Definition digitChars (d : Decimal.uint) : list N :=
  map N_of_ascii (list_ascii_of_string (NilEmpty.string_of_uint d)).

Definition digitStep (acc d : N) : N := (acc * 10 + (d - 48))%N.

(** What follows a number in a text: nothing, or a code unit that cannot
    go on with it. *)
Definition closes (rest : list N) : Prop :=
  match rest with
  | [] => True
  | c :: _ => JSONText.isCh "," c = true \/ JSONText.isCh "]" c = true \/ JSONText.isCh "}" c = true
  end.

Definition noDigitAhead (rest : list N) : Prop :=
  match rest with [] => True | c :: _ => JSONText.isDigit c = false end.

(** The text of a value begins with a code unit that is not white space
    and closes neither an array nor an object. *)
Definition opens (s : list N) : Prop :=
  exists c t,
    s = c :: t /\ JSONText.isWs c = false /\ JSONText.isCh "]" c = false
    /\ JSONText.isCh "}" c = false.

(** The round trip of a value, behind the text of its encoding and
    before text that closes it. *)
Definition roundTrips (v : JSONText.value) : Prop :=
  forall rest, closes rest -> exists f, JSONText.parseValue f (encode v ++ rest) = JSONText.Ok v rest.

Definition encodeMember (kv : jsstring * JSONText.value) : list N :=
  let '(k, x) := kv in encodeString k ++ 58%N :: encode x.

(** ** Sample data *)

Definition pageA : FileWithPreview :=
  mkFile (js "blob:page-a") (Some (js "QUJD")) (js "image/png").

Definition pageB : FileWithPreview :=
  mkFile (js "blob:page-b") None (js "image/png").

Definition pageC : FileWithPreview :=
  mkFile (js "blob:page-c") (Some (js "REVG")) (js "image/jpeg").

(** A provider that answers every call with the same text. *)
Definition answers (text : option jsstring) : GenerateContentParameters -> ModelOutcome :=
  fun _ => Responded text.

(** A provider whose every call throws. *)
Definition fails (e : Thrown) : GenerateContentParameters -> ModelOutcome :=
  fun _ => Failed e.

Definition quotaError : JsError :=
  mkError (js "ApiError") (str "429 quota exceeded").

(** The response body of the scenario of the specification. *)
Definition sampleBody : jsstring :=
  jsq "{'totalScore':8,'maxScore':10,'letterGrade':'B','summary':'Good work','constructiveFeedback':'Review part 2','questions':[{'questionId':'1','score':8,'maxScore':10,'isCorrect':false,'studentAnswer':'...','correction':'...','comments':'...'}]}".

(** What that body writes down. *)
Definition sampleText : JSONText.value :=
  JSONText.Object
    [ (js "totalScore", JSONText.Number false 8 0);
      (js "maxScore", JSONText.Number false 10 0);
      (js "letterGrade", JSONText.Str (js "B"));
      (js "summary", JSONText.Str (js "Good work"));
      (js "constructiveFeedback", JSONText.Str (js "Review part 2"));
      (js "questions",
        JSONText.Array
          [ JSONText.Object
              [ (js "questionId", JSONText.Str (js "1"));
                (js "score", JSONText.Number false 8 0);
                (js "maxScore", JSONText.Number false 10 0);
                (js "isCorrect", JSONText.Bool false);
                (js "studentAnswer", JSONText.Str (js "..."));
                (js "correction", JSONText.Str (js "..."));
                (js "comments", JSONText.Str (js "...")) ] ]) ].

(** The numbers [8], [9] and [10]. *)
Definition eight : Double.number := Double.Finite false 4503599627370496 (-49).
Definition nine : Double.number := Double.Finite false 5066549580791808 (-49).
Definition ten : Double.number := Double.Finite false 5629499534213120 (-49).

Definition sampleResult : GradingResult :=
  JSON.Object
    [ (js "totalScore", JSON.Number eight);
      (js "maxScore", JSON.Number ten);
      (js "letterGrade", JSON.Str (js "B"));
      (js "summary", JSON.Str (js "Good work"));
      (js "constructiveFeedback", JSON.Str (js "Review part 2"));
      (js "questions",
        JSON.Array
          [ JSON.Object
              [ (js "questionId", JSON.Str (js "1"));
                (js "score", JSON.Number eight);
                (js "maxScore", JSON.Number ten);
                (js "isCorrect", JSON.Bool false);
                (js "studentAnswer", JSON.Str (js "..."));
                (js "correction", JSON.Str (js "..."));
                (js "comments", JSON.Str (js "...")) ] ]) ].

(** A body that is JSON but not of the schema's shape: a text where a
    number is declared, and nothing else. *)
Definition partialBody : jsstring := jsq "{'totalScore':'eight'}".

Definition partialResult : GradingResult :=
  JSON.Object [ (js "totalScore", JSON.Str (js "eight")) ].

(** A body of the schema's shape whose total score is [2^53 + 1], and
    what it writes down. *)
Definition largeBody : jsstring :=
  jsq "{'totalScore':9007199254740993,'maxScore':10,'letterGrade':'A','summary':'Top','constructiveFeedback':'None','questions':[]}".

Definition largeText : JSONText.value :=
  JSONText.Object
    [ (js "totalScore", JSONText.Number false 9007199254740993 0);
      (js "maxScore", JSONText.Number false 10 0);
      (js "letterGrade", JSONText.Str (js "A"));
      (js "summary", JSONText.Str (js "Top"));
      (js "constructiveFeedback", JSONText.Str (js "None"));
      (js "questions", JSONText.Array []) ].

(** What [JSON.parse] makes of it: the total score is [2^53]. *)
Definition largeResult : GradingResult :=
  JSON.Object
    [ (js "totalScore", JSON.Number (Double.Finite false 4503599627370496 1));
      (js "maxScore", JSON.Number ten);
      (js "letterGrade", JSON.Str (js "A"));
      (js "summary", JSON.Str (js "Top"));
      (js "constructiveFeedback", JSON.Str (js "None"));
      (js "questions", JSON.Array []) ].

(** A provider text for a new rule, with white space around it. *)
Definition spellingRule : jsstring := js "  Deduct one point per spelling mistake.
".

(** Two files of a file input: one read as a data URL, one of unknown
    type whose result has no comma. *)
Definition shotA : SelectedFile :=
  mkSelected (js "image/png") (js "blob:shot-a") (Some (js "data:image/png;base64,QUJD")).

Definition shotEmpty : SelectedFile :=
  mkSelected [] (js "blob:shot-empty") (Some (js "data:")).

(** What [handleFileSelect] gives for them after [pageA]. *)
Definition selectedAfterPageA : list FileWithPreview :=
  [ pageA;
    mkFile (js "blob:shot-a") (Some (js "QUJD")) (js "image/png");
    mkFile (js "blob:shot-empty") None [] ].

(** A session whose uploaded files all lack a payload. *)
Definition emptyPagesSession : App :=
  mkApp en [pageB] [pageB; pageB] [] idle None None.

(** A session with its images uploaded and nothing graded yet. *)
Definition readySession : App :=
  mkApp en [pageA; pageC] [pageA] [] idle None None.

(** A session showing a result, with a teacher instruction in the ledger. *)
Definition gradedSession : App :=
  mkApp en [pageA; pageC] [pageA] (js "Be strict on grammar.") success
        (Some sampleResult) None.

(* ================================================================== *)
(** * Running asynchronous code *)
(* ================================================================== *)

Unset Implicit Arguments.

Section Run.

Context {S : Type} (ai : GenerateContentParameters -> ModelOutcome).

Lemma run_set (f : S -> S) (s : S) :
  run ai (set f) s = mkTrace (inl tt) (f s) [].
Proof. reflexivity. Qed.

(** [p] then [k]: the calls of [p], then those of [k] from the state [p]
    left, unless [p] threw. *)
Lemma run_bind {A B} (p : Eff S A) (k : A -> Eff S B) :
  forall s,
  run ai (bind p k) s =
  match outcome (run ai p s) with
  | inl a =>
    let t := run ai (k a) (final (run ai p s)) in
    mkTrace (outcome t) (final t) (calls (run ai p s) ++ calls t)
  | inr e => mkTrace (inr e) (final (run ai p s)) (calls (run ai p s))
  end.
Proof.
  induction p as [a|e|req h IH|f q IH]; intros s; cbn [bind run outcome final calls].
  - now destruct (run ai (k a) s).
  - reflexivity.
  - rewrite IH. now destruct (outcome (run ai (h (ai req)) s)).
  - apply IH.
Qed.

Lemma run_tryCatch {A} (p : Eff S A) (h : Thrown -> Eff S A) :
  forall s,
  run ai (tryCatch p h) s =
  match outcome (run ai p s) with
  | inl a => run ai p s
  | inr e =>
    let t := run ai (h e) (final (run ai p s)) in
    mkTrace (outcome t) (final t) (calls (run ai p s) ++ calls t)
  end.
Proof.
  induction p as [a|e|req k IH|f q IH]; intros s; cbn [tryCatch run outcome final calls].
  - reflexivity.
  - now destruct (run ai (h e) s).
  - rewrite IH. destruct (outcome (run ai (k (ai req)) s)) eqn:E;
      [now rewrite E | reflexivity].
  - apply IH.
Qed.

End Run.

(* ================================================================== *)
(** * Properties of the parser *)
(* ================================================================== *)

Module JSONFacts.
Import JSONText.

Ltac eval_ascii :=
  repeat match goal with
  | |- context [N_of_ascii ?a] =>
    let v := eval vm_compute in (N_of_ascii a) in change (N_of_ascii a) with v
  end.

Lemma skipWs_le (s : list N) : length (skipWs s) <= length s.
Proof.
  induction s as [|c r IH]; simpl; auto.
  destruct (isWs c); simpl; lia.
Qed.

Lemma skipWs_cons_le (s r : list N) (c : N) :
  skipWs s = c :: r -> length r < length s.
Proof. intros H. pose proof (skipWs_le s) as L. rewrite H in L. simpl in L. lia. Qed.

Lemma parseChars_lt (s : list N) :
  forall k r, parseChars s = Some (k, r) -> length r < length s.
Proof.
  induction s as [s IH] using (well_founded_induction
    (Wf_nat.well_founded_ltof _ (@length N))).
  unfold Wf_nat.ltof in IH. intros k r. destruct s as [|c t]; simpl; [discriminate|].
  destruct (isQuote c).
  { intros H. injection H as _ <-. lia. }
  destruct (isCh "\" c).
  - destruct t as [|e t1]; [discriminate|].
    destruct (isCh "u" e).
    + destruct t1 as [|h1 [|h2 [|h3 [|h4 t2]]]]; try discriminate.
      destruct (hex4 h1 h2 h3 h4); [|discriminate].
      destruct (parseChars t2) as [[str rest]|] eqn:E; [|discriminate].
      intros H. injection H as _ <-. apply IH in E; simpl in *; lia.
    + destruct (escape e); [|discriminate].
      destruct (parseChars t1) as [[str rest]|] eqn:E; [|discriminate].
      intros H. injection H as _ <-. apply IH in E; simpl in *; lia.
  - destruct (c <? 32)%N; [discriminate|].
    destruct (parseChars t) as [[str rest]|] eqn:E; [|discriminate].
    intros H. injection H as _ <-. apply IH in E; simpl in *; lia.
Qed.

Lemma takeDigits_le (s : list N) :
  forall ds r, takeDigits s = (ds, r) -> length r <= length s.
Proof.
  induction s as [|c t IH]; simpl; intros ds r H.
  - injection H as _ <-. auto.
  - destruct (isDigit c).
    + destruct (takeDigits t) as [ds' r'] eqn:E. injection H as _ <-.
      specialize (IH _ _ eq_refl). lia.
    + injection H as _ <-. simpl. lia.
Qed.

Lemma parseInt_lt (s : list N) :
  forall ds r, parseInt s = Some (ds, r) -> length r < length s.
Proof.
  intros ds r. destruct s as [|c t]; simpl; [discriminate|].
  destruct (isCh "0" c).
  - intros H. injection H as _ <-. lia.
  - destruct (isDigit c) eqn:D; [|discriminate].
    destruct (takeDigits t) as [ds' r'] eqn:E.
    intros H. injection H as _ <-. apply takeDigits_le in E. lia.
Qed.

Lemma parseFrac_le (s : list N) :
  forall ds r, parseFrac s = Some (ds, r) -> length r <= length s.
Proof.
  intros ds r. destruct s as [|c t]; simpl.
  - intros H. injection H as _ <-. auto.
  - destruct (isCh "." c).
    + destruct (takeDigits t) as [[|d ds'] r'] eqn:E; [discriminate|].
      intros H. injection H as _ <-. apply takeDigits_le in E. lia.
    + intros H. injection H as _ <-. simpl. lia.
Qed.

Lemma parseExpDigits_le (neg : bool) (s : list N) :
  forall e r, parseExpDigits neg s = Some (e, r) -> length r <= length s.
Proof.
  intros e r. unfold parseExpDigits.
  destruct (takeDigits s) as [[|d ds] r'] eqn:E; [discriminate|].
  intros H. injection H as _ <-. now apply takeDigits_le in E.
Qed.

Lemma parseExp_le (s : list N) :
  forall e r, parseExp s = Some (e, r) -> length r <= length s.
Proof.
  intros e r. destruct s as [|c t]; simpl.
  - intros H. injection H as _ <-. auto.
  - destruct (isCh "e" c || isCh "E" c).
    + destruct t as [|sg t1]; [discriminate|].
      destruct (isCh "-" sg); [|destruct (isCh "+" sg)]; intros H;
        apply parseExpDigits_le in H; simpl in *; lia.
    + intros H. injection H as _ <-. simpl. lia.
Qed.

Lemma parseNumber_lt (s : list N) :
  forall v r, parseNumber s = Ok v r -> length r < length s.
Proof.
  intros v r. unfold parseNumber.
  set (p := match s with
            | c :: r0 => if isCh "-" c then (true, r0) else (false, s)
            | [] => (false, s)
            end).
  assert (Hp : length (snd p) <= length s).
  { subst p. destruct s as [|c t]; simpl; auto. destruct (isCh "-" c); simpl; lia. }
  destruct p as [neg s1]. simpl in Hp.
  destruct (parseInt s1) as [[ids s2]|] eqn:E1; [|discriminate].
  destruct (parseFrac s2) as [[fds s3]|] eqn:E2; [|discriminate].
  destruct (parseExp s3) as [[e s4]|] eqn:E3; [|discriminate].
  intros H. injection H as _ <-.
  apply parseInt_lt in E1. apply parseFrac_le in E2. apply parseExp_le in E3. lia.
Qed.

Lemma parseNumber_fuel (s : list N) : parseNumber s <> OutOfFuel.
Proof.
  unfold parseNumber.
  destruct (match s with
            | c :: r0 => if isCh "-" c then (true, r0) else (false, s)
            | [] => (false, s)
            end) as [neg s1].
  destruct (parseInt s1) as [[ids s2]|]; [|discriminate].
  destruct (parseFrac s2) as [[fds s3]|]; [|discriminate].
  destruct (parseExp s3) as [[e s4]|]; discriminate.
Qed.

Lemma expect_le (w s : list N) :
  forall r, expect w s = Some r -> length r <= length s.
Proof.
  revert s. induction w as [|a w IH]; intros s r; simpl.
  - intros H. injection H as <-. auto.
  - destruct s as [|c t]; [discriminate|].
    destruct (c =? a)%N; [|discriminate].
    intros H. apply IH in H. simpl. lia.
Qed.

Lemma keyword_le (w : string) (v : value) (s : list N) :
  forall v' r, keyword w v s = Ok v' r -> length r <= length s.
Proof.
  intros v' r. unfold keyword. destruct (expect (js w) s) eqn:E; [|discriminate].
  intros H. injection H as _ <-. now apply expect_le in E.
Qed.

Lemma keyword_fuel (w : string) (v : value) (s : list N) : keyword w v s <> OutOfFuel.
Proof. unfold keyword. destruct (expect (js w) s); discriminate. Qed.



(** What a parser leaves is shorter than what it was given. *)
Lemma parse_rest_lt (fuel : nat) :
  (forall s v r, parseValue fuel s = Ok v r -> length r < length s)
  /\ (forall s vs r, parseElements fuel s = Ok vs r -> length r < length s)
  /\ (forall s ms r, parseMembers fuel s = Ok ms r -> length r < length s).
Proof.
  induction fuel as [|f (IHv & IHe & IHm)]; [repeat split; discriminate|].
  repeat split.
  - intros s v r. cbn [parseValue].
    destruct (skipWs s) as [|c t] eqn:Es; [discriminate|].
    pose proof (skipWs_le s) as Ls. rewrite Es in Ls. simpl in Ls.
    destruct (isCh "{" c).
    { destruct (skipWs t) as [|c' t'] eqn:Et; [discriminate|].
      pose proof (skipWs_le t) as Lt. rewrite Et in Lt. simpl in Lt.
      destruct (isCh "}" c').
      - intros H. injection H as _ <-. lia.
      - destruct (parseMembers f (c' :: t')) as [ms rest| |] eqn:E; try discriminate.
        intros H. injection H as _ <-. apply IHm in E. simpl in E. lia. }
    destruct (isCh "[" c).
    { destruct (skipWs t) as [|c' t'] eqn:Et; [discriminate|].
      pose proof (skipWs_le t) as Lt. rewrite Et in Lt. simpl in Lt.
      destruct (isCh "]" c').
      - intros H. injection H as _ <-. lia.
      - destruct (parseElements f (c' :: t')) as [vs rest| |] eqn:E; try discriminate.
        intros H. injection H as _ <-. apply IHe in E. simpl in E. lia. }
    destruct (isQuote c).
    { destruct (parseChars t) as [[str rest]|] eqn:E; [|discriminate].
      intros H. injection H as _ <-. apply parseChars_lt in E. lia. }
    destruct (isCh "t" c); [intros H; apply keyword_le in H; lia|].
    destruct (isCh "f" c); [intros H; apply keyword_le in H; lia|].
    destruct (isCh "n" c); [intros H; apply keyword_le in H; lia|].
    intros H. apply parseNumber_lt in H. simpl in H. lia.
  - intros s vs r. cbn [parseElements].
    destruct (parseValue f s) as [v t| |] eqn:Ev; try discriminate.
    apply IHv in Ev.
    destruct (skipWs t) as [|c t'] eqn:Et; [discriminate|].
    pose proof (skipWs_le t) as Lt. rewrite Et in Lt. simpl in Lt.
    destruct (isCh "," c).
    + destruct (parseElements f t') as [vs' rest| |] eqn:E; try discriminate.
      intros H. injection H as _ <-. apply IHe in E. lia.
    + destruct (isCh "]" c); [|discriminate].
      intros H. injection H as _ <-. lia.
  - intros s ms r. cbn [parseMembers].
    destruct (skipWs s) as [|q t0] eqn:Es; [discriminate|].
    pose proof (skipWs_le s) as Ls. rewrite Es in Ls. simpl in Ls.
    destruct (isQuote q); [|discriminate].
    destruct (parseChars t0) as [[k t1]|] eqn:Ek; [|discriminate].
    apply parseChars_lt in Ek.
    destruct (skipWs t1) as [|col t2] eqn:E1; [discriminate|].
    pose proof (skipWs_le t1) as L1. rewrite E1 in L1. simpl in L1.
    destruct (isCh ":" col); [|discriminate].
    destruct (parseValue f t2) as [v t3| |] eqn:Ev; try discriminate.
    apply IHv in Ev.
    destruct (skipWs t3) as [|c t4] eqn:E3; [discriminate|].
    pose proof (skipWs_le t3) as L3. rewrite E3 in L3. simpl in L3.
    destruct (isCh "," c).
    + destruct (parseMembers f t4) as [ms' rest| |] eqn:E; try discriminate.
      intros H. injection H as _ <-. apply IHm in E. lia.
    + destruct (isCh "}" c); [|discriminate].
      intros H. injection H as _ <-. lia.
Qed.

(** The fuel that [JSON.parse] gives is never used up: one unit for the
    value and two for each code unit of the input are enough. *)
Lemma parse_fuel (fuel : nat) :
  (forall s, 2 * length s + 1 <= fuel -> parseValue fuel s <> OutOfFuel)
  /\ (forall s, 2 * length s + 2 <= fuel -> parseElements fuel s <> OutOfFuel)
  /\ (forall s, 2 * length s + 2 <= fuel -> parseMembers fuel s <> OutOfFuel).
Proof.
  induction fuel as [|f (IHv & IHe & IHm)]; [repeat split; intros; lia|].
  repeat split.
  - intros s Hf. cbn [parseValue].
    destruct (skipWs s) as [|c t] eqn:Es; [discriminate|].
    pose proof (skipWs_le s) as Ls. rewrite Es in Ls. simpl in Ls.
    destruct (isCh "{" c).
    { destruct (skipWs t) as [|c' t'] eqn:Et; [discriminate|].
      pose proof (skipWs_le t) as Lt. rewrite Et in Lt. simpl in Lt.
      destruct (isCh "}" c'); [discriminate|].
      destruct (parseMembers f (c' :: t')) as [ms rest| |] eqn:E; try discriminate.
      exfalso. revert E. apply IHm. simpl. lia. }
    destruct (isCh "[" c).
    { destruct (skipWs t) as [|c' t'] eqn:Et; [discriminate|].
      pose proof (skipWs_le t) as Lt. rewrite Et in Lt. simpl in Lt.
      destruct (isCh "]" c'); [discriminate|].
      destruct (parseElements f (c' :: t')) as [vs rest| |] eqn:E; try discriminate.
      exfalso. revert E. apply IHe. simpl. lia. }
    destruct (isQuote c).
    { destruct (parseChars t) as [[str rest]|]; discriminate. }
    destruct (isCh "t" c); [apply keyword_fuel|].
    destruct (isCh "f" c); [apply keyword_fuel|].
    destruct (isCh "n" c); [apply keyword_fuel|].
    apply parseNumber_fuel.
  - intros s Hf. cbn [parseElements].
    destruct (parseValue f s) as [v t| |] eqn:Ev; try discriminate.
    + apply (proj1 (parse_rest_lt f)) in Ev.
      destruct (skipWs t) as [|c t'] eqn:Et; [discriminate|].
      pose proof (skipWs_le t) as Lt. rewrite Et in Lt. simpl in Lt.
      destruct (isCh "," c).
      * destruct (parseElements f t') as [vs' rest| |] eqn:E; try discriminate.
        exfalso. revert E. apply IHe. lia.
      * destruct (isCh "]" c); discriminate.
    + exfalso. revert Ev. apply IHv. lia.
  - intros s Hf. cbn [parseMembers].
    destruct (skipWs s) as [|q t0] eqn:Es; [discriminate|].
    pose proof (skipWs_le s) as Ls. rewrite Es in Ls. simpl in Ls.
    destruct (isQuote q); [|discriminate].
    destruct (parseChars t0) as [[k t1]|] eqn:Ek; [|discriminate].
    apply parseChars_lt in Ek.
    destruct (skipWs t1) as [|col t2] eqn:E1; [discriminate|].
    pose proof (skipWs_le t1) as L1. rewrite E1 in L1. simpl in L1.
    destruct (isCh ":" col); [|discriminate].
    destruct (parseValue f t2) as [v t3| |] eqn:Ev; try discriminate.
    + apply (proj1 (parse_rest_lt f)) in Ev.
      destruct (skipWs t3) as [|c t4] eqn:E3; [discriminate|].
      pose proof (skipWs_le t3) as L3. rewrite E3 in L3. simpl in L3.
      destruct (isCh "," c).
      * destruct (parseMembers f t4) as [ms' rest| |] eqn:E; try discriminate.
        exfalso. revert E. apply IHm. lia.
      * destruct (isCh "}" c); discriminate.
    + exfalso. revert Ev. apply IHv. lia.
Qed.

(** [JSON.parse] fails only on a text that is not JSON: its parser does
    not run out of fuel. *)
Lemma parseValue_fuel (text : jsstring) :
  parseValue (2 * length text + 1) text <> OutOfFuel.
Proof. apply (proj1 (parse_fuel _)). lia. Qed.


(** More fuel than a parser needed changes nothing. *)
Lemma parse_fuel_mono (f : nat) :
  forall f', f <= f' ->
  (forall s, parseValue f s <> OutOfFuel -> parseValue f' s = parseValue f s)
  /\ (forall s, parseElements f s <> OutOfFuel -> parseElements f' s = parseElements f s)
  /\ (forall s, parseMembers f s <> OutOfFuel -> parseMembers f' s = parseMembers f s).
Proof.
  induction f as [|f IH]; intros f' Hle.
  { repeat split; intros s H; now destruct H. }
  destruct f' as [|f']; [lia|].
  destruct (IH f' ltac:(lia)) as (IHv & IHe & IHm).
  repeat split.
  - intros s. cbn [parseValue].
    destruct (skipWs s) as [|c t]; [reflexivity|].
    destruct (isCh "{" c).
    { destruct (skipWs t) as [|c' t']; [reflexivity|].
      destruct (isCh "}" c'); [reflexivity|].
      intros H. rewrite IHm; [reflexivity|].
      intros E. rewrite E in H. now apply H. }
    destruct (isCh "[" c).
    { destruct (skipWs t) as [|c' t']; [reflexivity|].
      destruct (isCh "]" c'); [reflexivity|].
      intros H. rewrite IHe; [reflexivity|].
      intros E. rewrite E in H. now apply H. }
    reflexivity.
  - intros s. cbn [parseElements]. intros H.
    assert (Hv : parseValue f s <> OutOfFuel).
    { intros E. rewrite E in H. now apply H. }
    rewrite (IHv s Hv).
    destruct (parseValue f s) as [v t| |]; try reflexivity.
    destruct (skipWs t) as [|c t']; [reflexivity|].
    destruct (isCh "," c); [|reflexivity].
    rewrite IHe; [reflexivity|].
    intros E. rewrite E in H. now apply H.
  - intros s. cbn [parseMembers].
    destruct (skipWs s) as [|q t0]; [reflexivity|].
    destruct (isQuote q); [|reflexivity].
    destruct (parseChars t0) as [[k t1]|]; [|reflexivity].
    destruct (skipWs t1) as [|col t2]; [reflexivity|].
    destruct (isCh ":" col); [|reflexivity].
    intros H.
    assert (Hv : parseValue f t2 <> OutOfFuel).
    { intros E. rewrite E in H. now apply H. }
    rewrite (IHv t2 Hv).
    destruct (parseValue f t2) as [v t3| |]; try reflexivity.
    destruct (skipWs t3) as [|c t4]; [reflexivity|].
    destruct (isCh "," c); [|reflexivity].
    rewrite IHm; [reflexivity|].
    intros E. rewrite E in H. now apply H.
Qed.

Lemma parseValue_mono (f f' : nat) (s : list N) (v : value) (r : list N) :
  parseValue f s = Ok v r -> f <= f' -> parseValue f' s = Ok v r.
Proof.
  intros H Hle. rewrite (proj1 (parse_fuel_mono f f' Hle)); [exact H|].
  rewrite H. discriminate.
Qed.

Lemma parseElements_mono (f f' : nat) (s : list N) (vs : list value) (r : list N) :
  parseElements f s = Ok vs r -> f <= f' -> parseElements f' s = Ok vs r.
Proof.
  intros H Hle. rewrite (proj1 (proj2 (parse_fuel_mono f f' Hle))); [exact H|].
  rewrite H. discriminate.
Qed.

Lemma parseMembers_mono (f f' : nat) (s : list N) (ms : list (jsstring * value))
    (r : list N) :
  parseMembers f s = Ok ms r -> f <= f' -> parseMembers f' s = Ok ms r.
Proof.
  intros H Hle. rewrite (proj2 (proj2 (parse_fuel_mono f f' Hle))); [exact H|].
  rewrite H. discriminate.
Qed.

(** A value that some fuel parses out of the whole text is what the
    text is read as. *)
Lemma read_of_parseValue (text : jsstring) (f : nat) (v : value) :
  parseValue f text = Ok v [] -> read text = inl v.
Proof.
  intros H. unfold read.
  assert (E : parseValue (2 * length text + 1) text = Ok v []).
  { pose proof (parseValue_fuel text) as Hf.
    pose proof (parseValue_mono f (Nat.max f (2 * length text + 1)) _ _ _ H
                  (Nat.le_max_l _ _)) as H1.
    rewrite <- H1. symmetry.
    apply (proj1 (parse_fuel_mono _ _ (Nat.le_max_r f (2 * length text + 1)))).
    exact Hf. }
  rewrite E. reflexivity.
Qed.

(** ** Digits *)

Lemma digitsVal_eq (ds : list N) : digitsVal ds = fold_left digitStep ds 0%N.
Proof. reflexivity. Qed.

Lemma digitChars_all (d : Decimal.uint) : forallb isDigit (digitChars d) = true.
Proof. induction d; simpl; auto. Qed.

Lemma digitChars_acc (d : Decimal.uint) :
  forall acc : positive,
  fold_left digitStep (digitChars d) (N.pos acc) = N.pos (Pos.of_uint_acc d acc).
Proof.
  induction d; intros acc; cbn [digitChars NilEmpty.string_of_uint list_ascii_of_string
                                 map fold_left Pos.of_uint_acc];
    try reflexivity; fold (digitChars d);
    rewrite <- IHd; f_equal; unfold digitStep; eval_ascii; lia.
Qed.

Lemma digitChars_val (d : Decimal.uint) : digitsVal (digitChars d) = N.of_uint d.
Proof.
  rewrite digitsVal_eq. unfold N.of_uint.
  induction d; cbn [digitChars NilEmpty.string_of_uint list_ascii_of_string
                     map fold_left Pos.of_uint];
    try reflexivity; fold (digitChars d);
    try (rewrite <- digitChars_acc; f_equal; unfold digitStep; eval_ascii; lia).
  rewrite <- IHd. f_equal.
Qed.

Lemma digitsOf_val (n : N) : digitsVal (digitsOf n) = n.
Proof.
  unfold digitsOf. fold (digitChars (N.to_uint n)).
  rewrite digitChars_val. apply DecimalN.Unsigned.of_to.
Qed.

Lemma digitsOf_all (n : N) : forallb isDigit (digitsOf n) = true.
Proof. apply digitChars_all. Qed.

(** The digits of a number start with a zero only for zero. *)
Lemma to_uint_zero_head (n : N) (l : Decimal.uint) :
  N.to_uint n = Decimal.D0 l -> l = Decimal.Nil.
Proof.
  intros H.
  assert (Hn : Decimal.unorm (N.to_uint n) = N.to_uint n).
  { rewrite <- DecimalN.Unsigned.to_of. now rewrite DecimalN.Unsigned.of_to. }
  rewrite H in Hn. unfold Decimal.unorm in Hn. rewrite DecimalFacts.nzhead_D0 in Hn.
  destruct (Decimal.nzhead l) eqn:E; try discriminate;
    [congruence | now apply DecimalFacts.nzhead_nonzero in E].
Qed.

Lemma digitsOf_cases (n : N) :
  digitsOf n = [48%N]
  \/ exists c t, digitsOf n = c :: t /\ isDigit c = true /\ isCh "0" c = false.
Proof.
  unfold digitsOf. destruct (N.to_uint n) as [|l|l|l|l|l|l|l|l|l|l] eqn:E;
    cbn [NilEmpty.string_of_uint list_ascii_of_string map].
  - destruct n; [discriminate|]. now apply DecimalPos.Unsigned.to_uint_nonnil in E.
  - left. apply to_uint_zero_head in E. now subst l.
  - right. eexists _, _. repeat split.
  - right. eexists _, _. repeat split.
  - right. eexists _, _. repeat split.
  - right. eexists _, _. repeat split.
  - right. eexists _, _. repeat split.
  - right. eexists _, _. repeat split.
  - right. eexists _, _. repeat split.
  - right. eexists _, _. repeat split.
  - right. eexists _, _. repeat split.
Qed.

Lemma closes_noDigit (rest : list N) : closes rest -> noDigitAhead rest.
Proof.
  destruct rest as [|c t]; simpl; auto.
  unfold isCh, isDigit. simpl.
  intros [H | [H | H]]; apply N.eqb_eq in H; subst c; reflexivity.
Qed.

Lemma takeDigits_app (ds rest : list N) :
  forallb isDigit ds = true -> noDigitAhead rest ->
  takeDigits (ds ++ rest) = (ds, rest).
Proof.
  intros Hd Hr. induction ds as [|d ds IH]; simpl.
  - destruct rest as [|c t]; simpl in *; [reflexivity|]. now rewrite Hr.
  - simpl in Hd. apply andb_prop in Hd as [Hd1 Hd2]. rewrite Hd1, IH by exact Hd2.
    reflexivity.
Qed.

Lemma digitsOf_head (n : N) : exists c t, digitsOf n = c :: t /\ isDigit c = true.
Proof.
  destruct (digitsOf_cases n) as [E | (c & t & E & Hd & _)].
  - rewrite E. now exists 48%N, [].
  - now exists c, t.
Qed.

(** A digit is none of the other code units the number grammar reads. *)
Lemma digit_not (a : ascii) (c : N) :
  isDigit c = true -> isDigit (N_of_ascii a) = false -> isCh a c = false.
Proof.
  unfold isCh. intros Hc Ha. destruct (N.eqb_spec c (N_of_ascii a)); [|reflexivity].
  subst c. congruence.
Qed.

Lemma closes_not (a : ascii) (c : N) (t : list N) :
  closes (c :: t) ->
  isCh "," (N_of_ascii a) = false -> isCh "]" (N_of_ascii a) = false ->
  isCh "}" (N_of_ascii a) = false ->
  isCh a c = false.
Proof.
  unfold isCh at 4. intros H H1 H2 H3.
  destruct (N.eqb_spec c (N_of_ascii a)); [|reflexivity]. subst c.
  simpl in H. destruct H as [H | [H | H]]; congruence.
Qed.

Lemma parseInt_digitsOf (n : N) (tail : list N) :
  noDigitAhead tail ->
  parseInt (digitsOf n ++ tail) = Some (digitsOf n, tail).
Proof.
  intros Ht. destruct (digitsOf_cases n) as [E | (c & t & E & Hd & Hz)].
  - rewrite E. reflexivity.
  - pose proof (takeDigits_app (digitsOf n) tail (digitsOf_all n) Ht) as T.
    rewrite E in *. simpl app in *. unfold parseInt. rewrite Hz, Hd. now rewrite T.
Qed.

Lemma parseExpDigits_digitsOf (neg : bool) (n : N) (rest : list N) :
  noDigitAhead rest ->
  parseExpDigits neg (digitsOf n ++ rest)
  = Some (if neg then (- Z.of_N n)%Z else Z.of_N n, rest).
Proof.
  intros Hr. unfold parseExpDigits.
  rewrite (takeDigits_app (digitsOf n) rest (digitsOf_all n) Hr).
  pose proof (digitsOf_val n) as V.
  destruct (digitsOf_head n) as (c & t & E & _).
  rewrite E in *. cbv zeta. now rewrite V.
Qed.

Lemma parseNumber_encode (neg : bool) (mant : N) (e : Z) (rest : list N) :
  closes rest ->
  parseNumber (encodeNumber neg mant e ++ rest) = Ok (Number neg mant e) rest.
Proof.
  intros Hc. pose proof (closes_noDigit rest Hc) as Hn.
  unfold encodeNumber, parseNumber.
  set (expPart := if (e =? 0)%Z then []
                  else 101%N :: (if (e <? 0)%Z then [45%N] else []) ++ digitsOf (Z.abs_N e)).
  assert (Hsign :
    match ((if neg then [45%N] else []) ++ digitsOf mant ++ expPart) ++ rest with
    | c :: r0 =>
      if isCh "-" c then (true, r0)
      else (false, ((if neg then [45%N] else []) ++ digitsOf mant ++ expPart) ++ rest)
    | [] => (false, ((if neg then [45%N] else []) ++ digitsOf mant ++ expPart) ++ rest)
    end = (neg, digitsOf mant ++ (expPart ++ rest))).
  { destruct neg; simpl.
    - now rewrite <- app_assoc.
    - destruct (digitsOf_head mant) as (c & t & E & Hd). rewrite E. simpl.
      rewrite (digit_not "-" c Hd eq_refl). now rewrite <- app_assoc. }
  rewrite Hsign. clear Hsign.
  assert (Htail : noDigitAhead (expPart ++ rest)).
  { subst expPart. destruct (e =? 0)%Z; simpl; [exact Hn | reflexivity]. }
  rewrite (parseInt_digitsOf mant _ Htail).
  assert (Hfrac : parseFrac (expPart ++ rest) = Some ([], expPart ++ rest)).
  { subst expPart. destruct (e =? 0)%Z; simpl.
    - destruct rest as [|c t]; [reflexivity|]. simpl.
      now rewrite (closes_not "." c t Hc eq_refl eq_refl eq_refl).
    - reflexivity. }
  rewrite Hfrac.
  assert (Hexp : parseExp (expPart ++ rest) = Some (e, rest)).
  { subst expPart. destruct (Z.eqb_spec e 0) as [-> | Hne]; simpl.
    - destruct rest as [|c t]; [reflexivity|]. simpl.
      rewrite (closes_not "e" c t Hc eq_refl eq_refl eq_refl).
      now rewrite (closes_not "E" c t Hc eq_refl eq_refl eq_refl).
    - destruct (Z.ltb_spec e 0) as [Hlt | Hge]; simpl.
      + rewrite (parseExpDigits_digitsOf true (Z.abs_N e) rest Hn).
        do 2 f_equal. rewrite N2Z.inj_abs_N. lia.
      + destruct (digitsOf_head (Z.abs_N e)) as (c & t & E & Hd).
        pose proof (parseExpDigits_digitsOf false (Z.abs_N e) rest Hn) as P.
        rewrite E in *. simpl app in *. cbv iota.
        rewrite (digit_not "-" c Hd eq_refl), (digit_not "+" c Hd eq_refl).
        rewrite P. do 2 f_equal. rewrite N2Z.inj_abs_N. lia. }
  rewrite Hexp. rewrite app_nil_r, digitsOf_val. simpl length.
  now rewrite Z.sub_0_r.
Qed.

(** ** Strings *)

(** A check on every code unit below a bound, by running it. *)
Lemma forall_below (P : N -> bool) (n : nat) :
  forallb P (map N.of_nat (seq 0 n)) = true ->
  forall c, (c < N.of_nat n)%N -> P c = true.
Proof.
  intros H c Hc. rewrite forallb_forall in H. apply H.
  apply in_map_iff. exists (N.to_nat c). split; [apply N2Nat.id|].
  apply in_seq. lia.
Qed.

Lemma hex4_encode (c : N) :
  (c <? 32)%N = true ->
  hex4 48 48 (hexDigit (c / 16)) (hexDigit (c mod 16)) = Some c.
Proof.
  intros H. apply N.ltb_lt in H.
  pose proof (forall_below
    (fun c => match hex4 48 48 (hexDigit (c / 16)) (hexDigit (c mod 16)) with
              | Some u => (u =? c)%N
              | None => false
              end) 32 eq_refl c H) as P.
  cbv beta in P.
  destruct (hex4 48 48 (hexDigit (c / 16)) (hexDigit (c mod 16))); [|discriminate].
  apply N.eqb_eq in P. now subst.
Qed.

Lemma parseChars_encode (s : jsstring) (rest : list N) :
  parseChars (flat_map encodeChar s ++ 34%N :: rest) = Some (s, rest).
Proof.
  induction s as [|c s IH]; [reflexivity|].
  cbn [flat_map]. rewrite <- app_assoc. unfold encodeChar at 1.
  destruct (N.eqb_spec c 34) as [-> | H34].
  { cbn [app]. cbn [parseChars]. change (isQuote 92) with false.
    change (isCh "\" 92) with true. change (isCh "u" 34) with false.
    change (escape 34) with (Some 34%N). cbv iota. now rewrite IH. }
  destruct (N.eqb_spec c 92) as [-> | H92].
  { cbn [app]. cbn [parseChars]. change (isQuote 92) with false.
    change (isCh "\" 92) with true. change (isCh "u" 92) with false.
    change (escape 92) with (Some 92%N). cbv iota. now rewrite IH. }
  destruct (c <? 32)%N eqn:H32.
  { cbn [app]. cbn [parseChars]. change (isQuote 92) with false.
    change (isCh "\" 92) with true. change (isCh "u" 117) with true. cbv iota.
    rewrite (hex4_encode c H32). now rewrite IH. }
  cbn [app]. cbn [parseChars].
  assert (Hq : isQuote c = false) by (unfold isQuote; now apply N.eqb_neq).
  assert (Hb : isCh "\" c = false) by (unfold isCh; now apply N.eqb_neq).
  now rewrite Hq, Hb, H32, IH.
Qed.

(** ** Values *)

Lemma opens_skipWs (s : list N) : opens s -> skipWs s = s.
Proof. intros (c & t & -> & Hw & _). simpl. now rewrite Hw. Qed.

Lemma opens_app (s rest : list N) : opens s -> opens (s ++ rest).
Proof. intros (c & t & -> & H). now exists c, (t ++ rest). Qed.

Lemma digit_opens (c : N) (t : list N) : isDigit c = true -> opens (c :: t).
Proof.
  intros Hd. exists c, t. split; [reflexivity|].
  unfold isWs. repeat split.
  - destruct (N.eqb_spec c 32); [subst; discriminate|].
    destruct (N.eqb_spec c 9); [subst; discriminate|].
    destruct (N.eqb_spec c 10); [subst; discriminate|].
    destruct (N.eqb_spec c 13); [subst; discriminate|]. reflexivity.
  - now apply digit_not.
  - now apply digit_not.
Qed.

Lemma encode_opens (v : value) : opens (encode v).
Proof.
  destruct v as [|b|neg mant e|s|xs|ps]; cbn [encode].
  - eexists _, _. repeat split.
  - destruct b; eexists _, _; repeat split.
  - unfold encodeNumber. destruct neg.
    + eexists _, _. repeat split.
    + destruct (digitsOf_head mant) as (c & t & E & Hd). rewrite E.
      apply (digit_opens c _ Hd).
  - eexists _, _. repeat split.
  - eexists _, _. repeat split.
  - eexists _, _. repeat split.
Qed.

(** Defining properties of distinct names one after the other gives the
    list of these properties. *)
Lemma setProp_fresh (acc : list (jsstring * value)) (k : jsstring) (v : value) :
  existsb (Js.eqb k) (map fst acc) = false -> setProp acc k v = acc ++ [(k, v)].
Proof.
  induction acc as [|[k' v'] acc IH]; simpl; [reflexivity|].
  intros H. apply orb_false_elim in H as [H1 H2]. rewrite H1. now rewrite IH.
Qed.

Lemma eqb_sym (a b : jsstring) : Js.eqb a b = Js.eqb b a.
Proof.
  unfold Js.eqb. destruct (list_eq_dec N.eq_dec a b), (list_eq_dec N.eq_dec b a);
    congruence.
Qed.

Lemma fold_setProp (ps : list (jsstring * value)) :
  forall acc,
  distinct (map fst acc ++ map fst ps) = true ->
  fold_left (fun o m => setProp o (fst m) (snd m)) ps acc = acc ++ ps.
Proof.
  induction ps as [|[k v] ps IH]; intros acc H; simpl.
  - now rewrite app_nil_r.
  - assert (Hk : existsb (Js.eqb k) (map fst acc) = false).
    { clear IH. induction acc as [|[k' v'] acc IHa]; simpl in *; [reflexivity|].
      apply andb_prop in H as [H1 H2]. rewrite (IHa H2), orb_false_r.
      apply negb_true_iff in H1. rewrite existsb_app in H1.
      apply orb_false_elim in H1 as [_ H1]. simpl in H1.
      apply orb_false_elim in H1 as [H1 _]. now rewrite eqb_sym. }
    rewrite (setProp_fresh acc k v Hk). rewrite IH.
    + now rewrite <- app_assoc.
    + rewrite map_app. simpl. now rewrite <- app_assoc.
Qed.

Lemma parseElements_encode (xs : list value) :
  xs <> [] -> Forall roundTrips xs ->
  forall rest, exists f,
    parseElements f (commaJoin (map encode xs) ++ 93%N :: rest) = Ok xs rest.
Proof.
  induction xs as [|x xs IH]; [congruence|]. intros _ Hall rest.
  apply Forall_cons_iff in Hall as [Hx Hxs].
  destruct xs as [|y ys].
  - cbn [map commaJoin].
    destruct (Hx (93%N :: rest)) as (f & Hf); [simpl; auto|].
    exists (S f). cbn [parseElements]. rewrite Hf. reflexivity.
  - change (commaJoin (map encode (x :: y :: ys)))
      with (encode x ++ 44%N :: commaJoin (map encode (y :: ys))).
    rewrite <- app_assoc. cbn [app].
    destruct (Hx (44%N :: commaJoin (map encode (y :: ys)) ++ 93%N :: rest))
      as (f1 & Hf1); [simpl; auto|].
    destruct (IH ltac:(discriminate) Hxs rest) as (f2 & Hf2).
    exists (S (Nat.max f1 f2)). cbn [parseElements].
    rewrite (parseValue_mono f1 _ _ _ _ Hf1 (Nat.le_max_l f1 f2)).
    cbn [skipWs]. change (isWs 44) with false. cbv iota.
    change (isCh "," 44) with true. cbv iota.
    now rewrite (parseElements_mono f2 _ _ _ _ Hf2 (Nat.le_max_r f1 f2)).
Qed.

Lemma parseMember_head (k : jsstring) (x : value) (tail : list N) (f : nat) :
  parseValue f (encode x ++ tail) = Ok x tail ->
  forall K : result (list (jsstring * value)),
  (match skipWs tail with
   | c :: r4 =>
     if isCh "," c then
       match parseMembers f r4 with
       | Ok ms rest => Ok ((k, x) :: ms) rest
       | SyntaxErr => SyntaxErr
       | OutOfFuel => OutOfFuel
       end
     else if isCh "}" c then Ok [(k, x)] r4
     else SyntaxErr
   | [] => SyntaxErr
   end) = K ->
  parseMembers (S f) (encodeMember (k, x) ++ tail) = K.
Proof.
  intros Hv K HK. unfold encodeMember, encodeString.
  cbn [parseMembers]. rewrite <- !app_assoc. cbn [app skipWs].
  change (isWs 34) with false. cbv iota. change (isQuote 34) with true. cbv iota.
  rewrite <- app_assoc. cbn [app]. rewrite parseChars_encode.
  cbn [skipWs]. change (isWs 58) with false. cbv iota.
  change (isCh ":" 58) with true. cbv iota.
  rewrite Hv. exact HK.
Qed.

Lemma parseMembers_encode (ps : list (jsstring * value)) :
  ps <> [] -> Forall (fun kv => roundTrips (snd kv)) ps ->
  forall rest, exists f,
    parseMembers f (commaJoin (map encodeMember ps) ++ 125%N :: rest) = Ok ps rest.
Proof.
  induction ps as [|[k x] ps IH]; [congruence|]. intros _ Hall rest.
  apply Forall_cons_iff in Hall as [Hx Hps]. simpl in Hx.
  destruct ps as [|q qs].
  - cbn [map commaJoin].
    destruct (Hx (125%N :: rest)) as (f & Hf); [simpl; auto|].
    exists (S f). apply (parseMember_head k x _ f Hf). reflexivity.
  - change (commaJoin (map encodeMember ((k, x) :: q :: qs)))
      with (encodeMember (k, x) ++ 44%N :: commaJoin (map encodeMember (q :: qs))).
    rewrite <- app_assoc. cbn [app].
    destruct (Hx (44%N :: commaJoin (map encodeMember (q :: qs)) ++ 125%N :: rest))
      as (f1 & Hf1); [simpl; auto|].
    destruct (IH ltac:(discriminate) Hps rest) as (f2 & Hf2).
    exists (S (Nat.max f1 f2)).
    apply (parseMember_head k x _ (Nat.max f1 f2)
             (parseValue_mono f1 _ _ _ _ Hf1 (Nat.le_max_l f1 f2))).
    cbn [skipWs]. change (isWs 44) with false. cbv iota.
    change (isCh "," 44) with true. cbv iota.
    now rewrite (parseMembers_mono f2 _ _ _ _ Hf2 (Nat.le_max_r f1 f2)).
Qed.

Lemma encodeNumber_head (neg : bool) (mant : N) (e : Z) :
  exists c t, encodeNumber neg mant e = c :: t /\ (c = 45%N \/ isDigit c = true).
Proof.
  unfold encodeNumber. destruct neg.
  - eexists _, _. split; [reflexivity | now left].
  - destruct (digitsOf_head mant) as (c & t & E & Hd). rewrite E.
    eexists _, _. split; [reflexivity | now right].
Qed.

Lemma parseValue_number (neg : bool) (mant : N) (e : Z) (rest : list N) :
  closes rest ->
  parseValue 1 (encodeNumber neg mant e ++ rest) = Ok (Number neg mant e) rest.
Proof.
  intros Hc. pose proof (parseNumber_encode neg mant e rest Hc) as Hp.
  pose proof (opens_skipWs _ (opens_app _ rest (encode_opens (Number neg mant e)))) as Hs.
  cbn [encode] in Hs. cbn [parseValue]. rewrite Hs.
  destruct (encodeNumber_head neg mant e) as (c & t & E & Hh).
  rewrite E in *. cbn [app] in *.
  assert (H : isCh "{" c = false /\ isCh "[" c = false /\ isQuote c = false
              /\ isCh "t" c = false /\ isCh "f" c = false /\ isCh "n" c = false).
  { destruct Hh as [-> | Hd]; [repeat split|].
    repeat split; try (now apply digit_not).
    unfold isQuote. destruct (N.eqb_spec c 34); [subst; discriminate | reflexivity]. }
  destruct H as (H1 & H2 & H3 & H4 & H5 & H6).
  now rewrite H1, H2, H3, H4, H5, H6.
Qed.

Lemma keyword_texts :
  js "null" = [110; 117; 108; 108]%N /\ js "ull" = [117; 108; 108]%N
  /\ js "true" = [116; 114; 117; 101]%N /\ js "rue" = [114; 117; 101]%N
  /\ js "false" = [102; 97; 108; 115; 101]%N /\ js "alse" = [97; 108; 115; 101]%N.
Proof. repeat split; vm_compute; reflexivity. Qed.

Lemma expect_app (w rest : list N) : expect w (w ++ rest) = Some rest.
Proof.
  induction w as [|a w IH]; [reflexivity|]. simpl. now rewrite N.eqb_refl.
Qed.

Lemma encode_roundTrips (v : value) : distinctKeys v = true -> roundTrips v.
Proof.
  destruct keyword_texts as (Kn & Kn' & Kt & Kt' & Kf & Kf').
  induction v as [|b|neg mant e|s|xs IH|ps IH] using value_induction;
    intros Hd rest Hc.
  - exists 1. cbn [encode]. rewrite Kn. cbn [app parseValue skipWs].
    change (isWs 110) with false. cbv iota.
    change (isCh "{" 110) with false. change (isCh "[" 110) with false.
    change (isQuote 110) with false. change (isCh "t" 110) with false.
    change (isCh "f" 110) with false. change (isCh "n" 110) with true. cbv iota.
    unfold keyword. rewrite Kn'.
    pose proof (expect_app [117; 108; 108]%N rest) as X. cbn [app] in X. now rewrite X.
  - exists 1. cbn [encode]. destruct b.
    + rewrite Kt. cbn [app parseValue skipWs].
      change (isWs 116) with false. cbv iota.
      change (isCh "{" 116) with false. change (isCh "[" 116) with false.
      change (isQuote 116) with false. change (isCh "t" 116) with true. cbv iota.
      unfold keyword. rewrite Kt'.
      pose proof (expect_app [114; 117; 101]%N rest) as X. cbn [app] in X. now rewrite X.
    + rewrite Kf. cbn [app parseValue skipWs].
      change (isWs 102) with false. cbv iota.
      change (isCh "{" 102) with false. change (isCh "[" 102) with false.
      change (isQuote 102) with false. change (isCh "t" 102) with false.
      change (isCh "f" 102) with true. cbv iota.
      unfold keyword. rewrite Kf'.
      pose proof (expect_app [97; 108; 115; 101]%N rest) as X. cbn [app] in X. now rewrite X.
  - exists 1. cbn [encode]. now apply parseValue_number.
  - exists 1. cbn [encode]. unfold encodeString. cbn [app].
    rewrite <- app_assoc. cbn [app parseValue skipWs].
    change (isWs 34) with false. cbv iota.
    change (isCh "{" 34) with false. change (isCh "[" 34) with false.
    change (isQuote 34) with true. cbv iota.
    now rewrite parseChars_encode.
  - cbn [distinctKeys] in Hd.
    assert (Hall : Forall roundTrips xs).
    { rewrite forallb_forall in Hd. rewrite Forall_forall in *.
      intros x Hx. apply (IH x Hx). now apply Hd. }
    cbn [encode]. cbn [app]. rewrite <- app_assoc. cbn [app].
    destruct xs as [|x xs'].
    + exists 1. reflexivity.
    + destruct (parseElements_encode (x :: xs') ltac:(discriminate) Hall rest)
        as (f & Hf).
      exists (S f). cbn [parseValue skipWs].
      change (isWs 91) with false. cbv iota.
      change (isCh "{" 91) with false. change (isCh "[" 91) with true. cbv iota.
      assert (Ho : opens (commaJoin (map encode (x :: xs')) ++ 93%N :: rest)).
      { apply opens_app. cbn [map commaJoin].
        destruct (map encode xs'); [|apply opens_app]; apply encode_opens. }
      rewrite (opens_skipWs _ Ho).
      destruct Ho as (c & t & E & _ & Hb & _). rewrite E in *.
      now rewrite Hb, Hf.
  - cbn [distinctKeys] in Hd. apply andb_prop in Hd as [Hk Hd].
    assert (Hall : Forall (fun kv => roundTrips (snd kv)) ps).
    { rewrite forallb_forall in Hd. rewrite Forall_forall in *.
      intros [k x] Hx. apply (IH (k, x) Hx). now apply (Hd (k, x)). }
    cbn [encode]. fold encodeMember. cbn [app]. rewrite <- app_assoc. cbn [app].
    destruct ps as [|[k x] ps'].
    + exists 1. reflexivity.
    + destruct (parseMembers_encode ((k, x) :: ps') ltac:(discriminate) Hall rest)
        as (f & Hf).
      exists (S f). cbn [parseValue skipWs].
      change (isWs 123) with false. cbv iota.
      change (isCh "{" 123) with true. cbv iota.
      assert (Ho : exists t, commaJoin (map encodeMember ((k, x) :: ps')) ++ 125%N :: rest
                             = 34%N :: t).
      { destruct ps' as [|q qs]; cbn [map commaJoin]; unfold encodeMember at 1;
          unfold encodeString; cbn [app]; eexists; reflexivity. }
      destruct Ho as (t & E). rewrite E in *. cbn [skipWs].
      change (isWs 34) with false. cbv iota. change (isCh "}" 34) with false. cbv iota.
      rewrite Hf. unfold objectOf. now rewrite (fold_setProp ((k, x) :: ps') []).
Qed.

(** The compact text of [v] is read as [v]. *)
Lemma read_encode (v : value) : distinctKeys v = true -> read (encode v) = inl v.
Proof.
  intros Hd. destruct (encode_roundTrips v Hd [] I) as (f & Hf).
  rewrite app_nil_r in Hf. now apply (read_of_parseValue _ f).
Qed.

End JSONFacts.

(* ================================================================== *)
(** * Properties of the numbers *)
(* ================================================================== *)

Module DoubleFacts.
Import Double.
Local Open Scope Z_scope.

Lemma num_pos (e : Z) : 0 < num e.
Proof. unfold num. apply Z.pow_pos_nonneg; lia. Qed.

Lemma den_pos (e : Z) : 0 < den e.
Proof. unfold den. apply Z.pow_pos_nonneg; lia. Qed.

(** [2^a / 2^b] is [2^(a-b)]. *)
Lemma pow_split (a b : Z) : 0 <= a -> 0 <= b -> 2 ^ a * den (a - b) = 2 ^ b * num (a - b).
Proof.
  intros Ha Hb. unfold num, den. destruct (Z.le_ge_cases b a) as [H | H].
  - replace (Z.max 0 (- (a - b))) with 0 by lia.
    replace (Z.max 0 (a - b)) with (a - b) by lia.
    rewrite Z.pow_0_r, Z.mul_1_r, <- Z.pow_add_r by lia. f_equal; lia.
  - replace (Z.max 0 (- (a - b))) with (b - a) by lia.
    replace (Z.max 0 (a - b)) with 0 by lia.
    rewrite Z.pow_0_r, Z.mul_1_r, <- Z.pow_add_r by lia. f_equal; lia.
Qed.

(** [2^(e+k)] is [2^k * 2^e]. *)
Lemma num_den_shift (e k : Z) : 0 <= k -> num (e + k) * den e = 2 ^ k * num e * den (e + k).
Proof.
  intros Hk. unfold num, den.
  destruct (Z.le_ge_cases 0 e) as [H | H].
  - replace (Z.max 0 (e + k)) with (e + k) by lia.
    replace (Z.max 0 (- e)) with 0 by lia.
    replace (Z.max 0 e) with e by lia.
    replace (Z.max 0 (- (e + k))) with 0 by lia.
    rewrite Z.pow_0_r, !Z.mul_1_r, <- Z.pow_add_r by lia. f_equal; lia.
  - destruct (Z.le_ge_cases 0 (e + k)) as [H' | H'].
    + replace (Z.max 0 (e + k)) with (e + k) by lia.
      replace (Z.max 0 (- e)) with (- e) by lia.
      replace (Z.max 0 e) with 0 by lia.
      replace (Z.max 0 (- (e + k))) with 0 by lia.
      rewrite Z.pow_0_r, !Z.mul_1_r, <- Z.pow_add_r by lia. f_equal; lia.
    + replace (Z.max 0 (e + k)) with 0 by lia.
      replace (Z.max 0 (- e)) with (- e) by lia.
      replace (Z.max 0 e) with 0 by lia.
      replace (Z.max 0 (- (e + k))) with (- (e + k)) by lia.
      rewrite Z.pow_0_r, Z.mul_1_l, Z.mul_1_r, <- Z.pow_add_r by lia. f_equal; lia.
Qed.

Lemma below_mono (p q e k : Z) :
  0 < q -> 0 <= k -> below p q e -> below p q (e + k).
Proof.
  unfold below. intros Hq Hk H.
  pose proof (num_pos e). pose proof (den_pos e).
  pose proof (num_pos (e + k)). pose proof (den_pos (e + k)).
  pose proof (num_den_shift e k Hk) as E.
  assert (1 <= 2 ^ k) by (apply (Z.pow_le_mono_r 2 0 k); lia).
  apply (Z.mul_lt_mono_pos_r (den e)); [lia|].
  apply Z.lt_le_trans with (q * num e * den (e + k)).
  - replace (p * den (e + k) * den e) with (p * den e * den (e + k)) by ring.
    apply Z.mul_lt_mono_pos_r; lia.
  - replace (q * num (e + k) * den e) with (q * (num (e + k) * den e)) by ring.
    rewrite E. replace (q * (2 ^ k * num e * den (e + k)))
      with (2 ^ k * (q * num e * den (e + k))) by ring.
    assert (0 <= q * num e * den (e + k)) by (apply Z.mul_nonneg_nonneg; [apply Z.mul_nonneg_nonneg|]; lia).
    nia.
Qed.

Lemma atLeast_below (p q e e' : Z) :
  0 < q -> atLeast p q e -> below p q e' -> e < e'.
Proof.
  intros Hq Ha Hb. destruct (Z.lt_ge_cases e e') as [H | H]; [exact H|].
  exfalso. apply (below_mono p q e' (e - e') Hq) in Hb; [|lia].
  replace (e' + (e - e')) with e in Hb by lia.
  unfold below, atLeast in *. lia.
Qed.

Lemma ilog2_spec (p q : Z) :
  0 < p -> 0 < q -> atLeast p q (ilog2 p q) /\ below p q (ilog2 p q + 1).
Proof.
  intros Hp Hq. unfold ilog2.
  pose proof (Z.log2_spec p Hp) as [Hp1 Hp2].
  pose proof (Z.log2_spec q Hq) as [Hq1 Hq2].
  pose proof (Z.log2_nonneg p). pose proof (Z.log2_nonneg q).
  set (lp := Z.log2 p) in *. set (lq := Z.log2 q) in *.
  replace (Z.succ lp) with (lp + 1) in * by lia.
  replace (Z.succ lq) with (lq + 1) in * by lia.
  destruct (p * den (lp - lq) <? q * num (lp - lq)) eqn:E.
  - apply Z.ltb_lt in E. replace (lp - lq - 1 + 1) with (lp - lq) by lia.
    split; [|exact E].
    unfold atLeast.
    pose proof (pow_split lp (lq + 1)) as S. replace (lp - (lq + 1)) with (lp - lq - 1) in S by lia.
    pose proof (num_pos (lp - lq - 1)). pose proof (den_pos (lp - lq - 1)).
    apply Z.le_trans with (2 ^ (lq + 1) * num (lp - lq - 1)); [nia|].
    rewrite <- S by lia. nia.
  - apply Z.ltb_ge in E. split; [exact E|].
    unfold below.
    pose proof (pow_split (lp + 1) lq) as S. replace (lp + 1 - lq) with (lp - lq + 1) in S by lia.
    pose proof (num_pos (lp - lq + 1)). pose proof (den_pos (lp - lq + 1)).
    apply Z.lt_le_trans with (2 ^ (lp + 1) * den (lp - lq + 1)); [nia|].
    rewrite S by lia. nia.
Qed.

Lemma roundDiv_exact (m q : Z) : 0 < q -> roundDiv (m * q) q = m.
Proof.
  intros Hq. unfold roundDiv. rewrite Z.div_mul, Z.mod_mul by lia.
  now replace (2 * 0 ?= q) with Lt by (symmetry; apply Z.compare_lt_iff; lia).
Qed.

Lemma roundDiv_bounds (p q lo hi : Z) :
  0 < q -> lo * q <= p -> p < hi * q -> lo <= roundDiv p q <= hi.
Proof.
  intros Hq Hlo Hhi. unfold roundDiv.
  assert (lo <= p / q) by (apply Z.div_le_lower_bound; lia).
  assert (p / q < hi) by (apply Z.div_lt_upper_bound; lia).
  destruct (2 * (p mod q) ?= q); [destruct (Z.even (p / q))| |]; lia.
Qed.

Lemma atLeast_shift (p q e k : Z) :
  0 <= k -> atLeast p q (e + k) <-> 2 ^ k * (q * num e) <= p * den e.
Proof.
  intros Hk. unfold atLeast.
  pose proof (den_pos e). pose proof (den_pos (e + k)).
  pose proof (num_den_shift e k Hk) as E.
  rewrite (Z.mul_le_mono_pos_r _ _ (den e)) by lia.
  rewrite (Z.mul_le_mono_pos_r (2 ^ k * (q * num e)) _ (den (e + k))) by lia.
  replace (q * num (e + k) * den e) with (q * (num (e + k) * den e)) by ring.
  rewrite E.
  replace (q * (2 ^ k * num e * den (e + k))) with (2 ^ k * (q * num e) * den (e + k)) by ring.
  replace (p * den (e + k) * den e) with (p * den e * den (e + k)) by ring.
  reflexivity.
Qed.

Lemma below_shift (p q e k : Z) :
  0 <= k -> below p q (e + k) <-> p * den e < 2 ^ k * (q * num e).
Proof.
  intros Hk. unfold below.
  pose proof (den_pos e). pose proof (den_pos (e + k)).
  pose proof (num_den_shift e k Hk) as E.
  rewrite (Z.mul_lt_mono_pos_r (den e)) by lia.
  rewrite (Z.mul_lt_mono_pos_r (den (e + k)) (p * den e)) by lia.
  replace (q * num (e + k) * den e) with (q * (num (e + k) * den e)) by ring.
  rewrite E.
  replace (q * (2 ^ k * num e * den (e + k))) with (2 ^ k * (q * num e) * den (e + k)) by ring.
  replace (p * den (e + k) * den e) with (p * den e * den (e + k)) by ring.
  reflexivity.
Qed.

Lemma canonical_Finite (neg : bool) (m : N) (e : Z) :
  canonical (Finite neg m e) = true <->
  Z.of_N m < 2 ^ 53 /\ emin <= e <= emax /\ (2 ^ 52 <= Z.of_N m \/ e = emin).
Proof.
  unfold canonical.
  rewrite !andb_true_iff, orb_true_iff, Z.ltb_lt, !Z.leb_le, Z.eqb_eq. tauto.
Qed.

(** Every number that [ofFraction] gives is in canonical form. *)
Lemma ofFraction_canonical (neg : bool) (p q : Z) :
  0 <= p -> 0 < q -> canonical (ofFraction neg p q) = true.
Proof.
  intros Hp Hq. unfold ofFraction.
  destruct (p =? 0) eqn:E0; [reflexivity|]. apply Z.eqb_neq in E0.
  destruct (ilog2_spec p q) as [Ha Hb]; [lia | lia |].
  set (l := ilog2 p q) in *. cbv zeta.
  set (e := Z.max emin (l - 52)).
  pose proof (num_pos e). pose proof (den_pos e).
  assert (He : emin <= e) by (unfold e; lia).
  assert (Hup : p * den e < 2 ^ 53 * (q * num e)).
  { apply below_shift; [lia|].
    replace (e + 53) with (l + 1 + (e - l + 52)) by lia.
    apply below_mono; [lia | unfold e; lia | exact Hb]. }
  assert (Hn : 0 <= roundDiv (p * den e) (q * num e) <= 2 ^ 53).
  { apply roundDiv_bounds; [nia | nia | lia]. }
  assert (Hlow : e <> emin -> 2 ^ 52 <= roundDiv (p * den e) (q * num e)).
  { intros Hne. assert (El : l = e + 52) by (unfold e in *; lia).
    apply (roundDiv_bounds _ _ (2 ^ 52) (2 ^ 53)); [nia | | lia].
    apply atLeast_shift; [lia|]. now rewrite <- El. }
  set (n := roundDiv (p * den e) (q * num e)) in *.
  destruct (n =? 2 ^ 53) eqn:En.
  - destruct (emax <? e + 1) eqn:Ee; [reflexivity|]. apply Z.ltb_ge in Ee.
    apply canonical_Finite. rewrite Z2N.id by lia. unfold emin, emax in *. lia.
  - apply Z.eqb_neq in En.
    destruct (emax <? e) eqn:Ee; [reflexivity|]. apply Z.ltb_ge in Ee.
    apply canonical_Finite. rewrite Z2N.id by lia.
    destruct (Z.eq_dec e emin) as [Eq | Ne]; [lia|]. specialize (Hlow Ne). lia.
Qed.

(** A fraction that is a number of canonical form is given back as that
    number. *)
Lemma ofFraction_exact (neg : bool) (p q : Z) (m : N) (e : Z) :
  0 < q -> canonical (Finite neg m e) = true ->
  p * den e = Z.of_N m * (q * num e) ->
  ofFraction neg p q = Finite neg m e.
Proof.
  intros Hq Hc E. apply canonical_Finite in Hc as (Hm & He & Hn).
  pose proof (num_pos e). pose proof (den_pos e).
  unfold ofFraction. destruct (p =? 0) eqn:E0.
  - apply Z.eqb_eq in E0. subst p.
    assert (Z.of_N m = 0) by nia.
    assert (m = 0%N) by lia. subst m. simpl in Hn.
    destruct Hn as [Hn | ->]; [lia | reflexivity].
  - apply Z.eqb_neq in E0.
    assert (Hp : 0 < p) by nia.
    assert (Hm0 : 0 < Z.of_N m) by nia.
    destruct (ilog2_spec p q Hp Hq) as [Ha Hb].
    set (l := ilog2 p q) in *. cbv zeta.
    assert (Hlt : below p q (e + 53)) by (apply below_shift; [lia | nia]).
    pose proof (atLeast_below p q l (e + 53) Hq Ha Hlt) as Hl.
    assert (El : Z.max emin (l - 52) = e).
    { destruct Hn as [Hn | Hn]; [|lia].
      assert (Hge : atLeast p q (e + 52)) by (apply atLeast_shift; [lia | nia]).
      pose proof (atLeast_below p q (e + 52) (l + 1) Hq Hge Hb). lia. }
    rewrite El, E, roundDiv_exact by nia.
    replace (Z.of_N m =? 2 ^ 53) with false by (symmetry; apply Z.eqb_neq; lia).
    replace (emax <? e) with false by (symmetry; apply Z.ltb_ge; lia).
    now rewrite N2Z.id.
Qed.

Lemma roundDiv_near (p q : Z) :
  0 < q -> 2 * Z.abs (p - roundDiv p q * q) <= q.
Proof.
  intros Hq. unfold roundDiv.
  assert (Hq0 : q <> 0) by lia.
  pose proof (Z.div_mod p q Hq0) as E.
  pose proof (Z.mod_pos_bound p q Hq) as B.
  set (d := p / q) in *. set (r := p mod q) in *. clearbody d r.
  assert (E1 : p - d * q = r) by (rewrite E; ring).
  assert (E2 : p - (d + 1) * q = r - q) by (rewrite E; ring).
  destruct (Z.compare_spec (2 * r) q) as [C | C | C].
  - destruct (Z.even d); [rewrite E1 | rewrite E2]; lia.
  - rewrite E1. lia.
  - rewrite E2. lia.
Qed.

(** What [ofFraction] gives is as near to the fraction as a number can
    be. *)
Lemma ofFraction_near (neg : bool) (p q : Z) :
  0 <= p -> 0 < q -> nearFraction neg p q (ofFraction neg p q).
Proof.
  intros Hp Hq. unfold ofFraction.
  destruct (p =? 0) eqn:E0.
  { apply Z.eqb_eq in E0. subst p. cbn [nearFraction]. split; [reflexivity|].
    pose proof (num_pos emin). cbn [Z.of_N]. rewrite !Z.mul_0_l. cbn [Z.sub Z.opp Z.add Z.abs]. nia. }
  apply Z.eqb_neq in E0.
  destruct (ilog2_spec p q) as [Ha Hb]; [lia | lia |].
  set (l := ilog2 p q) in *. cbv zeta.
  set (e := Z.max emin (l - 52)).
  pose proof (num_pos e) as Hnum. pose proof (den_pos e) as Hden.
  assert (HX : 0 < q * num e) by nia.
  pose proof (roundDiv_near (p * den e) (q * num e) HX) as Hnear.
  assert (Hn0 : 0 <= roundDiv (p * den e) (q * num e)).
  { apply (roundDiv_bounds _ _ 0 (p * den e + 1)); [lia | nia | nia]. }
  set (n := roundDiv (p * den e) (q * num e)) in *.
  assert (Hbig : forall k, 972 <= k -> atLeast p q (k + 52) -> (2 ^ 54 - 1) * (q * 2 ^ 970) <= p).
  { intros k Hk Hat. unfold atLeast, num, den in Hat.
    replace (Z.max 0 (k + 52)) with (k + 52) in Hat by lia.
    replace (Z.max 0 (- (k + 52))) with 0 in Hat by lia.
    rewrite Z.pow_0_r, Z.mul_1_r in Hat.
    assert (2 ^ 1024 <= 2 ^ (k + 52)) by (apply Z.pow_le_mono_r; lia).
    assert (E1024 : 2 ^ 1024 = 2 ^ 54 * 2 ^ 970) by (rewrite <- Z.pow_add_r by lia; reflexivity).
    assert (0 < 2 ^ 970) by (apply Z.pow_pos_nonneg; lia).
    assert (0 < 2 ^ 54) by (apply Z.pow_pos_nonneg; lia).
    nia. }
  destruct (n =? 2 ^ 53) eqn:En.
  - apply Z.eqb_eq in En.
    destruct (Z.ltb_spec emax (e + 1)) as [Ee | Ee].
    + cbn [nearFraction]. split; [reflexivity|].
      destruct (Z.eq_dec e 971) as [E971 | Ne].
      * rewrite En in Hnear. rewrite E971 in Hnear. unfold num, den in Hnear.
        replace (Z.max 0 971) with 971 in Hnear by lia.
        replace (Z.max 0 (- 971)) with 0 in Hnear by lia.
        rewrite Z.pow_0_r, Z.mul_1_r in Hnear.
        assert (E971' : 2 ^ 971 = 2 * 2 ^ 970) by (rewrite <- Z.pow_succ_r by lia; reflexivity).
        assert (E54 : 2 ^ 54 = 2 * 2 ^ 53) by (rewrite <- Z.pow_succ_r by lia; reflexivity).
        assert (0 < 2 ^ 970) by (apply Z.pow_pos_nonneg; lia).
        rewrite E971' in Hnear. rewrite E54.
        replace (q * (2 * 2 ^ 970)) with (2 * (q * 2 ^ 970)) in Hnear by ring.
        replace (2 ^ 53 * (2 * (q * 2 ^ 970))) with (2 * (2 ^ 53 * (q * 2 ^ 970)))
          in Hnear by ring.
        replace ((2 * 2 ^ 53 - 1) * (q * 2 ^ 970))
          with (2 * (2 ^ 53 * (q * 2 ^ 970)) - q * 2 ^ 970) by ring.
        set (Y := q * 2 ^ 970) in *. set (AY := 2 ^ 53 * Y) in *.
        clearbody AY Y. lia.
      * apply (Hbig (l - 52)); [unfold e, emax, emin in *; lia|].
        now replace (l - 52 + 52) with l by lia.
    + cbn [nearFraction]. split; [reflexivity|].
      rewrite Z2N.id by (apply Z.pow_nonneg; lia).
      pose proof (num_pos (e + 1)). pose proof (den_pos (e + 1)).
      pose proof (num_den_shift e 1 (Z.le_0_1)) as Sh. rewrite Z.pow_1_r in Sh.
      rewrite En in Hnear.
      assert (E53 : 2 ^ 53 = 2 * 2 ^ 52) by (rewrite <- Z.pow_succ_r by lia; reflexivity).
      apply (Z.mul_le_mono_pos_r _ _ (den e)); [lia|].
      replace (q * num (e + 1) * den e) with (2 * (q * num e) * den (e + 1)) by nia.
      rewrite <- Z.mul_assoc, <- (Z.abs_eq (den e)) at 1 by lia.
      rewrite <- Z.abs_mul.
      replace ((p * den (e + 1) - 2 ^ 52 * (q * num (e + 1))) * den e)
        with ((p * den e - 2 ^ 53 * (q * num e)) * den (e + 1)) by nia.
      rewrite Z.abs_mul, (Z.abs_eq (den (e + 1))) by lia. nia.
  - apply Z.eqb_neq in En.
    destruct (Z.ltb_spec emax e) as [Ee | Ee].
    + cbn [nearFraction]. split; [reflexivity|].
      apply (Hbig (l - 52)); [unfold e, emax, emin in *; lia|].
      now replace (l - 52 + 52) with l by lia.
    + cbn [nearFraction]. split; [reflexivity|]. now rewrite Z2N.id by lia.
Qed.

Lemma ofDecimal_near (neg : bool) (mant : N) (exp10 : Z) :
  near neg mant exp10 (ofDecimal neg mant exp10).
Proof.
  unfold near, ofDecimal. apply ofFraction_near.
  - apply Z.mul_nonneg_nonneg; [lia | apply Z.pow_nonneg; lia].
  - apply Z.pow_pos_nonneg; lia.
Qed.

Lemma ofDecimal_canonical (neg : bool) (mant : N) (exp10 : Z) :
  canonical (ofDecimal neg mant exp10) = true.
Proof.
  unfold ofDecimal. apply ofFraction_canonical.
  - apply Z.mul_nonneg_nonneg; [lia | apply Z.pow_nonneg; lia].
  - apply Z.pow_pos_nonneg; lia.
Qed.

Lemma exactly_Finite (neg s : bool) (mant m : N) (exp10 e : Z) :
  exactly neg mant exp10 (Finite s m e) <->
  signed s (Z.of_N m * num e) * 10 ^ Z.max 0 (- exp10)
  = signed neg (Z.of_N mant * 10 ^ Z.max 0 exp10) * den e.
Proof.
  unfold exactly, toQ, decimalQ, Qeq. cbn [Qnum Qden].
  rewrite !Z2Pos.id; [reflexivity | apply den_pos | apply Z.pow_pos_nonneg; lia].
Qed.

(** [JSON.parse] gives a number literal back exactly if and only if the
    literal is a binary64 value. *)
Lemma ofDecimal_exactly (neg : bool) (mant : N) (exp10 : Z) :
  exactly neg mant exp10 (ofDecimal neg mant exp10) <-> representable neg mant exp10.
Proof.
  split.
  - intros H. exists (ofDecimal neg mant exp10). split; [apply ofDecimal_canonical | exact H].
  - intros (x & Hc & Hx). destruct x as [| |s m e]; try contradiction.
    pose proof Hx as Hx'. apply exactly_Finite in Hx'.
    set (p := Z.of_N mant * 10 ^ Z.max 0 exp10) in *.
    set (q := 10 ^ Z.max 0 (- exp10)) in *.
    assert (Hq : 0 < q) by (apply Z.pow_pos_nonneg; lia).
    assert (Hp : 0 <= p) by (apply Z.mul_nonneg_nonneg; [lia | apply Z.pow_nonneg; lia]).
    pose proof (num_pos e). pose proof (den_pos e).
    destruct (N.eq_dec m 0) as [-> | Hm].
    + assert (P0 : p = 0) by (destruct s, neg; simpl in Hx'; nia).
      unfold ofDecimal. fold p q. unfold ofFraction.
      rewrite (proj2 (Z.eqb_eq p 0) P0).
      apply exactly_Finite. fold p q. rewrite P0.
      destruct neg; reflexivity.
    + assert (Hm0 : 0 < Z.of_N m * num e) by (apply Z.mul_pos_pos; lia).
      assert (s = neg /\ p * den e = Z.of_N m * (q * num e)) as [-> E].
      { destruct s, neg; simpl in Hx'; split; try reflexivity; nia. }
      unfold ofDecimal. fold p q.
      rewrite (ofFraction_exact neg p q m e Hq Hc E). exact Hx.
Qed.

(** Every integer of magnitude below [2^53] is a binary64 value. *)
Lemma safeInteger_representable (neg : bool) (n : N) :
  Z.of_N n < 2 ^ 53 -> representable neg n 0.
Proof.
  intros Hn. destruct (N.eq_dec n 0) as [-> | H0].
  - exists (Finite neg 0 emin). split; [reflexivity|].
    apply exactly_Finite. destruct neg; reflexivity.
  - assert (Hpos : 0 < Z.of_N n) by lia.
    pose proof (Z.log2_spec _ Hpos) as [Hl1 Hl2].
    pose proof (Z.log2_nonneg (Z.of_N n)) as Hl0.
    set (k := Z.log2 (Z.of_N n)) in *.
    assert (Hk : k <= 52).
    { destruct (Z.le_gt_cases k 52) as [L | G]; [exact L|]. exfalso.
      assert (2 ^ 53 <= 2 ^ k) by (apply Z.pow_le_mono_r; lia). lia. }
    exists (Finite neg (Z.to_N (Z.of_N n * 2 ^ (52 - k))) (k - 52)).
    assert (Hs : 0 < 2 ^ (52 - k)) by (apply Z.pow_pos_nonneg; lia).
    assert (E52 : 2 ^ 52 = 2 ^ k * 2 ^ (52 - k))
      by (rewrite <- Z.pow_add_r by lia; f_equal; lia).
    assert (E53 : 2 ^ 53 = 2 ^ Z.succ k * 2 ^ (52 - k))
      by (rewrite <- Z.pow_add_r by lia; f_equal; lia).
    split.
    + apply canonical_Finite. rewrite Z2N.id by nia.
      split; [rewrite E53; nia|]. split; [unfold emin, emax; lia|].
      left. rewrite E52. nia.
    + apply exactly_Finite. rewrite Z2N.id by nia. unfold num, den.
      replace (Z.max 0 (k - 52)) with 0 by lia.
      replace (Z.max 0 (- (k - 52))) with (52 - k) by lia.
      replace (Z.max 0 (- 0)) with 0 by lia. replace (Z.max 0 0) with 0 by lia.
      rewrite !Z.pow_0_r. destruct neg; simpl; ring.
Qed.

(** The rounding on some literals: [0.1]; [2^53 + 1], a tie that goes
    down to the even mantissa, and [2^53 + 3], a tie that goes up;
    [1e400] and [-1e-400]; the smallest number and a literal below half of
    it; the largest number and a literal beyond it. [1e2] and [100] are
    the same number. *)
Lemma ofDecimal_samples :
  ofDecimal false 1 (-1) = Finite false 7205759403792794 (-56)
  /\ ofDecimal false 9007199254740993 0 = Finite false 4503599627370496 1
  /\ ofDecimal false 9007199254740995 0 = Finite false 4503599627370498 1
  /\ ofDecimal false 1 400 = Infinity false
  /\ ofDecimal true 1 (-400) = Finite true 0 (-1074)
  /\ ofDecimal false 5 (-324) = Finite false 1 (-1074)
  /\ ofDecimal false 24703282292062327 (-340) = Finite false 0 (-1074)
  /\ ofDecimal false 17976931348623157 292 = Finite false 9007199254740991 971
  /\ ofDecimal false 17976931348623159 292 = Infinity false
  /\ ofDecimal false 1 2 = ofDecimal false 100 0.
Proof. vm_compute. repeat split. Qed.

End DoubleFacts.

(* ================================================================== *)
(** * What [JSON.parse] keeps of a text *)
(* ================================================================== *)

Section Evaluate.

Lemma parse_read (text : jsstring) (t : JSONText.value) :
  JSONText.read text = inl t -> JSON.parse text = inl (JSON.evaluate t).
Proof. intros H. unfold JSON.parse. now rewrite H. Qed.

(** The value of [t] agrees with [t] as far as the numbers of [t]
    agree with their Number values. *)
Lemma agree_evaluate (R : bool -> N -> Z -> Double.number -> Prop) (t : JSONText.value) :
  agree R t (JSON.evaluate t)
  <-> allNumbers (fun neg mant exp10 => R neg mant exp10 (Double.ofDecimal neg mant exp10)) t.
Proof.
  induction t as [|b|neg mant e|s|xs IH|ps IH] using JSONText.value_induction;
    cbn [agree JSON.evaluate allNumbers]; try tauto.
  - induction IH as [|x r Hx _ IHr]; cbn [map]; [tauto|]. now rewrite Hx, IHr.
  - induction IH as [|[k x] r Hx _ IHr]; cbn [map]; [tauto|].
    cbn [snd] in Hx. rewrite Hx, IHr. tauto.
Qed.

Lemma allNumbers_iff (P Q : bool -> N -> Z -> Prop) (t : JSONText.value) :
  (forall neg mant exp10, P neg mant exp10 <-> Q neg mant exp10) ->
  allNumbers P t <-> allNumbers Q t.
Proof.
  intros H.
  induction t as [|b|neg mant e|s|xs IH|ps IH] using JSONText.value_induction;
    cbn [allNumbers]; try tauto.
  - apply H.
  - induction IH as [|x r Hx _ IHr]; [tauto|]. now rewrite Hx, IHr.
  - induction IH as [|[k x] r Hx _ IHr]; [tauto|]. cbn [snd] in Hx. now rewrite Hx, IHr.
Qed.

Lemma allNumbers_impl (P Q : bool -> N -> Z -> Prop) (t : JSONText.value) :
  (forall neg mant exp10, P neg mant exp10 -> Q neg mant exp10) ->
  allNumbers P t -> allNumbers Q t.
Proof.
  intros H.
  induction t as [|b|neg mant e|s|xs IH|ps IH] using JSONText.value_induction;
    cbn [allNumbers]; try tauto.
  - apply H.
  - induction IH as [|x r Hx _ IHr]; tauto.
  - induction IH as [|[k x] r Hx _ IHr]; [tauto|]. cbn [snd] in Hx. tauto.
Qed.

Lemma allNumbers_all (P : bool -> N -> Z -> Prop) (t : JSONText.value) :
  (forall neg mant exp10, P neg mant exp10) -> allNumbers P t.
Proof.
  intros H. apply (allNumbers_impl (fun _ _ _ => True)); [auto|].
  induction t as [|b|neg mant e|s|xs IH|ps IH] using JSONText.value_induction;
    cbn [allNumbers]; auto.
  - induction IH as [|x r Hx _ IHr]; auto.
  - induction IH as [|[k x] r Hx _ IHr]; auto.
Qed.

(** [JSON.parse] gives numbers in canonical form only. *)
Lemma evaluate_canonical (t : JSONText.value) : canonicalValue (JSON.evaluate t) = true.
Proof.
  induction t as [|b|neg mant e|s|xs IH|ps IH] using JSONText.value_induction;
    cbn [canonicalValue JSON.evaluate]; try reflexivity.
  - apply DoubleFacts.ofDecimal_canonical.
  - induction IH as [|x r Hx _ IHr]; cbn [map forallb]; [reflexivity|].
    now rewrite Hx, IHr.
  - induction IH as [|[k x] r Hx _ IHr]; cbn [map forallb]; [reflexivity|].
    cbn [snd] in Hx. now rewrite Hx, IHr.
Qed.

(** Every number is as near to its literal as a number can be. *)
Lemma agree_near (t : JSONText.value) : agree Double.near t (JSON.evaluate t).
Proof.
  apply agree_evaluate. apply allNumbers_all. apply DoubleFacts.ofDecimal_near.
Qed.

(** The numbers are kept exactly if and only if they are binary64
    values. *)
Lemma agree_exactly (t : JSONText.value) :
  agree Double.exactly t (JSON.evaluate t) <-> allNumbers Double.representable t.
Proof.
  rewrite agree_evaluate. apply allNumbers_iff.
  intros neg mant e. apply DoubleFacts.ofDecimal_exactly.
Qed.

End Evaluate.

(* ================================================================== *)
(** * Properties of strings *)
(* ================================================================== *)

Section Trim.

Lemma eqb_eq (a b : jsstring) : Js.eqb a b = true <-> a = b.
Proof.
  unfold Js.eqb. destruct (list_eq_dec N.eq_dec a b); split; congruence.
Qed.

Lemma trimStart_split (s : jsstring) :
  exists l, s = l ++ trimStart s /\ blank l = true.
Proof.
  induction s as [|c r IH]; simpl.
  - exists []. auto.
  - destruct (isWhiteSpace c) eqn:Hc.
    + destruct IH as (l & Hl & Hb). exists (c :: l). simpl.
      rewrite Hc, Hb. split; [congruence | reflexivity].
    + exists []. auto.
Qed.

Lemma trimStart_head (s : jsstring) : startsBlank (trimStart s) = false.
Proof.
  induction s as [|c r IH]; simpl; auto.
  destruct (isWhiteSpace c) eqn:Hc; simpl; auto.
Qed.

Lemma trimStart_fix (s : jsstring) : startsBlank s = false -> trimStart s = s.
Proof. destruct s as [|c r]; simpl; auto. intros ->. reflexivity. Qed.

Lemma trimStart_nil_iff (s : jsstring) : trimStart s = [] <-> blank s = true.
Proof.
  induction s as [|c r IH]; simpl.
  - tauto.
  - destruct (isWhiteSpace c); simpl; [exact IH | split; discriminate].
Qed.

Lemma blank_app (a b : jsstring) : blank (a ++ b) = blank a && blank b.
Proof. apply forallb_app. Qed.

Lemma blank_rev (a : jsstring) : blank (rev a) = blank a.
Proof.
  induction a as [|c r IH]; simpl; auto.
  rewrite blank_app, IH. simpl. rewrite andb_true_r. apply andb_comm.
Qed.

(** [trim] removes a run of white space at each end and nothing else, and
    what is left neither begins nor ends with white space. *)
Lemma trim_split (s : jsstring) :
  exists l r, s = l ++ trim s ++ r /\ blank l = true /\ blank r = true
    /\ startsBlank (trim s) = false /\ startsBlank (rev (trim s)) = false.
Proof.
  destruct (trimStart_split s) as (l & Hl & Hbl).
  destruct (trimStart_split (rev (trimStart s))) as (l' & Hl' & Hbl').
  assert (Hu : trimStart s = trim s ++ rev l').
  { unfold trim, trimEnd. rewrite <- rev_app_distr, <- Hl'. now rewrite rev_involutive. }
  exists l, (rev l'). repeat split.
  - rewrite <- Hu. exact Hl.
  - exact Hbl.
  - now rewrite blank_rev.
  - pose proof (trimStart_head s) as Hh. rewrite Hu in Hh.
    destruct (trim s); simpl in *; auto.
  - unfold trim, trimEnd. rewrite rev_involutive. apply trimStart_head.
Qed.

Lemma trim_nil_iff (s : jsstring) : trim s = [] <-> blank s = true.
Proof.
  unfold trim, trimEnd. split.
  - intros H. apply (f_equal (@rev N)) in H. rewrite rev_involutive in H. simpl in H.
    apply trimStart_nil_iff in H. rewrite blank_rev in H.
    destruct (trimStart_split s) as (l & Hl & Hb).
    rewrite Hl, blank_app, Hb, H. reflexivity.
  - intros H. assert (E : trimStart s = []) by now apply trimStart_nil_iff.
    rewrite E. reflexivity.
Qed.

Lemma truthy_false_iff (s : jsstring) : truthy s = false <-> s = [].
Proof. destruct s; simpl; split; auto; discriminate. Qed.

Lemma truthy_true_iff (s : jsstring) : truthy s = true <-> s <> [].
Proof. destruct s; simpl; split; auto; try discriminate; congruence. Qed.

(** The rule text is the trimmed text, or the empty string when there is
    no text. *)
Lemma ruleText_eq (text : option jsstring) :
  ruleText text = match text with Some t => trim t | None => [] end.
Proof.
  destruct text as [t|]; simpl; auto.
  unfold ruleText; simpl. destruct (trim t); reflexivity.
Qed.

End Trim.

(* ================================================================== *)
(** * The refinement round-trip *)
(* ================================================================== *)

Section Refinement.

Variable ai : GenerateContentParameters -> ModelOutcome.

(** What [generateImprovedInstructions] comes to, by the provider's
    answer. *)
Lemma generateImprovedInstructions_run (S : Type) (s : S)
    (cur fb : jsstring) (lang : Language) :
  run ai (generateImprovedInstructions cur fb lang) s =
  mkTrace
    (match ai (improveRequest cur fb) with
     | Responded text => inl (ruleText text)
     | Failed e => inr e
     end)
    s [(s, improveRequest cur fb)].
Proof.
  unfold generateImprovedInstructions, generateContent. simpl.
  destruct (ai (improveRequest cur fb)); reflexivity.
Qed.

(** The handler with a non-empty feedback, by the provider's answer. *)
Lemma handleImproveInstructions_run (s : App) (feedback : jsstring) :
  truthy feedback = true ->
  fire ai (fun c => handleImproveInstructions c feedback) s =
  let req := improveRequest (instructions s) feedback in
  mkTrace (inl tt)
    (match ai req with
     | Responded text =>
       if truthy (ruleText text)
       then setStatus idle (setResult None
              (setInstructions (appendRule (ruleText text)) (setStatus improving s)))
       else setStatus success (setStatus improving s)
     | Failed _ => setStatus success (setStatus improving s)
     end)
    [(setStatus improving s, req)].
Proof.
  intros Hf. unfold fire, handleImproveInstructions. rewrite Hf. simpl.
  destruct (ai (improveRequest (instructions s) feedback)) as [text|e]; simpl.
  - destruct (truthy (ruleText text)); reflexivity.
  - reflexivity.
Qed.

(** C4. While a refinement is in flight the session is in the improving
    state; when the provider's call fails, or its text is absent, empty
    or white space only, the session goes to the success state, and the
    instruction ledger and the grading result are the ones it had. *)
Theorem refinement_failure_keeps_result (s : App) (feedback : jsstring) :
  truthy feedback = true ->
  ((exists e, ai (improveRequest (instructions s) feedback) = Failed e)
   \/ (exists text, ai (improveRequest (instructions s) feedback) = Responded text
                    /\ ruleText text = [])) ->
  let t := fire ai (fun c => handleImproveInstructions c feedback) s in
  calls t = [(setStatus improving s, improveRequest (instructions s) feedback)]
  /\ status (final t) = success
  /\ instructions (final t) = instructions s
  /\ result (final t) = result s
  /\ final t = setStatus success s.
Proof.
  intros Hf Hai. cbv zeta. rewrite handleImproveInstructions_run by exact Hf.
  cbv zeta. destruct Hai as [(e & He) | (text & Ht & Hr)].
  - rewrite He. simpl. repeat split.
  - rewrite Ht, Hr. simpl. repeat split.
Qed.

(** C5. When the refinement produces a non-empty rule [Y] (the model's
    text, trimmed), the ledger afterwards is what it was, then a blank
    line if it was not empty, then the tag [[Updated Rule]: ], then [Y];
    the grading result is dropped and the session is idle. *)
Theorem refinement_success_appends (s : App) (feedback text : jsstring) :
  truthy feedback = true ->
  ai (improveRequest (instructions s) feedback) = Responded (Some text) ->
  trim text <> [] ->
  let t := fire ai (fun c => handleImproveInstructions c feedback) s in
  let Y := trim text in
  instructions (final t)
    = instructions s ++ (if truthy (instructions s) then LF ++ LF else [])
        ++ js "[Updated Rule]: " ++ Y
  /\ result (final t) = None
  /\ status (final t) = idle
  /\ calls t = [(setStatus improving s, improveRequest (instructions s) feedback)].
Proof.
  intros Hf Hai HY. cbv zeta. rewrite handleImproveInstructions_run by exact Hf.
  cbv zeta. rewrite Hai, ruleText_eq.
  apply truthy_true_iff in HY. rewrite HY. simpl. repeat split.
  unfold appendRule. destruct (instructions s) as [|c r]; simpl.
  - reflexivity.
  - now rewrite <- !app_assoc.
Qed.

(** C7, as the code has it. With an empty feedback the handler returns at
    once: it ends normally, the state (its error message included) is
    untouched and the provider is not called. A call is made, in the
    improving state, exactly when the feedback is not empty. *)
Theorem empty_feedback_is_ignored (s : App) (feedback : jsstring) :
  fire ai (fun c => handleImproveInstructions c []) s = mkTrace (inl tt) s []
  /\ ((exists st req,
         In (st, req) (calls (fire ai (fun c => handleImproveInstructions c feedback) s))
         /\ status st = improving)
      <-> feedback <> []).
Proof.
  split; [reflexivity|].
  destruct (truthy feedback) eqn:Hf.
  - rewrite handleImproveInstructions_run by exact Hf. cbv zeta. simpl. split.
    + intros _. now apply truthy_true_iff.
    + intros _. eexists _, _. split; [left; reflexivity | reflexivity].
  - apply truthy_false_iff in Hf. subst feedback. split.
    + intros (st & req & [] & _).
    + congruence.
Qed.

(** C8. The rule that [generateImprovedInstructions] returns is the
    response text without the white space at its two ends; with no text,
    or a text of white space only, it is the empty string, returned and
    not thrown, and then the handler leaves the ledger as it was. *)
Theorem rule_text_is_trimmed (s : App) (feedback : jsstring) (text : option jsstring) :
  ai (improveRequest (instructions s) feedback) = Responded text ->
  let rule := match text with Some t => trim t | None => [] end in
  outcome (run ai (generateImprovedInstructions (instructions s) feedback (language s)) s)
    = inl rule
  /\ (forall t, text = Some t ->
        exists l r, t = l ++ rule ++ r /\ blank l = true /\ blank r = true
          /\ startsBlank rule = false /\ startsBlank (rev rule) = false)
  /\ ((text = None \/ exists t, text = Some t /\ blank t = true) -> rule = [])
  /\ (rule = [] -> truthy feedback = true ->
        instructions (final (fire ai (fun c => handleImproveInstructions c feedback) s))
          = instructions s).
Proof.
  intros Hai. cbv zeta. repeat split.
  - rewrite generateImprovedInstructions_run. simpl. now rewrite Hai, ruleText_eq.
  - intros t ->. apply trim_split.
  - intros [-> | (t & -> & Hb)]; [reflexivity | now apply trim_nil_iff].
  - intros Hr Hf. rewrite handleImproveInstructions_run by exact Hf. cbv zeta.
    rewrite Hai, ruleText_eq, Hr. reflexivity.
Qed.

End Refinement.

(* ================================================================== *)
(** * The grading round-trip *)
(* ================================================================== *)

Section Grading.

Variable ai : GenerateContentParameters -> ModelOutcome.

(** What [gradeExam] comes to, by the provider's answer: one call, and
    the state is not touched. *)
Lemma gradeExam_run (S : Type) (s : S) (exam rubric : list FileWithPreview)
    (instr : jsstring) (lang : Language) :
  run ai (gradeExam exam rubric instr lang) s =
  mkTrace
    (match ai (gradeExamRequest exam rubric instr lang) with
     | Responded (Some text) =>
       if truthy text then
         match JSON.parse text with
         | inl data => inl data
         | inr e => inr (Raised e)
         end
       else inr (Raised noResponseText)
     | Responded None => inr (Raised noResponseText)
     | Failed e => inr e
     end)
    s [(s, gradeExamRequest exam rubric instr lang)].
Proof.
  unfold gradeExam, generateContent. simpl.
  destruct (ai (gradeExamRequest exam rubric instr lang)) as [[text|]|e]; simpl; auto.
  destruct (truthy text); simpl; auto.
  destruct (JSON.parse text); reflexivity.
Qed.

(** [gradeExam] has no guard of its own: it calls the provider whatever
    the two image groups are, also when both are empty. *)
Lemma gradeExam_always_calls (S : Type) (s : S) (exam rubric : list FileWithPreview)
    (instr : jsstring) (lang : Language) :
  calls (run ai (gradeExam exam rubric instr lang) s)
    = [(s, gradeExamRequest exam rubric instr lang)].
Proof. now rewrite gradeExam_run. Qed.

(** C1. With an empty exam group or an empty rubric group, [handleGrade]
    sets the error message that asks for the images and ends, before any
    await: the provider is not called, and the status, the result, the
    ledger, the files and the language are untouched. *)
Theorem grade_without_images_is_refused (s : App) :
  examFiles s = [] \/ rubricFiles s = [] ->
  let t := fire ai handleGrade s in
  calls t = []
  /\ errorMessage (final t) = Some (errorFiles (language s))
  /\ status (final t) = status s
  /\ result (final t) = result s
  /\ instructions (final t) = instructions s
  /\ examFiles (final t) = examFiles s
  /\ rubricFiles (final t) = rubricFiles s
  /\ language (final t) = language s
  /\ outcome t = inl tt.
Proof.
  intros H. unfold fire, handleGrade.
  assert (E : ((length (examFiles s) =? 0)%nat || (length (rubricFiles s) =? 0)%nat) = true).
  { destruct H as [-> | ->]; simpl; auto using orb_true_r. }
  rewrite E. simpl. repeat split.
Qed.

(** The handler with both groups non-empty, by what [gradeExam] comes to. *)
Lemma handleGrade_run (s : App) :
  examFiles s <> [] -> rubricFiles s <> [] ->
  fire ai handleGrade s =
  let req := gradeExamRequest (examFiles s) (rubricFiles s) (instructions s) (language s) in
  let s1 := setErrorMessage None (setStatus processing s) in
  match outcome (run ai (gradeExam (examFiles s) (rubricFiles s)
                           (instructions s) (language s)) s1) with
  | inl r => mkTrace (inl tt) (setStatus success (setResult (Some r) s1)) [(s1, req)]
  | inr Nullish => mkTrace (inr (Raised typeError)) (setStatus error s1) [(s1, req)]
  | inr (Raised e) =>
    mkTrace (inl tt)
      (setErrorMessage
         (Some (or_else (errMessage e) (js "An unexpected error occurred during grading.")))
         (setStatus error s1))
      [(s1, req)]
  end.
Proof.
  intros He Hr. unfold fire, handleGrade.
  assert (E : ((length (examFiles s) =? 0) || (length (rubricFiles s) =? 0)) = false).
  { destruct (examFiles s); [congruence|]. destruct (rubricFiles s); [congruence|].
    reflexivity. }
  rewrite E. cbv zeta.
  rewrite !run_bind, !run_set. cbn [outcome final calls app].
  rewrite run_tryCatch, run_bind.
  set (s1 := setErrorMessage None (setStatus processing s)).
  set (t := run ai (gradeExam (examFiles s) (rubricFiles s) (instructions s) (language s)) s1).
  assert (Hf : final t = s1) by (unfold t; now rewrite gradeExam_run).
  assert (Hc : calls t = [(s1, gradeExamRequest (examFiles s) (rubricFiles s)
                                 (instructions s) (language s))])
    by (unfold t; now rewrite gradeExam_run).
  destruct (outcome t) as [r|[|e]]; cbn [outcome final calls];
    rewrite !run_bind, !run_set; cbn [outcome final calls readMessage run];
    rewrite ?run_set; cbn [outcome final calls]; rewrite Hf, Hc; reflexivity.
Qed.

(** C2, as the code has it. [gradeExam] throws exactly when the call
    throws, or the response has no text, or its text is not JSON (the
    empty text included); a text that is JSON is returned as parsed,
    whatever its shape. The schema goes to the provider with the request
    and the response is not checked against it. *)
Theorem gradeExam_fails_iff_not_json (S : Type) (s : S)
    (exam rubric : list FileWithPreview) (instr : jsstring) (lang : Language) :
  let req := gradeExamRequest exam rubric instr lang in
  let t := run ai (gradeExam exam rubric instr lang) s in
  ((exists e, outcome t = inr e) <->
     ((exists e, ai req = Failed e)
      \/ ai req = Responded None
      \/ (exists text, ai req = Responded (Some text)
                       /\ forall v, JSON.parse text <> inl v)))
  /\ (forall text v, ai req = Responded (Some text) ->
        JSON.parse text = inl v -> outcome t = inl v)
  /\ option_map responseSchema (config req) = Some gradingSchema.
Proof.
  cbv zeta. rewrite gradeExam_run. cbn [outcome]. repeat split.
  - intros (e & He).
    destruct (ai (gradeExamRequest exam rubric instr lang)) as [[text|]|e'].
    + right; right. exists text. split; [reflexivity|].
      intros v Hv. destruct (truthy text) eqn:Ht.
      * rewrite Hv in He. discriminate.
      * apply truthy_false_iff in Ht. subst text. discriminate.
    + right; left; reflexivity.
    + left. now exists e'.
  - intros [(e & ->) | [-> | (text & -> & Hp)]].
    + now exists e.
    + now exists (Raised noResponseText).
    + destruct (truthy text); [| now exists (Raised noResponseText)].
      destruct (JSON.parse text) as [v|e]; [now destruct (Hp v) | now exists (Raised e)].
  - intros text v -> Hv. destruct (truthy text) eqn:Ht.
    + now rewrite Hv.
    + apply truthy_false_iff in Ht. subst text. discriminate.
Qed.


End Grading.

(* ================================================================== *)
(** * The request composer *)
(* ================================================================== *)

Section Composer.

Variable ai : GenerateContentParameters -> ModelOutcome.

Lemma forEachFrom_pages (pre post : jsstring) (files : list FileWithPreview) :
  forall (index : nat) (acc : list Part),
  forEachFrom index files
    (fun parts f index =>
       match base64 f with
       | Some data =>
         if truthy data then
           let parts := push parts (TextPart (pre ++ ofNat (index + 1) ++ post)) in
           push parts (InlineData (mimeType f) data)
         else parts
       | None => parts
       end) acc
  = acc ++ pagesFrom (fun n => pre ++ ofNat n ++ post) index files.
Proof.
  induction files as [|f rest IH]; intros index acc; cbn [forEachFrom pagesFrom].
  - now rewrite app_nil_r.
  - rewrite IH. destruct (base64 f) as [data|]; [|reflexivity].
    destruct (truthy data); [|reflexivity].
    unfold push. now rewrite <- !app_assoc.
Qed.

(** The [parts] array: the instruction, what the rubric loop appends,
    what the exam loop appends. *)
Lemma gradeExamParts_eq (exam rubric : list FileWithPreview)
    (instr : jsstring) (lang : Language) :
  gradeExamParts exam rubric instr lang
  = TextPart (promptText instr lang)
      :: pagesFrom rubricMarker 0 rubric ++ pagesFrom examMarker 0 exam.
Proof.
  unfold gradeExamParts, forEach. cbv zeta.
  rewrite (forEachFrom_pages (js "[Image: Rubric Page ") (js "]") rubric 0).
  rewrite (forEachFrom_pages (js "[Image: Student Exam Page ") (js "]") exam 0).
  unfold push, rubricMarker, examMarker. rewrite <- app_assoc. reflexivity.
Qed.

Lemma pagesFrom_paired (marker : nat -> jsstring) (files : list FileWithPreview) :
  forall index, paired (pagesFrom marker index files) = true.
Proof.
  induction files as [|f rest IH]; intros index; simpl; auto.
  destruct (base64 f) as [data|]; auto. destruct (truthy data); simpl; auto.
Qed.

Lemma pagesFrom_images (marker : nat -> jsstring) (files : list FileWithPreview) :
  forall index,
  imagesOf (pagesFrom marker index files) = map imageOf (filter hasPayload files).
Proof.
  induction files as [|f rest IH]; intros index; simpl; auto.
  unfold hasPayload, imageOf. destruct (base64 f) as [data|] eqn:Eb; simpl; auto.
  destruct (truthy data); simpl; auto. rewrite Eb. f_equal. apply IH.
Qed.

Lemma pagesFrom_texts (marker : nat -> jsstring) (files : list FileWithPreview) :
  forall index,
  textsOf (pagesFrom marker index files) = map marker (pageNumbersFrom index files).
Proof.
  induction files as [|f rest IH]; intros index; simpl; auto.
  unfold hasPayload. destruct (base64 f) as [data|]; simpl; auto.
  destruct (truthy data); simpl; auto. f_equal. apply IH.
Qed.

Lemma pagesFrom_length (marker : nat -> jsstring) (files : list FileWithPreview) :
  forall index,
  length (pagesFrom marker index files) = 2 * length (filter hasPayload files).
Proof.
  induction files as [|f rest IH]; intros index; simpl; auto.
  unfold hasPayload in *. destruct (base64 f) as [data|]; simpl; auto.
  destruct (truthy data); simpl; auto. rewrite IH. simpl. lia.
Qed.

Lemma filter_all {A} (p : A -> bool) (xs : list A) :
  forallb p xs = true -> filter p xs = xs.
Proof.
  induction xs as [|x r IH]; simpl; auto.
  intros H. apply andb_prop in H as [-> Hr]. now rewrite IH.
Qed.

Lemma pageNumbersFrom_all (files : list FileWithPreview) :
  forall index, forallb hasPayload files = true ->
  pageNumbersFrom index files = seq (index + 1) (length files).
Proof.
  induction files as [|f rest IH]; intros index H; simpl; auto.
  simpl in H. apply andb_prop in H as [-> Hr]. rewrite IH by exact Hr.
  now replace (S index + 1)%nat with (S (index + 1)) by lia.
Qed.

(** A page number is emitted exactly for the positions whose file has a
    payload, and it is the position in the input plus one. *)
Lemma pageNumbersFrom_In (files : list FileWithPreview) :
  forall index n,
  In n (pageNumbersFrom index files) <->
  exists k f, n = (index + k + 1)%nat /\ nth_error files k = Some f /\ hasPayload f = true.
Proof.
  induction files as [|f rest IH]; intros index n; simpl.
  - split; [tauto|]. intros (k & f & _ & H & _). now destruct k.
  - destruct (hasPayload f) eqn:Hp; simpl; rewrite IH; split.
    + intros [<- | (k & g & -> & Hk & Hg)].
      * exists 0%nat, f. repeat split; auto; lia.
      * exists (S k), g. repeat split; auto; lia.
    + intros (k & g & -> & Hk & Hg). destruct k as [|k]; simpl in Hk.
      * left. lia.
      * right. exists k, g. repeat split; auto; lia.
    + intros (k & g & -> & Hk & Hg). exists (S k), g. repeat split; auto; lia.
    + intros (k & g & -> & Hk & Hg). destruct k as [|k]; simpl in Hk.
      * injection Hk as <-. congruence.
      * exists k, g. repeat split; auto; lia.
Qed.

Lemma pageNumbersFrom_lower (files : list FileWithPreview) :
  forall index n, In n (pageNumbersFrom index files) -> (index < n)%nat.
Proof.
  intros index n H. apply pageNumbersFrom_In in H as (k & f & -> & _). lia.
Qed.

(** Page numbers come out in increasing order. *)
Lemma pageNumbersFrom_sorted (files : list FileWithPreview) :
  forall index, StronglySorted lt (pageNumbersFrom index files).
Proof.
  induction files as [|f rest IH]; intros index; simpl.
  - constructor.
  - destruct (hasPayload f); [|apply IH].
    constructor; [apply IH|].
    apply Forall_forall. intros n Hn. apply pageNumbersFrom_lower in Hn. lia.
Qed.

Lemma textsOf_app (a b : list Part) : textsOf (a ++ b) = textsOf a ++ textsOf b.
Proof. unfold textsOf. apply flat_map_app. Qed.

(** C3. [gradeExam] makes one call, and the segment list of its request
    is the instruction segment, then the rubric segments, then the exam
    segments. Each of the two groups is a run of pairs, a page marker and
    then the image; its images are the files of the input that have a
    payload, in the order of the input, and its markers carry the page
    numbers of these files, in increasing order. When every file has a
    payload these are all the files, numbered from one. *)
Theorem request_parts_are_ordered (S : Type) (s : S) (exam rubric : list FileWithPreview)
    (instr : jsstring) (lang : Language) :
  exists req R E,
    calls (run ai (gradeExam exam rubric instr lang) s) = [(s, req)]
    /\ contents req = ContentParts (TextPart (promptText instr lang) :: R ++ E)
    /\ paired R = true /\ paired E = true
    /\ imagesOf R = map imageOf (filter hasPayload rubric)
    /\ imagesOf E = map imageOf (filter hasPayload exam)
    /\ textsOf R = map rubricMarker (pageNumbers rubric)
    /\ textsOf E = map examMarker (pageNumbers exam)
    /\ StronglySorted lt (pageNumbers rubric)
    /\ StronglySorted lt (pageNumbers exam)
    /\ (forallb hasPayload rubric = true ->
          imagesOf R = map imageOf rubric
          /\ textsOf R = map rubricMarker (seq 1 (length rubric)))
    /\ (forallb hasPayload exam = true ->
          imagesOf E = map imageOf exam
          /\ textsOf E = map examMarker (seq 1 (length exam))).
Proof.
  exists (gradeExamRequest exam rubric instr lang),
    (pagesFrom rubricMarker 0 rubric), (pagesFrom examMarker 0 exam).
  split; [apply gradeExam_always_calls|].
  split; [unfold gradeExamRequest; cbn [contents]; now rewrite gradeExamParts_eq|].
  rewrite !pagesFrom_paired, !pagesFrom_images, !pagesFrom_texts.
  repeat split; try apply pageNumbersFrom_sorted.
  - now rewrite filter_all.
  - unfold pageNumbers. now rewrite pageNumbersFrom_all.
  - now rewrite filter_all.
  - unfold pageNumbers. now rewrite pageNumbersFrom_all.
Qed.

(** C9. For the secondary language the request that [gradeExam] sends
    begins with a text segment that contains the sentence asking for all
    text fields in Simplified Chinese. Nothing else of the request
    depends on the language: the segments after the first, the model
    name and the configuration (mime type, schema, temperature) are those
    of the request that is sent for English. *)
Theorem language_directive_is_in_prompt (S : Type) (s : S)
    (exam rubric : list FileWithPreview) (instr : jsstring) :
  exists req prompt rest,
    calls (run ai (gradeExam exam rubric instr zh) s) = [(s, req)]
    /\ contents req = ContentParts (TextPart prompt :: rest)
    /\ includes prompt
         (js "IMPORTANT: Provide ALL text fields (summary, feedback, studentAnswer, correction, comments, rubricReference) in Simplified Chinese (简体中文).")
    /\ exists reqEn promptEn,
         calls (run ai (gradeExam exam rubric instr en) s) = [(s, reqEn)]
         /\ contents reqEn = ContentParts (TextPart promptEn :: rest)
         /\ model req = model reqEn
         /\ config req = config reqEn.
Proof.
  exists (gradeExamRequest exam rubric instr zh), (promptText instr zh),
    (pagesFrom rubricMarker 0 rubric ++ pagesFrom examMarker 0 exam).
  split; [apply gradeExam_always_calls|].
  split; [unfold gradeExamRequest; cbn [contents]; now rewrite gradeExamParts_eq|].
  split.
  { unfold includes, promptText. cbv zeta. cbn [langInstruction].
    exists promptHead.
    destruct (truthy (trim instr)); eexists; rewrite <- !app_assoc; reflexivity. }
  exists (gradeExamRequest exam rubric instr en), (promptText instr en).
  split; [apply gradeExam_always_calls|].
  split; [unfold gradeExamRequest; cbn [contents]; now rewrite gradeExamParts_eq|].
  unfold gradeExamRequest. cbn [model config]. split; reflexivity.
Qed.

Lemma ofNat_inj (n m : nat) : ofNat n = ofNat m -> n = m.
Proof.
  unfold ofNat. intros H.
  assert (Hm : forall a b : list ascii, map N_of_ascii a = map N_of_ascii b -> a = b).
  { induction a as [|x a IH]; destruct b as [|y b]; simpl; try discriminate; auto.
    intros E. injection E as E1 E2. f_equal; [|now apply IH].
    now rewrite <- (ascii_N_embedding x), <- (ascii_N_embedding y), E1. }
  apply Hm in H.
  apply (f_equal string_of_list_ascii) in H.
  rewrite !string_of_list_ascii_of_string in H.
  apply (f_equal NilEmpty.uint_of_string) in H. rewrite !NilEmpty.usu in H.
  injection H as H. apply (f_equal Nat.of_uint) in H.
  now rewrite !Unsigned.of_to in H.
Qed.

Lemma rubricMarker_inj (n m : nat) : rubricMarker n = rubricMarker m -> n = m.
Proof.
  unfold rubricMarker. intros H. apply app_inv_head, app_inv_tail in H.
  now apply ofNat_inj.
Qed.

Lemma examMarker_inj (n m : nat) : examMarker n = examMarker m -> n = m.
Proof.
  unfold examMarker. intros H. apply app_inv_head, app_inv_tail in H.
  now apply ofNat_inj.
Qed.

(** The two kinds of marker differ at their ninth code unit. *)
Lemma rubricMarker_not_examMarker (n m : nat) : rubricMarker n <> examMarker m.
Proof.
  unfold rubricMarker, examMarker.
  assert (Er : exists r, js "[Image: Rubric Page " = js "[Image: " ++ 82%N :: r)
    by (eexists; vm_compute; reflexivity).
  assert (Ee : exists r, js "[Image: Student Exam Page " = js "[Image: " ++ 83%N :: r)
    by (eexists; vm_compute; reflexivity).
  destruct Er as (r & ->), Ee as (e & ->). rewrite <- !app_assoc.
  intros H. apply app_inv_head in H. discriminate.
Qed.

(** The instruction text begins with a line feed, a marker with a
    bracket. *)
Lemma promptText_head (instr : jsstring) (lang : Language) :
  exists r, promptText instr lang = 10%N :: r.
Proof.
  assert (Eh : exists r, promptHead = 10%N :: r) by (eexists; vm_compute; reflexivity).
  destruct Eh as (r & Eh). unfold promptText. cbv zeta. rewrite Eh.
  destruct (truthy (trim instr)); eexists; reflexivity.
Qed.

Lemma promptText_not_rubricMarker (instr : jsstring) (lang : Language) (n : nat) :
  promptText instr lang <> rubricMarker n.
Proof.
  destruct (promptText_head instr lang) as (r & ->).
  assert (Er : exists r, js "[Image: Rubric Page " = 91%N :: r)
    by (eexists; vm_compute; reflexivity).
  unfold rubricMarker. destruct Er as (a & ->). discriminate.
Qed.

Lemma promptText_not_examMarker (instr : jsstring) (lang : Language) (n : nat) :
  promptText instr lang <> examMarker n.
Proof.
  destruct (promptText_head instr lang) as (r & ->).
  assert (Ee : exists r, js "[Image: Student Exam Page " = 91%N :: r)
    by (eexists; vm_compute; reflexivity).
  unfold examMarker. destruct Ee as (a & ->). discriminate.
Qed.

(** A file with a payload puts its marker, numbered by its position, and
    right after it its image. *)
Lemma pagesFrom_emits (marker : nat -> jsstring) (files : list FileWithPreview) :
  forall index k f data,
  nth_error files k = Some f -> base64 f = Some data -> truthy data = true ->
  exists before after,
    pagesFrom marker index files
    = before ++ TextPart (marker (index + k + 1)) :: InlineData (mimeType f) data :: after.
Proof.
  induction files as [|g rest IH]; intros index k f data Hk Hb Ht.
  - now destruct k.
  - destruct k as [|k]; simpl in Hk.
    + injection Hk as ->. simpl. rewrite Hb, Ht.
      exists [], (pagesFrom marker (S index) rest).
      now replace (index + 0 + 1) with (index + 1) by lia.
    + destruct (IH (S index) k f data Hk Hb Ht) as (before & after & E).
      replace (S index + k + 1) with (index + S k + 1) in E by lia.
      simpl. rewrite E. destruct (base64 g) as [d|].
      * destruct (truthy d).
        -- now exists (TextPart (marker (index + 1)) :: InlineData (mimeType g) d :: before), after.
        -- now exists before, after.
      * now exists before, after.
Qed.

(** The text segments a loop appends are markers of emitted page numbers. *)
Lemma pagesFrom_In_text (marker : nat -> jsstring) (files : list FileWithPreview)
    (index : nat) (t : jsstring) :
  In (TextPart t) (pagesFrom marker index files) ->
  exists n, t = marker n /\ In n (pageNumbersFrom index files).
Proof.
  intros H.
  assert (Ht : In t (textsOf (pagesFrom marker index files))).
  { unfold textsOf. apply in_flat_map. exists (TextPart t). simpl. auto. }
  rewrite pagesFrom_texts in Ht. apply in_map_iff in Ht as (n & <- & Hn).
  now exists n.
Qed.

(** A file without payload leaves no marker of its page number. *)
Lemma pagesFrom_skips (files : list FileWithPreview) (i : nat) (f : FileWithPreview) :
  nth_error files i = Some f -> hasPayload f = false ->
  ~ In (i + 1) (pageNumbers files).
Proof.
  intros Hi Hp Hin. apply pageNumbersFrom_In in Hin as (k & g & E & Hk & Hg).
  assert (k = i) by lia. subst k. congruence.
Qed.

(** C10. In the request that [gradeExam] sends, a file whose payload is
    absent (or empty) has left nothing, neither its image nor the marker
    of its page number; a file with a payload has left the marker
    numbered by its position in the input, position one being the first,
    and right after it its image. So the page numbers that are sent can
    have gaps: of three rubric pages whose second has no payload, the
    markers sent are those of pages one and three. *)
Theorem files_without_payload_are_skipped (S : Type) (s : S)
    (exam rubric : list FileWithPreview) (instr : jsstring) (lang : Language) :
  exists req parts,
    calls (run ai (gradeExam exam rubric instr lang) s) = [(s, req)]
    /\ contents req = ContentParts parts
    /\ length parts
       = 1 + 2 * length (filter hasPayload rubric) + 2 * length (filter hasPayload exam)
    /\ (forall i f, nth_error rubric i = Some f ->
          (hasPayload f = false -> ~ In (TextPart (rubricMarker (i + 1))) parts)
          /\ (forall data, base64 f = Some data -> truthy data = true ->
                exists before after,
                  parts = before ++ TextPart (rubricMarker (i + 1))
                                   :: InlineData (mimeType f) data :: after))
    /\ (forall i f, nth_error exam i = Some f ->
          (hasPayload f = false -> ~ In (TextPart (examMarker (i + 1))) parts)
          /\ (forall data, base64 f = Some data -> truthy data = true ->
                exists before after,
                  parts = before ++ TextPart (examMarker (i + 1))
                                   :: InlineData (mimeType f) data :: after))
    /\ (exists files req' parts',
          calls (run ai (gradeExam [] files instr lang) s) = [(s, req')]
          /\ contents req' = ContentParts parts'
          /\ textsOf parts' = [promptText instr lang; rubricMarker 1; rubricMarker 3]).
Proof.
  exists (gradeExamRequest exam rubric instr lang), (gradeExamParts exam rubric instr lang).
  split; [apply gradeExam_always_calls|].
  split; [reflexivity|].
  rewrite gradeExamParts_eq. split; [|split; [|split]].
  - simpl. rewrite length_app, !pagesFrom_length. lia.
  - intros i f H. split.
    + intros Hp [E | Hin].
      * injection E as E. exact (promptText_not_rubricMarker instr lang (i + 1) E).
      * apply in_app_or in Hin as [Hin | Hin];
          apply pagesFrom_In_text in Hin as (n & E & Hn).
        -- apply rubricMarker_inj in E. subst n. now apply (pagesFrom_skips rubric i f).
        -- now apply rubricMarker_not_examMarker in E.
    + intros data Hb Ht.
      destruct (pagesFrom_emits rubricMarker rubric 0 i f data H Hb Ht) as (b & a & E).
      exists (TextPart (promptText instr lang) :: b), (a ++ pagesFrom examMarker 0 exam).
      rewrite E. simpl. now rewrite <- app_assoc.
  - intros i f H. split.
    + intros Hp [E | Hin].
      * injection E as E. exact (promptText_not_examMarker instr lang (i + 1) E).
      * apply in_app_or in Hin as [Hin | Hin];
          apply pagesFrom_In_text in Hin as (n & E & Hn).
        -- symmetry in E. now apply rubricMarker_not_examMarker in E.
        -- apply examMarker_inj in E. subst n. now apply (pagesFrom_skips exam i f).
    + intros data Hb Ht.
      destruct (pagesFrom_emits examMarker exam 0 i f data H Hb Ht) as (b & a & E).
      exists (TextPart (promptText instr lang) :: pagesFrom rubricMarker 0 rubric ++ b), a.
      rewrite E. simpl. now rewrite <- app_assoc.
  - exists [mkFile [] (Some [65%N]) []; mkFile [] None []; mkFile [] (Some [66%N]) []].
    eexists _, _. split; [apply gradeExam_always_calls|].
    split; [reflexivity|].
    rewrite gradeExamParts_eq.
    change (textsOf (TextPart (promptText instr lang) :: ?x))
      with (promptText instr lang :: textsOf x).
    now rewrite textsOf_app, !pagesFrom_texts.
Qed.

End Composer.

(* ================================================================== *)
(** * The session as a whole *)
(* ================================================================== *)

Section Session.

Variable ai : GenerateContentParameters -> ModelOutcome.

(** The error message that [handleGrade] stores for a thrown value. *)
Lemma shown_message_cases (e : JsError) :
  let shown := or_else (errMessage e) (js "An unexpected error occurred during grading.") in
  (forall m, errMessage e = Some m -> m <> [] -> shown = m)
  /\ (errMessage e = None \/ errMessage e = Some [] ->
      shown = js "An unexpected error occurred during grading.")
  /\ truthy shown = true.
Proof.
  cbv zeta. unfold or_else. destruct (errMessage e) as [[|c m]|]; cbn [truthy].
  - split; [intros m H Hne; injection H as <-; congruence|].
    split; [reflexivity | reflexivity].
  - split; [intros m' H _; now injection H as <-|].
    split; [intros [H | H]; discriminate | reflexivity].
  - split; [discriminate|]. split; reflexivity.
Qed.

(** [handleGrade] with both groups non-empty, in terms of the provider's
    answer. *)
Lemma handleGrade_answer (s : App) :
  examFiles s <> [] -> rubricFiles s <> [] ->
  fire ai handleGrade s =
  let req := gradeExamRequest (examFiles s) (rubricFiles s) (instructions s) (language s) in
  let s1 := setErrorMessage None (setStatus processing s) in
  match
    match ai req with
    | Responded (Some text) =>
      if truthy text then
        match JSON.parse text with
        | inl data => inl data
        | inr e => inr (Raised e)
        end
      else inr (Raised noResponseText)
    | Responded None => inr (Raised noResponseText)
    | Failed e => inr e
    end
  with
  | inl r => mkTrace (inl tt) (setStatus success (setResult (Some r) s1)) [(s1, req)]
  | inr Nullish => mkTrace (inr (Raised typeError)) (setStatus error s1) [(s1, req)]
  | inr (Raised e) =>
    mkTrace (inl tt)
      (setErrorMessage
         (Some (or_else (errMessage e) (js "An unexpected error occurred during grading.")))
         (setStatus error s1))
      [(s1, req)]
  end.
Proof.
  intros He Hr. rewrite (handleGrade_run ai s He Hr). cbv zeta.
  rewrite gradeExam_run. reflexivity.
Qed.

(** The one call of [handleGrade], whatever comes of it. *)
Lemma handleGrade_calls (s : App) :
  examFiles s <> [] -> rubricFiles s <> [] ->
  calls (fire ai handleGrade s)
  = [(setErrorMessage None (setStatus processing s),
      gradeExamRequest (examFiles s) (rubricFiles s) (instructions s) (language s))].
Proof.
  intros He Hr. rewrite (handleGrade_run ai s He Hr). cbv zeta.
  destruct (outcome _) as [r|[|e]]; reflexivity.
Qed.

Lemma noResponseText_shown :
  or_else (errMessage noResponseText)
    (js "An unexpected error occurred during grading.")
  = js "No response text generated".
Proof. vm_compute. reflexivity. Qed.

Lemma parse_nonempty (text : jsstring) (v : JSON.value) :
  JSON.parse text = inl v -> truthy text = true.
Proof. destruct text; [discriminate | reflexivity]. Qed.

Lemma typeError_name : errName typeError = js "TypeError".
Proof. reflexivity. Qed.

(** X1. With both groups non-empty, whatever the status was, and a
    response text that is JSON: the one call is made while the status is
    processing, with the grade button disabled and the error message
    cleared; afterwards the status is success, the result is the parsed
    value and the rest of the session is as it was. *)
Theorem grading_success_stores_result (s : App) (text : jsstring) (v : JSON.value) :
  examFiles s <> [] -> rubricFiles s <> [] ->
  ai (gradeExamRequest (examFiles s) (rubricFiles s) (instructions s) (language s))
    = Responded (Some text) ->
  JSON.parse text = inl v ->
  let t := fire ai handleGrade s in
  (exists during,
     calls t = [(during, gradeExamRequest (examFiles s) (rubricFiles s)
                           (instructions s) (language s))]
     /\ status during = processing /\ gradeButtonDisabled during = true
     /\ errorMessage during = None /\ result during = result s)
  /\ status (final t) = success
  /\ result (final t) = Some v
  /\ errorMessage (final t) = None
  /\ instructions (final t) = instructions s
  /\ examFiles (final t) = examFiles s
  /\ rubricFiles (final t) = rubricFiles s
  /\ language (final t) = language s.
Proof.
  intros He Hr Hai Hv. cbv zeta. rewrite (handleGrade_answer s He Hr). cbv zeta.
  rewrite Hai, (parse_nonempty text v Hv), Hv. cbn [final calls]. split.
  - eexists. split; [reflexivity|]. repeat split.
  - repeat split.
Qed.

(** X2. When the provider's call is rejected, [handleGrade] makes no
    second call and the status is error. For a thrown value with
    properties the handler ends normally and stores the message of the
    value as it is, or a fixed text when the value has no message or an
    empty one. For [undefined] or [null] the read of the message throws
    inside the [catch] block: the handler is rejected with a [TypeError]
    and no message is stored. In every case the result of an earlier
    grading, the ledger and the files are kept, and the upload form is
    returned with the grade button enabled. *)
Theorem grading_failure_stores_message (s : App) (thrown : Thrown) :
  examFiles s <> [] -> rubricFiles s <> [] ->
  ai (gradeExamRequest (examFiles s) (rubricFiles s) (instructions s) (language s))
    = Failed thrown ->
  let t := fire ai handleGrade s in
  map snd (calls t) = [gradeExamRequest (examFiles s) (rubricFiles s)
                         (instructions s) (language s)]
  /\ status (final t) = error
  /\ (forall e m, thrown = Raised e -> errMessage e = Some m -> m <> [] ->
        outcome t = inl tt /\ errorMessage (final t) = Some m)
  /\ (forall e, thrown = Raised e -> errMessage e = None \/ errMessage e = Some [] ->
        outcome t = inl tt
        /\ errorMessage (final t)
           = Some (js "An unexpected error occurred during grading."))
  /\ (thrown = Nullish ->
        (exists e, outcome t = inr (Raised e) /\ errName e = js "TypeError")
        /\ errorMessage (final t) = None)
  /\ result (final t) = result s
  /\ instructions (final t) = instructions s
  /\ examFiles (final t) = examFiles s
  /\ rubricFiles (final t) = rubricFiles s
  /\ screen (final t) = UploadForm
  /\ gradeButtonDisabled (final t) = false.
Proof.
  intros He Hr Hai. cbv zeta. rewrite (handleGrade_answer s He Hr). cbv zeta.
  rewrite Hai. destruct thrown as [|e]; cbn [outcome final calls map snd].
  - split; [reflexivity|]. split; [reflexivity|].
    split; [intros e m E; discriminate E|].
    split; [intros e E; discriminate E|].
    split; [|repeat split].
    intros _. split; [|reflexivity].
    exists typeError. split; [reflexivity | apply typeError_name].
  - destruct (shown_message_cases e) as (H1 & H2 & _). cbv zeta in H1, H2.
    split; [reflexivity|]. split; [reflexivity|].
    split.
    { intros e' m E Hm Hne. injection E as <-. split; [reflexivity|].
      cbn [errorMessage setErrorMessage]. now rewrite (H1 m Hm Hne). }
    split.
    { intros e' E H. injection E as <-. split; [reflexivity|].
      cbn [errorMessage setErrorMessage]. now rewrite (H2 H). }
    split; [intros E; discriminate E|]. repeat split.
Qed.

(** X3. When the response has no text, or an empty one, or a text that
    is not JSON, the grading ends as an error too: the status is error, a
    message is shown, the earlier result is kept; for a missing or empty
    text the message is [No response text generated]. *)
Theorem grading_without_json_is_an_error (s : App) (answer : option jsstring) :
  examFiles s <> [] -> rubricFiles s <> [] ->
  ai (gradeExamRequest (examFiles s) (rubricFiles s) (instructions s) (language s))
    = Responded answer ->
  (answer = None \/ answer = Some []
   \/ exists text, answer = Some text /\ forall v, JSON.parse text <> inl v) ->
  let t := fire ai handleGrade s in
  status (final t) = error
  /\ result (final t) = result s
  /\ (exists m, errorShown (final t) = Some m)
  /\ (answer = None \/ answer = Some [] ->
      errorMessage (final t) = Some (js "No response text generated")).
Proof.
  intros He Hr Hai Hbad. cbv zeta. rewrite (handleGrade_answer s He Hr). cbv zeta.
  rewrite Hai.
  assert (E : exists e,
    match answer with
    | Some text =>
      if truthy text then
        match JSON.parse text with
        | inl data => inl data
        | inr e => inr (Raised e)
        end
      else inr (Raised noResponseText)
    | None => inr (Raised noResponseText)
    end = inr (Raised e)
    /\ (answer = None \/ answer = Some [] -> e = noResponseText)).
  { destruct Hbad as [-> | [-> | (text & -> & Hp)]].
    - exists noResponseText. split; [reflexivity | auto].
    - exists noResponseText. split; [reflexivity | auto].
    - destruct (truthy text) eqn:Ht.
      + destruct (JSON.parse text) as [v|e] eqn:Ep; [now destruct (Hp v)|].
        exists e. split; [reflexivity|].
        intros [H | H]; [discriminate|]. injection H as ->. discriminate.
      + exists noResponseText. split; [reflexivity | auto]. }
  destruct E as (e & -> & He0). cbn [final].
  destruct (shown_message_cases e) as (_ & _ & Ht). cbv zeta in Ht.
  repeat split.
  - unfold errorShown. cbn [errorMessage setErrorMessage]. rewrite Ht. eauto.
  - intros H. rewrite (He0 H). cbn [errorMessage setErrorMessage].
    now rewrite noResponseText_shown.
Qed.

(** X4. Whatever the session and whatever the provider does,
    [handleGrade] calls the provider at most once and leaves the ledger,
    the two file groups and the language as they were. It ends
    normally, every error being caught, in all cases but one: when the
    provider's call is rejected with [undefined] or [null], the [catch]
    block itself throws and the handler is rejected with a
    [TypeError]. *)
Theorem handleGrade_keeps_inputs (s : App) :
  let t := fire ai handleGrade s in
  let req := gradeExamRequest (examFiles s) (rubricFiles s) (instructions s) (language s) in
  (outcome t = inl tt
   \/ exists e, outcome t = inr (Raised e) /\ errName e = js "TypeError")
  /\ (outcome t = inl tt <->
      ~ (examFiles s <> [] /\ rubricFiles s <> [] /\ ai req = Failed Nullish))
  /\ length (calls t) <= 1
  /\ instructions (final t) = instructions s
  /\ examFiles (final t) = examFiles s
  /\ rubricFiles (final t) = rubricFiles s
  /\ language (final t) = language s.
Proof.
  cbv zeta.
  destruct (examFiles s) as [|e0 er] eqn:Ee.
  { unfold fire, handleGrade. rewrite Ee. cbn [length Nat.eqb orb].
    rewrite run_set. cbn [outcome final calls length]. cbn. rewrite Ee.
    repeat split; auto; try lia. intros _ (H & _). now apply H. }
  destruct (rubricFiles s) as [|r0 rr] eqn:Er.
  { unfold fire, handleGrade. rewrite Ee, Er. cbn [length Nat.eqb orb].
    rewrite run_set. cbn [outcome final calls length]. cbn. rewrite Ee, Er.
    repeat split; auto; try lia. intros _ (_ & H & _). now apply H. }
  assert (He : examFiles s <> []) by (rewrite Ee; discriminate).
  assert (Hr : rubricFiles s <> []) by (rewrite Er; discriminate).
  rewrite (handleGrade_answer s He Hr). cbv zeta. rewrite Ee, Er.
  destruct (ai (gradeExamRequest (e0 :: er) (r0 :: rr) (instructions s) (language s)))
    as [[text|]|[|e]].
  - destruct (truthy text); [destruct (JSON.parse text) as [v|e]|];
      cbn; rewrite ?Ee, ?Er; repeat split; auto; try lia;
      intros _ (_ & _ & H); discriminate.
  - cbn; rewrite ?Ee, ?Er; repeat split; auto; try lia.
    intros _ (_ & _ & H); discriminate.
  - cbn; rewrite ?Ee, ?Er. split; [right; exists typeError; split; reflexivity|].
    repeat split; auto; try lia.
    + discriminate.
    + intros H. exfalso. apply H. repeat split; discriminate.
  - cbn; rewrite ?Ee, ?Er; repeat split; auto; try lia.
    intros _ (_ & _ & H); discriminate.
Qed.


(** X6. [handleReset] calls nobody and empties the session, the ledger
    and the error message included, but keeps the language; a grading
    asked for right after it is refused for want of images, with the
    message in that language. *)
Theorem reset_clears_all_but_language (s : App) :
  let r := run ai handleReset s in
  final r = mkApp (language s) [] [] [] idle None None
  /\ calls r = []
  /\ screen (final r) = UploadForm
  /\ calls (fire ai handleGrade (final r)) = []
  /\ errorMessage (final (fire ai handleGrade (final r)))
     = Some (errorFiles (language s)).
Proof.
  cbv zeta. unfold handleReset. rewrite !run_bind, !run_set.
  cbn [outcome final calls app]. repeat split.
Qed.

(** X7. [toggleLanguage] switches between the two languages and touches
    nothing else, a stored error message included; toggling twice gives
    the session back. *)
Theorem toggleLanguage_is_an_involution (s : App) :
  let s1 := final (run ai toggleLanguage s) in
  final (run ai toggleLanguage s1) = s
  /\ language s1 <> language s
  /\ calls (run ai toggleLanguage s) = []
  /\ instructions s1 = instructions s
  /\ examFiles s1 = examFiles s
  /\ rubricFiles s1 = rubricFiles s
  /\ status s1 = status s
  /\ result s1 = result s
  /\ errorMessage s1 = errorMessage s.
Proof.
  cbv zeta. unfold toggleLanguage. rewrite !run_set. cbn [final calls].
  destruct s as [l ex ru ins st res err]. unfold setLanguage. cbn.
  repeat split; destruct l; (reflexivity || discriminate).
Qed.

Lemma lookup_setProp_same (ps : list (jsstring * JSON.value)) (k : jsstring)
    (v : JSON.value) :
  JSON.lookup k (JSON.setProp ps k v) = Some v.
Proof.
  induction ps as [|[k' v'] ps IH]; cbn [JSON.setProp JSON.lookup].
  - now rewrite (proj2 (eqb_eq k k) eq_refl).
  - destruct (Js.eqb k k') eqn:E; cbn [JSON.lookup]; rewrite E; [reflexivity | exact IH].
Qed.

Lemma lookup_setProp_other (ps : list (jsstring * JSON.value)) (k k0 : jsstring)
    (v : JSON.value) :
  k0 <> k -> JSON.lookup k0 (JSON.setProp ps k v) = JSON.lookup k0 ps.
Proof.
  intros Hne.
  assert (Hk : Js.eqb k0 k = false).
  { destruct (Js.eqb k0 k) eqn:E; [|reflexivity]. apply eqb_eq in E. congruence. }
  induction ps as [|[k' v'] ps IH]; cbn [JSON.setProp JSON.lookup].
  - now rewrite Hk.
  - destruct (Js.eqb k k') eqn:E; cbn [JSON.lookup].
    + apply eqb_eq in E. subst k'. now rewrite Hk.
    + now rewrite IH.
Qed.

(** X8. [handleUpdateScore] calls nobody and changes nothing but the
    result. Without a truthy result it changes nothing at all. When the
    result is an object, the new result is an object whose [totalScore]
    is the new score, whatever number that is, and whose every other
    property, [maxScore] and [letterGrade] among them, is the one it
    had. *)
Theorem update_score_replaces_totalScore (s : App) (newScore : Double.number) :
  let t := fire ai (fun c => handleUpdateScore c newScore) s in
  calls t = []
  /\ status (final t) = status s
  /\ instructions (final t) = instructions s
  /\ errorMessage (final t) = errorMessage s
  /\ (truthyResult (result s) = false -> final t = s)
  /\ (forall ps, result s = Some (JSON.Object ps) ->
      exists ps',
        result (final t) = Some (JSON.Object ps')
        /\ JSON.lookup (js "totalScore") ps' = Some (JSON.Number newScore)
        /\ forall k, k <> js "totalScore" -> JSON.lookup k ps' = JSON.lookup k ps).
Proof.
  cbv zeta. unfold fire, handleUpdateScore.
  destruct (result s) as [r|] eqn:Er.
  - destruct (truthyValue r) eqn:Ht.
    + rewrite run_set. cbn [final calls]. repeat split.
      * cbn [truthyResult]. congruence.
      * intros ps H. injection H as ->. cbn [ownProperties].
        eexists. split; [reflexivity|]. split.
        -- apply lookup_setProp_same.
        -- intros k Hk. now apply lookup_setProp_other.
    + cbn [run final calls]. repeat split.
      intros ps H. injection H as ->. discriminate.
  - cbn [run final calls]. repeat split. intros ps H. discriminate.
Qed.

End Session.

(* ================================================================== *)
(** * The ledger across operations *)
(* ================================================================== *)

Section Ledger.

Variable ai : GenerateContentParameters -> ModelOutcome.

Lemma appendRule_eq (rule prev : jsstring) :
  appendRule rule prev
  = prev ++ (if truthy prev then LF ++ LF else []) ++ js "[Updated Rule]: " ++ rule.
Proof.
  unfold appendRule. destruct prev as [|c r]; cbn [truthy].
  - reflexivity.
  - now rewrite <- !app_assoc.
Qed.

(** X9. Whatever the feedback and whatever the provider does,
    [handleImproveInstructions] ends normally, calls the provider at most
    once, and leaves a ledger that begins with the ledger it found:
    nothing of it is removed or rewritten. The files, the language and
    the error message are untouched, and the result is kept or dropped,
    never altered. *)
Theorem refinement_only_appends (s : App) (feedback : jsstring) :
  let t := fire ai (fun c => handleImproveInstructions c feedback) s in
  outcome t = inl tt
  /\ length (calls t) <= 1
  /\ (exists suffix, instructions (final t) = instructions s ++ suffix)
  /\ (result (final t) = result s \/ result (final t) = None)
  /\ examFiles (final t) = examFiles s
  /\ rubricFiles (final t) = rubricFiles s
  /\ language (final t) = language s
  /\ errorMessage (final t) = errorMessage s.
Proof.
  cbv zeta. destruct (truthy feedback) eqn:Hf.
  - rewrite (handleImproveInstructions_run ai s feedback Hf). cbv zeta.
    cbn [outcome final calls length].
    destruct (ai (improveRequest (instructions s) feedback)) as [text|e].
    + destruct (truthy (ruleText text)).
      * cbn. rewrite appendRule_eq. repeat split; eauto.
      * cbn. repeat split; auto. exists []. now rewrite app_nil_r.
    + cbn. repeat split; auto. exists []. now rewrite app_nil_r.
  - unfold fire, handleImproveInstructions. rewrite Hf. cbn.
    repeat split; auto. exists []. now rewrite app_nil_r.
Qed.

(** X10. The refinement does not read the language, the files, the
    result or the status: two sessions with the same ledger send the same
    request for the same feedback and end with the same ledger. *)
Theorem refinement_reads_only_the_ledger (s1 s2 : App) (feedback : jsstring) :
  instructions s1 = instructions s2 ->
  let t1 := fire ai (fun c => handleImproveInstructions c feedback) s1 in
  let t2 := fire ai (fun c => handleImproveInstructions c feedback) s2 in
  map snd (calls t1) = map snd (calls t2)
  /\ instructions (final t1) = instructions (final t2).
Proof.
  intros E. cbv zeta. destruct (truthy feedback) eqn:Hf.
  - rewrite !(handleImproveInstructions_run ai _ feedback Hf). cbv zeta.
    cbn [final calls map snd]. rewrite E. split; [reflexivity|].
    destruct (ai (improveRequest (instructions s2) feedback)) as [text|e].
    + destruct (truthy (ruleText text)); cbn; now rewrite E.
    + cbn. exact E.
  - unfold fire, handleImproveInstructions. rewrite Hf. cbn. auto.
Qed.

(** X11. The button of the report lets a feedback through only when it
    has something besides white space, so every click reaches the
    provider, with the ledger and the feedback in the request. The
    handler itself tests for the empty string only: a feedback of white
    space, for which the button is disabled, is sent as well when the
    handler is called with it. *)
Theorem improve_button_is_stricter_than_handler (s : App) (feedback : jsstring) :
  (improveButtonDisabled feedback = false -> feedback <> [])
  /\ (blank feedback = true -> improveButtonDisabled feedback = true)
  /\ (feedback <> [] ->
      calls (fire ai (fun c => handleImproveInstructions c feedback) s)
      = [(setStatus improving s, improveRequest (instructions s) feedback)]
      /\ exists pre mid post,
           contents (improveRequest (instructions s) feedback)
           = ContentText (pre ++ dquote ++ instructions s ++ dquote ++ mid
                            ++ dquote ++ feedback ++ dquote ++ post)).
Proof.
  unfold improveButtonDisabled. repeat split.
  - intros H ->. discriminate.
  - intros H. apply trim_nil_iff in H. now rewrite H.
  - apply truthy_true_iff in H.
    now rewrite (handleImproveInstructions_run ai s feedback H).
  - exists refineHead, refineMid, refineTail. reflexivity.
Qed.

End Ledger.

(* ================================================================== *)
(** * The instruction text of the grading request *)
(* ================================================================== *)

Section Prompt.

Lemma blank_truthy_trim (instr : jsstring) :
  truthy (trim instr) = negb (blank instr).
Proof.
  destruct (blank instr) eqn:Hb.
  - apply trim_nil_iff in Hb. now rewrite Hb.
  - destruct (trim instr) eqn:Et; [|reflexivity].
    apply trim_nil_iff in Et. congruence.
Qed.

Lemma promptText_with_instructions (instr : jsstring) (lang : Language) :
  blank instr = false ->
  promptText instr lang
  = (promptHead ++ langInstruction lang ++ promptTail)
      ++ (LF ++ LF ++ js "Additional Teacher Instructions: " ++ instr)
      ++ LF ++ LF
      ++ js "Below are the images. First, the Answer Key/Rubric, then the Student Exam.".
Proof.
  intros Hb. unfold promptText. cbv zeta. rewrite blank_truthy_trim, Hb.
  cbn [negb]. now rewrite <- !app_assoc.
Qed.

Lemma promptText_without_instructions (instr : jsstring) (lang : Language) :
  blank instr = true ->
  promptText instr lang
  = (promptHead ++ langInstruction lang ++ promptTail)
      ++ LF ++ LF
      ++ js "Below are the images. First, the Answer Key/Rubric, then the Student Exam.".
Proof.
  intros Hb. unfold promptText. cbv zeta. rewrite blank_truthy_trim, Hb.
  reflexivity.
Qed.

(** X12. Teacher instructions that are empty or white space only leave
    the instruction text as it is without instructions. Any other
    instructions are put in as they are, white space at their ends
    included, after a blank line and [Additional Teacher Instructions: ].
    In both cases the text ends with the sentence that announces the
    images. *)
Theorem teacher_instructions_in_prompt (instr : jsstring) (lang : Language) :
  (blank instr = true -> promptText instr lang = promptText [] lang)
  /\ (blank instr = false ->
      includes (promptText instr lang)
        (LF ++ LF ++ js "Additional Teacher Instructions: " ++ instr))
  /\ (exists pre,
        promptText instr lang
        = pre ++ js "Below are the images. First, the Answer Key/Rubric, then the Student Exam.").
Proof.
  repeat split.
  - intros Hb. rewrite (promptText_without_instructions instr lang Hb).
    now rewrite (promptText_without_instructions [] lang eq_refl).
  - intros Hb. rewrite (promptText_with_instructions instr lang Hb).
    eexists _, _. reflexivity.
  - destruct (blank instr) eqn:Hb.
    + rewrite (promptText_without_instructions instr lang Hb).
      eexists. rewrite !app_assoc. reflexivity.
    + rewrite (promptText_with_instructions instr lang Hb).
      eexists. rewrite !app_assoc. reflexivity.
Qed.

End Prompt.

(* ================================================================== *)
(** * One operation after another *)
(* ================================================================== *)

Section Sequence.

Variables ai1 ai2 : GenerateContentParameters -> ModelOutcome.

(** The tag of an appended rule is not white space. *)
Lemma appended_ledger_not_blank (prev rule : jsstring) :
  blank (appendRule rule prev) = false.
Proof.
  rewrite appendRule_eq.
  assert (E : exists r, js "[Updated Rule]: " = 91%N :: r)
    by (eexists; vm_compute; reflexivity).
  destruct E as (r & ->). rewrite !blank_app. cbn [app blank forallb].
  change (isWhiteSpace 91) with false. cbn [andb].
  now rewrite !andb_false_r.
Qed.

(** X13. After a grading that failed because the provider threw, a
    second [handleGrade] sends the very request of the first: nothing has
    to be uploaded or typed again. If the provider now answers with JSON
    the status is success, the result is the parsed value and the error
    message is gone. *)
Theorem failed_grading_can_be_retried (s : App) (e : Thrown)
    (text : jsstring) (v : JSON.value) :
  examFiles s <> [] -> rubricFiles s <> [] ->
  ai1 (gradeExamRequest (examFiles s) (rubricFiles s) (instructions s) (language s))
    = Failed e ->
  ai2 (gradeExamRequest (examFiles s) (rubricFiles s) (instructions s) (language s))
    = Responded (Some text) ->
  JSON.parse text = inl v ->
  let s1 := final (fire ai1 handleGrade s) in
  let t := fire ai2 handleGrade s1 in
  map snd (calls t) = map snd (calls (fire ai1 handleGrade s))
  /\ status (final t) = success
  /\ result (final t) = Some v
  /\ errorMessage (final t) = None.
Proof.
  intros He Hr H1 H2 Hv. cbv zeta.
  rewrite (handleGrade_calls ai1 s He Hr).
  rewrite (handleGrade_answer ai1 s He Hr). cbv zeta. rewrite H1.
  destruct e as [|e]; cbn [final calls map snd];
    match goal with |- context [fire ai2 handleGrade ?x] => set (s1 := x) end;
    assert (Ee : examFiles s1 = examFiles s) by reflexivity;
    assert (Er : rubricFiles s1 = rubricFiles s) by reflexivity;
    assert (Ei : instructions s1 = instructions s) by reflexivity;
    assert (El : language s1 = language s) by reflexivity;
    (rewrite (handleGrade_calls ai2 s1); [|now rewrite Ee | now rewrite Er]);
    (rewrite (handleGrade_answer ai2 s1); [|now rewrite Ee | now rewrite Er]);
    cbv zeta; rewrite Ee, Er, Ei, El, H2, (parse_nonempty text v Hv), Hv;
    cbn [final calls map snd]; repeat split.
Qed.

(** X14. After a refinement that produced a rule the upload form is
    shown with the files still in place, and the next grading sends the
    whole new ledger, the rule at its end, in the instruction text of its
    request. *)
Theorem refined_ledger_goes_into_next_grading (s : App) (feedback text : jsstring) :
  truthy feedback = true ->
  examFiles s <> [] -> rubricFiles s <> [] ->
  ai1 (improveRequest (instructions s) feedback) = Responded (Some text) ->
  trim text <> [] ->
  let s1 := final (fire ai1 (fun c => handleImproveInstructions c feedback) s) in
  let t := fire ai2 handleGrade s1 in
  screen s1 = UploadForm
  /\ examFiles s1 = examFiles s
  /\ rubricFiles s1 = rubricFiles s
  /\ (exists pre, instructions s1 = pre ++ js "[Updated Rule]: " ++ trim text)
  /\ exists prompt rest,
       map (fun c => contents (snd c)) (calls t)
       = [ContentParts (TextPart prompt :: rest)]
       /\ includes prompt (js "Additional Teacher Instructions: " ++ instructions s1).
Proof.
  intros Hf He Hr Hai HY. cbv zeta.
  rewrite (handleImproveInstructions_run ai1 s feedback Hf). cbv zeta.
  rewrite Hai, ruleText_eq. apply truthy_true_iff in HY. rewrite HY.
  cbn [final]. set (s1 := setStatus idle _).
  assert (Ee : examFiles s1 = examFiles s) by reflexivity.
  assert (Er : rubricFiles s1 = rubricFiles s) by reflexivity.
  assert (Ei : instructions s1 = appendRule (trim text) (instructions s)) by reflexivity.
  repeat split.
  - rewrite Ei, appendRule_eq. eexists. rewrite !app_assoc. reflexivity.
  - rewrite (handleGrade_calls ai2 s1); [|now rewrite Ee | now rewrite Er].
    cbn [calls map snd]. unfold gradeExamRequest. cbn [contents].
    rewrite gradeExamParts_eq.
    eexists _, _. split; [reflexivity|].
    assert (Hb : blank (instructions s1) = false)
      by (rewrite Ei; apply appended_ledger_not_blank).
    rewrite (promptText_with_instructions _ (language s1) Hb).
    exists ((promptHead ++ langInstruction (language s1) ++ promptTail) ++ LF ++ LF).
    eexists. rewrite <- !app_assoc. reflexivity.
Qed.

End Sequence.

(* ================================================================== *)
(** * The uploader *)
(* ================================================================== *)

Section Uploader.

Lemma filterFrom_all {A} (p : A -> nat -> bool) (xs : list A) :
  forall k, (forall x i, k <= i -> p x i = true) -> filterFrom k p xs = xs.
Proof.
  induction xs as [|x r IH]; intros k H; cbn [filterFrom]; [reflexivity|].
  rewrite (H x k (le_n k)). f_equal. apply IH. intros y i Hi. apply H. lia.
Qed.

Lemma filterFrom_remove {A} (xs : list A) :
  forall k n,
  filterFrom k (fun _ i => negb (i =? k + n)) xs = firstn n xs ++ skipn (S n) xs.
Proof.
  induction xs as [|x r IH]; intros k n; cbn [filterFrom].
  - now destruct n.
  - destruct n as [|n].
    + rewrite Nat.add_0_r, Nat.eqb_refl. cbn [negb firstn skipn app].
      apply filterFrom_all. intros y i Hi.
      apply negb_true_iff, Nat.eqb_neq. lia.
    + replace (k =? k + S n) with false by (symmetry; apply Nat.eqb_neq; lia).
      cbn [negb firstn skipn app]. f_equal.
      replace (k + S n) with (S k + n) by lia. apply IH.
Qed.

(** X15. [removeFile] takes out the file at the given position and
    nothing else: the files before it and after it stay in their order,
    the later ones one position down. A position past the end leaves the
    list as it is. *)
Theorem removeFile_takes_out_one (files : list FileWithPreview) (index : nat) :
  removeFile files index = firstn index files ++ skipn (S index) files
  /\ (index < length files -> S (length (removeFile files index)) = length files)
  /\ (length files <= index -> removeFile files index = files)
  /\ (forall i, i < index ->
        nth_error (removeFile files index) i = nth_error files i)
  /\ (forall i, index <= i ->
        nth_error (removeFile files index) i = nth_error files (S i)).
Proof.
  assert (E : removeFile files index = firstn index files ++ skipn (S index) files)
    by apply (filterFrom_remove files 0 index).
  rewrite E. repeat split.
  - intros H. rewrite length_app, length_firstn, length_skipn. lia.
  - intros H. rewrite firstn_all2 by exact H. rewrite skipn_all2 by lia.
    apply app_nil_r.
  - intros i Hi. destruct (Nat.lt_ge_cases index (length files)) as [Hl | Hl].
    + rewrite nth_error_app1 by (rewrite length_firstn; lia).
      rewrite nth_error_firstn.
      now replace (i <? index) with true by (symmetry; apply Nat.ltb_lt; lia).
    + rewrite firstn_all2 by exact Hl. rewrite skipn_all2 by lia.
      now rewrite app_nil_r.
  - intros i Hi. destruct (Nat.lt_ge_cases index (length files)) as [Hl | Hl].
    + rewrite nth_error_app2 by (rewrite length_firstn; lia).
      rewrite length_firstn, nth_error_skipn.
      f_equal. lia.
    + rewrite firstn_all2 by exact Hl. rewrite skipn_all2 by lia.
      rewrite app_nil_r.
      transitivity (@None FileWithPreview); [|symmetry]; apply nth_error_None; lia.
Qed.

Lemma readFiles_spec (chosen : list SelectedFile) :
  forall newFiles, readFiles chosen = Some newFiles ->
  length newFiles = length chosen
  /\ forall i f, nth_error chosen i = Some f ->
       exists r, readResult f = Some r
         /\ nth_error newFiles i
            = Some (mkFile (objectUrl f) (base64Data r) (fileType f)).
Proof.
  induction chosen as [|g rest IH]; intros newFiles H; cbn [readFiles] in H.
  - injection H as <-. split; [reflexivity|]. intros i f Hi. now destruct i.
  - destruct (readResult g) as [r|] eqn:Eg; [|discriminate].
    destruct (readFiles rest) as [fs|] eqn:Er; [|discriminate].
    injection H as <-. destruct (IH fs eq_refl) as (Hl & Hn).
    split; [cbn; now rewrite Hl|].
    intros i f Hi. destruct i as [|i]; cbn in Hi |- *.
    + injection Hi as <-. now exists r.
    + now apply Hn.
Qed.

Lemma readFiles_none (chosen : list SelectedFile) :
  readFiles chosen = None <-> exists f, In f chosen /\ readResult f = None.
Proof.
  induction chosen as [|g rest IH]; cbn [readFiles].
  - split; [discriminate | intros (f & [] & _)].
  - destruct (readResult g) as [r|] eqn:Eg.
    + destruct (readFiles rest) as [fs|]; split.
      * discriminate.
      * intros (f & [<- | Hin] & Hf); [congruence|].
        assert (X : Some fs = None) by (apply IH; now exists f).
        discriminate.
      * intros _. destruct (proj1 IH eq_refl) as (f & Hin & Hf).
        exists f. split; [now right | exact Hf].
      * reflexivity.
    + split; [|reflexivity]. intros _. exists g. split; [now left | exact Eg].
Qed.

(** X16. When [handleFileSelect] hands a list to [onFilesChange], that
    list is the files there were, unchanged and in place, followed by one
    file for each selected file, in the order of the selection, with the
    selected file's object URL and type and the payload cut out of its
    data URL. The length of the list is not checked against [maxFiles]:
    all selected files are taken, and the upload area is rendered
    afterwards only if their number with the old ones is below it. *)
Theorem handleFileSelect_appends (files : list FileWithPreview)
    (chosen : list SelectedFile) (out : list FileWithPreview) :
  handleFileSelect files (Some chosen) = Some out ->
  length out = length files + length chosen
  /\ (forall maxFiles,
        uploadAreaShown out maxFiles = (length files + length chosen <? maxFiles))
  /\ firstn (length files) out = files
  /\ forall i f, nth_error chosen i = Some f ->
       exists r, readResult f = Some r
         /\ nth_error out (length files + i)
            = Some (mkFile (objectUrl f) (base64Data r) (fileType f)).
Proof.
  unfold handleFileSelect. destruct (readFiles chosen) as [newFiles|] eqn:E;
    [|discriminate].
  intros H. injection H as <-. destruct (readFiles_spec chosen newFiles E) as (Hl & Hn).
  repeat split.
  - rewrite length_app. lia.
  - intros maxFiles. unfold uploadAreaShown. now rewrite length_app, Hl.
  - rewrite firstn_app, Nat.sub_diag, firstn_all. cbn [firstn]. apply app_nil_r.
  - intros i f Hi. destruct (Hn i f Hi) as (r & Hr & Hf). exists r.
    split; [exact Hr|]. rewrite nth_error_app2 by lia.
    now replace (length files + i - length files) with i by lia.
Qed.

(** X17. [handleFileSelect] calls [onFilesChange] unless the input has no
    file list or one of the selected files could not be read: a single
    unreadable file keeps every file of the selection out. *)
Theorem handleFileSelect_drops_selection (files : list FileWithPreview)
    (selected : option (list SelectedFile)) :
  handleFileSelect files selected = None <->
  selected = None
  \/ exists chosen f, selected = Some chosen /\ In f chosen /\ readResult f = None.
Proof.
  unfold handleFileSelect. destruct selected as [chosen|].
  - destruct (readFiles chosen) as [newFiles|] eqn:E; split.
    + discriminate.
    + intros [H | (c & f & H & Hin & Hf)]; [discriminate|]. injection H as <-.
      assert (X : readFiles chosen = None) by (apply readFiles_none; now exists f).
      congruence.
    + intros _. right. apply readFiles_none in E as (f & Hin & Hf).
      now exists chosen, f.
    + reflexivity.
  - split; auto.
Qed.

Lemma splitComma_nonempty (s : jsstring) : splitComma s <> [].
Proof.
  induction s as [|c r IH]; cbn [splitComma]; [discriminate|].
  destruct (c =? 44)%N; [discriminate|]. destruct (splitComma r); [discriminate|].
  discriminate.
Qed.

Lemma splitComma_plain (s : jsstring) :
  ~ In 44%N s -> splitComma s = [s].
Proof.
  induction s as [|c r IH]; intros H; cbn [splitComma]; [reflexivity|].
  destruct (N.eqb_spec c 44) as [-> | Hc]; [now destruct H; left|].
  rewrite IH; [reflexivity|]. intros Hin. apply H. now right.
Qed.

Lemma splitComma_app (pre rest : jsstring) :
  ~ In 44%N pre -> splitComma (pre ++ 44%N :: rest) = pre :: splitComma rest.
Proof.
  induction pre as [|c r IH]; intros H; cbn [app splitComma].
  - reflexivity.
  - destruct (N.eqb_spec c 44) as [-> | Hc]; [now destruct H; left|].
    rewrite IH; [reflexivity|]. intros Hin. apply H. now right.
Qed.

(** X18. The payload of a selected file is what stands between the first
    and the second comma of its data URL, or up to the end when there is
    one comma only; a read result without comma gives no payload. *)
Theorem base64Data_after_first_comma (pre payload rest : jsstring) :
  ~ In 44%N pre -> ~ In 44%N payload ->
  base64Data pre = None
  /\ base64Data (pre ++ 44%N :: payload) = Some payload
  /\ base64Data (pre ++ 44%N :: payload ++ 44%N :: rest) = Some payload.
Proof.
  intros Hp Hq. unfold base64Data. repeat split.
  - now rewrite (splitComma_plain pre Hp).
  - now rewrite (splitComma_app pre payload Hp), (splitComma_plain payload Hq).
  - now rewrite (splitComma_app pre _ Hp), (splitComma_app payload rest Hq).
Qed.

Lemma pagesFrom_app (marker : nat -> jsstring) (a b : list FileWithPreview) :
  forall index,
  pagesFrom marker index (a ++ b)
  = pagesFrom marker index a ++ pagesFrom marker (index + length a) b.
Proof.
  induction a as [|f r IH]; intros index; cbn [app pagesFrom length].
  - now rewrite Nat.add_0_r.
  - rewrite IH. replace (S index + length r) with (index + S (length r)) by lia.
    destruct (base64 f) as [data|]; [|reflexivity].
    destruct (truthy data); reflexivity.
Qed.

(** X19. A selected file whose read result has no comma, or nothing
    after its comma, is put in the uploader's list all the same, but it
    has no payload, and the grading request with it at the end of the
    rubric group or of the exam group is the request without it. *)
Theorem unreadable_selection_is_listed_but_not_sent (files others : list FileWithPreview)
    (f : SelectedFile) (r : jsstring) (instr : jsstring) (lang : Language) :
  readResult f = Some r ->
  (~ In 44%N r \/ exists pre, ~ In 44%N pre /\ r = pre ++ [44%N]) ->
  exists file,
    handleFileSelect files (Some [f]) = Some (files ++ [file])
    /\ previewUrl file = objectUrl f
    /\ hasPayload file = false
    /\ gradeExamParts others (files ++ [file]) instr lang
       = gradeExamParts others files instr lang
    /\ gradeExamParts (files ++ [file]) others instr lang
       = gradeExamParts files others instr lang.
Proof.
  intros Hr Hbad.
  exists (mkFile (objectUrl f) (base64Data r) (fileType f)).
  assert (Hp : hasPayload (mkFile (objectUrl f) (base64Data r) (fileType f)) = false).
  { unfold hasPayload. cbn [base64]. destruct Hbad as [H | (pre & H & ->)].
    - unfold base64Data. now rewrite (splitComma_plain r H).
    - unfold base64Data. now rewrite (splitComma_app pre [] H). }
  assert (Hn : forall marker index,
    pagesFrom marker index [mkFile (objectUrl f) (base64Data r) (fileType f)] = []).
  { intros marker index. cbn [pagesFrom]. unfold hasPayload, truthy_opt in Hp.
    cbn [base64] in *. destruct (base64Data r) as [d|]; [|reflexivity].
    now rewrite Hp. }
  repeat split.
  - unfold handleFileSelect. cbn [readFiles]. now rewrite Hr.
  - exact Hp.
  - rewrite !gradeExamParts_eq, pagesFrom_app, Hn. now rewrite app_nil_r.
  - rewrite !gradeExamParts_eq, pagesFrom_app, Hn. now rewrite app_nil_r.
Qed.

End Uploader.

(* ================================================================== *)
(** * The guard and the payloads *)
(* ================================================================== *)

Section Guard.

Variable ai : GenerateContentParameters -> ModelOutcome.

Lemma pagesFrom_none (marker : nat -> jsstring) (files : list FileWithPreview)
    (index : nat) :
  filter hasPayload files = [] -> pagesFrom marker index files = [].
Proof.
  intros H. apply length_zero_iff_nil. now rewrite pagesFrom_length, H.
Qed.

(** X20. The guard of [handleGrade] counts files, not payloads: with a
    file in each group and no payload in any, the provider is called all
    the same, and the request has the instruction segment and no image. *)
Theorem guard_counts_files_not_payloads (s : App) :
  examFiles s <> [] -> rubricFiles s <> [] ->
  filter hasPayload (examFiles s) = [] ->
  filter hasPayload (rubricFiles s) = [] ->
  map (fun c => contents (snd c)) (calls (fire ai handleGrade s))
  = [ContentParts [TextPart (promptText (instructions s) (language s))]].
Proof.
  intros He Hr Hpe Hpr. rewrite (handleGrade_calls ai s He Hr).
  cbn [calls map snd]. unfold gradeExamRequest. cbn [contents].
  rewrite gradeExamParts_eq.
  now rewrite (pagesFrom_none rubricMarker _ 0 Hpr), (pagesFrom_none examMarker _ 0 Hpe).
Qed.

End Guard.

(* ================================================================== *)
(** * The properties on the sample data *)
(* ================================================================== *)

(** A session with an exam page and no rubric page: grading is refused. *)
Lemma grade_without_images_is_refused_witness :
  rubricFiles (setExamFiles [pageA] initialApp) = []
  /\ calls (fire (answers (Some sampleBody)) handleGrade (setExamFiles [pageA] initialApp)) = []
  /\ errorMessage (final (fire (answers (Some sampleBody)) handleGrade
                            (setExamFiles [pageA] initialApp)))
     = Some (errorFiles zh).
Proof.
  split; [reflexivity|].
  pose proof (grade_without_images_is_refused (answers (Some sampleBody))
                (setExamFiles [pageA] initialApp) (or_intror eq_refl)) as H.
  cbv zeta in H. destruct H as (Hc & He & _). split; [exact Hc | exact He].
Defined.

(** C2, counterexample. The provider answers with a body that is JSON
    but lacks five required properties and has a text where a number is
    declared: [gradeExam] returns it, and [handleGrade] shows it as the
    result of a successful grading. *)
Lemma gradeExam_accepts_partial_body :
  conforms gradingSchema partialResult = false
  /\ outcome (run (answers (Some partialBody)) (gradeExam [pageA] [pageC] [] en) initialApp)
     = inl partialResult
  /\ result (final (fire (answers (Some partialBody)) handleGrade gradedSession))
     = Some partialResult
  /\ status (final (fire (answers (Some partialBody)) handleGrade gradedSession))
     = success.
Proof.
  split; [vm_compute; reflexivity|].
  split; [rewrite gradeExam_run; vm_compute; reflexivity|].
  rewrite handleGrade_run by discriminate. cbv zeta. rewrite gradeExam_run.
  split; vm_compute; reflexivity.
Qed.

Lemma gradeExam_fails_iff_not_json_witness :
  outcome (run (answers (Some partialBody)) (gradeExam [pageA] [pageC] [] en) initialApp)
  = inl partialResult.
Proof.
  refine (proj1 (proj2 (gradeExam_fails_iff_not_json (answers (Some partialBody))
                          App initialApp [pageA] [pageC] [] en)) partialBody partialResult _ _).
  - reflexivity.
  - vm_compute; reflexivity.
Defined.

Lemma request_parts_are_ordered_witness :
  exists req R E,
    calls (run (answers (Some sampleBody)) (gradeExam [pageA; pageC] [pageA] [] en) initialApp)
    = [(initialApp, req)]
    /\ contents req = ContentParts (TextPart (promptText [] en) :: R ++ E)
    /\ imagesOf R = map imageOf [pageA]
    /\ imagesOf E = map imageOf [pageA; pageC]
    /\ textsOf E = map examMarker [1; 2].
Proof.
  destruct (request_parts_are_ordered (answers (Some sampleBody)) App initialApp
              [pageA; pageC] [pageA] [] en)
    as (req & R & E & Hc & H0 & _ & _ & _ & _ & _ & _ & _ & _ & HR & HE).
  exists req, R, E. split; [exact Hc|]. split; [exact H0|].
  split; [exact (proj1 (HR eq_refl))|].
  split; [exact (proj1 (HE eq_refl)) | exact (proj2 (HE eq_refl))].
Defined.

Lemma refinement_failure_keeps_result_witness :
  status (final (fire (fails (Raised quotaError))
                   (fun c => handleImproveInstructions c (js "ignored spelling"))
                   gradedSession)) = success
  /\ result (final (fire (fails (Raised quotaError))
                     (fun c => handleImproveInstructions c (js "ignored spelling"))
                     gradedSession)) = Some sampleResult.
Proof.
  assert (Hf : truthy (js "ignored spelling") = true) by reflexivity.
  pose proof (refinement_failure_keeps_result (fails (Raised quotaError)) gradedSession
                (js "ignored spelling") Hf
                (or_introl (ex_intro _ (Raised quotaError) eq_refl))) as H.
  cbv zeta in H. destruct H as (_ & Hs & _ & Hr & _).
  split; [exact Hs | exact Hr].
Defined.

Lemma refinement_success_appends_witness :
  instructions (final (fire (answers (Some spellingRule))
                         (fun c => handleImproveInstructions c (js "ignored spelling"))
                         gradedSession))
  = js "Be strict on grammar." ++ (LF ++ LF)
      ++ js "[Updated Rule]: " ++ js "Deduct one point per spelling mistake.".
Proof.
  assert (Hf : truthy (js "ignored spelling") = true) by reflexivity.
  assert (Ht : trim spellingRule <> []) by (vm_compute; discriminate).
  pose proof (refinement_success_appends (answers (Some spellingRule)) gradedSession
                (js "ignored spelling") spellingRule Hf eq_refl Ht) as H.
  cbv zeta in H. destruct H as (Hi & _). rewrite Hi. vm_compute. reflexivity.
Defined.



(** C7, counterexample. From a session that shows a result, an empty
    feedback ends the handler normally, with no call, and leaves the
    session as it was, its error message still absent: nothing is thrown
    and nothing is shown. *)
Lemma empty_feedback_raises_nothing :
  fire (answers (Some spellingRule)) (fun c => handleImproveInstructions c []) gradedSession
  = mkTrace (inl tt) gradedSession []
  /\ errorMessage gradedSession = None.
Proof. split; reflexivity. Qed.

Lemma rule_text_is_trimmed_witness :
  outcome (run (answers (Some spellingRule))
             (generateImprovedInstructions (instructions gradedSession)
                (js "ignored spelling") (language gradedSession)) gradedSession)
  = inl (js "Deduct one point per spelling mistake.").
Proof.
  pose proof (rule_text_is_trimmed (answers (Some spellingRule)) gradedSession
                (js "ignored spelling") (Some spellingRule) eq_refl) as H.
  cbv zeta in H. destruct H as (Ho & _). rewrite Ho. vm_compute. reflexivity.
Defined.

(** Of the three rubric pages the second has no payload: its marker is
    not sent, the third page keeps the number three. *)
Lemma files_without_payload_are_skipped_witness :
  exists req parts,
    calls (run (answers (Some sampleBody)) (gradeExam [pageA] [pageA; pageB; pageC] [] en)
             initialApp)
    = [(initialApp, req)]
    /\ contents req = ContentParts parts
    /\ ~ In (TextPart (rubricMarker 2)) parts
    /\ exists before after,
         parts = before ++ TextPart (rubricMarker 3)
                          :: InlineData (js "image/jpeg") (js "REVG") :: after.
Proof.
  destruct (files_without_payload_are_skipped (answers (Some sampleBody)) App initialApp
              [pageA] [pageA; pageB; pageC] [] en)
    as (req & parts & Hc & Hp & _ & Hr & _).
  exists req, parts. split; [exact Hc|]. split; [exact Hp|]. split.
  - exact (proj1 (Hr 1 pageB eq_refl) eq_refl).
  - exact (proj2 (Hr 2 pageC eq_refl) (js "REVG") eq_refl eq_refl).
Defined.

Lemma grading_success_stores_result_witness :
  status (final (fire (answers (Some sampleBody)) handleGrade readySession)) = success
  /\ result (final (fire (answers (Some sampleBody)) handleGrade readySession))
     = Some sampleResult.
Proof.
  assert (He : examFiles readySession <> []) by discriminate.
  assert (Hr : rubricFiles readySession <> []) by discriminate.
  assert (Hp : JSON.parse sampleBody = inl sampleResult) by (vm_compute; reflexivity).
  pose proof (grading_success_stores_result (answers (Some sampleBody)) readySession
                sampleBody sampleResult He Hr eq_refl Hp) as H.
  cbv zeta in H. destruct H as (_ & Hs & Hres & _). split; [exact Hs | exact Hres].
Defined.

Lemma grading_failure_stores_message_witness :
  status (final (fire (fails (Raised quotaError)) handleGrade gradedSession)) = error
  /\ errorMessage (final (fire (fails (Raised quotaError)) handleGrade gradedSession))
     = Some (js "429 quota exceeded")
  /\ result (final (fire (fails (Raised quotaError)) handleGrade gradedSession))
     = Some sampleResult.
Proof.
  assert (He : examFiles gradedSession <> []) by discriminate.
  assert (Hr : rubricFiles gradedSession <> []) by discriminate.
  assert (Hm : js "429 quota exceeded" <> []) by (vm_compute; discriminate).
  pose proof (grading_failure_stores_message (fails (Raised quotaError)) gradedSession
                (Raised quotaError) He Hr eq_refl) as H.
  cbv zeta in H. destruct H as (_ & Hs & Hmsg & _ & _ & Hres & _).
  split; [exact Hs|].
  split; [exact (proj2 (Hmsg quotaError (js "429 quota exceeded") eq_refl eq_refl Hm))
         | exact Hres].
Defined.

Lemma grading_without_json_is_an_error_witness :
  status (final (fire (answers None) handleGrade readySession)) = error
  /\ errorMessage (final (fire (answers None) handleGrade readySession))
     = Some (js "No response text generated").
Proof.
  assert (He : examFiles readySession <> []) by discriminate.
  assert (Hr : rubricFiles readySession <> []) by discriminate.
  pose proof (grading_without_json_is_an_error (answers None) readySession None
                He Hr eq_refl (or_introl eq_refl)) as H.
  cbv zeta in H. destruct H as (Hs & _ & _ & Hm).
  split; [exact Hs | exact (Hm (or_introl eq_refl))].
Defined.


Lemma update_score_replaces_totalScore_witness :
  exists ps',
    result (final (fire (answers None) (fun c => handleUpdateScore c nine) gradedSession))
    = Some (JSON.Object ps')
    /\ JSON.lookup (js "totalScore") ps' = Some (JSON.Number nine)
    /\ JSON.lookup (js "maxScore") ps' = Some (JSON.Number ten).
Proof.
  pose proof (update_score_replaces_totalScore (answers None) gradedSession nine) as H.
  cbv zeta in H. destruct H as (_ & _ & _ & _ & _ & Hobj).
  destruct (Hobj _ eq_refl) as (ps' & Hres & Htot & Hoth).
  exists ps'. split; [exact Hres|]. split; [exact Htot|].
  assert (Hne : js "maxScore" <> js "totalScore") by (vm_compute; discriminate).
  rewrite (Hoth (js "maxScore") Hne). vm_compute. reflexivity.
Defined.

Lemma instructions_setLanguage (f : Language -> Language) (s : App) :
  instructions (setLanguage f s) = instructions s.
Proof. reflexivity. Qed.

Lemma refinement_reads_only_the_ledger_witness :
  map snd (calls (fire (answers (Some spellingRule))
                    (fun c => handleImproveInstructions c (js "ignored spelling"))
                    gradedSession))
  = map snd (calls (fire (answers (Some spellingRule))
                      (fun c => handleImproveInstructions c (js "ignored spelling"))
                      (setLanguage (fun _ => zh) gradedSession))).
Proof.
  pose proof (eq_sym (instructions_setLanguage (fun _ => zh) gradedSession)) as E.
  pose proof (refinement_reads_only_the_ledger (answers (Some spellingRule))
                gradedSession (setLanguage (fun _ => zh) gradedSession)
                (js "ignored spelling") E) as H.
  cbv zeta in H. exact (proj1 H).
Defined.

Lemma improve_button_is_stricter_than_handler_witness :
  improveButtonDisabled (js "  ") = true
  /\ calls (fire (answers (Some spellingRule))
              (fun c => handleImproveInstructions c (js "  ")) gradedSession)
     = [(setStatus improving gradedSession,
         improveRequest (instructions gradedSession) (js "  "))].
Proof.
  pose proof (improve_button_is_stricter_than_handler (answers (Some spellingRule))
                gradedSession (js "  ")) as H.
  destruct H as (_ & Hb & Hc).
  assert (Hne : js "  " <> []) by (vm_compute; discriminate).
  split; [exact (Hb eq_refl) | exact (proj1 (Hc Hne))].
Defined.

Lemma teacher_instructions_in_prompt_witness :
  promptText (js "   ") en = promptText [] en
  /\ includes (promptText (js "Be strict on grammar.") en)
       (LF ++ LF ++ js "Additional Teacher Instructions: " ++ js "Be strict on grammar.").
Proof.
  split.
  - exact (proj1 (teacher_instructions_in_prompt (js "   ") en) eq_refl).
  - exact (proj1 (proj2 (teacher_instructions_in_prompt (js "Be strict on grammar.") en))
             eq_refl).
Defined.

Lemma failed_grading_can_be_retried_witness :
  status (final (fire (answers (Some sampleBody)) handleGrade
                   (final (fire (fails (Raised quotaError)) handleGrade readySession))))
  = success
  /\ errorMessage (final (fire (answers (Some sampleBody)) handleGrade
                            (final (fire (fails (Raised quotaError)) handleGrade
                                      readySession))))
     = None.
Proof.
  assert (He : examFiles readySession <> []) by discriminate.
  assert (Hr : rubricFiles readySession <> []) by discriminate.
  assert (Hp : JSON.parse sampleBody = inl sampleResult) by (vm_compute; reflexivity).
  pose proof (failed_grading_can_be_retried (fails (Raised quotaError))
                (answers (Some sampleBody)) readySession (Raised quotaError)
                sampleBody sampleResult He Hr eq_refl eq_refl Hp)
    as H.
  cbv zeta in H. destruct H as (_ & Hs & _ & Hm). split; [exact Hs | exact Hm].
Defined.

Lemma refined_ledger_goes_into_next_grading_witness :
  screen (final (fire (answers (Some spellingRule))
                   (fun c => handleImproveInstructions c (js "ignored spelling"))
                   gradedSession)) = UploadForm
  /\ exists pre,
       instructions (final (fire (answers (Some spellingRule))
                              (fun c => handleImproveInstructions c (js "ignored spelling"))
                              gradedSession))
       = pre ++ js "[Updated Rule]: " ++ trim spellingRule.
Proof.
  assert (Hf : truthy (js "ignored spelling") = true) by reflexivity.
  assert (He : examFiles gradedSession <> []) by discriminate.
  assert (Hr : rubricFiles gradedSession <> []) by discriminate.
  assert (Ht : trim spellingRule <> []) by (vm_compute; discriminate).
  pose proof (refined_ledger_goes_into_next_grading (answers (Some spellingRule))
                (answers (Some sampleBody)) gradedSession (js "ignored spelling")
                spellingRule Hf He Hr eq_refl Ht) as H.
  cbv zeta in H. destruct H as (Hscr & _ & _ & Hpre & _).
  split; [exact Hscr | exact Hpre].
Defined.

Lemma removeFile_takes_out_one_witness :
  removeFile [pageA; pageB; pageC] 1 = [pageA; pageC]
  /\ removeFile [pageA; pageB; pageC] 3 = [pageA; pageB; pageC].
Proof.
  split.
  - exact (proj1 (removeFile_takes_out_one [pageA; pageB; pageC] 1)).
  - exact (proj1 (proj2 (proj2 (removeFile_takes_out_one [pageA; pageB; pageC] 3)))
             (le_n 3)).
Defined.

Lemma handleFileSelect_appends_witness :
  handleFileSelect [pageA] (Some [shotA; shotEmpty]) = Some selectedAfterPageA
  /\ length selectedAfterPageA = length [pageA] + length [shotA; shotEmpty]
  /\ firstn (length [pageA]) selectedAfterPageA = [pageA].
Proof.
  assert (E : handleFileSelect [pageA] (Some [shotA; shotEmpty]) = Some selectedAfterPageA)
    by (vm_compute; reflexivity).
  pose proof (handleFileSelect_appends [pageA] [shotA; shotEmpty] selectedAfterPageA E)
    as (Hl & _ & Hf & _).
  split; [exact E|]. split; [exact Hl | exact Hf].
Defined.

(** A text has no comma when a run over it finds none. *)
Lemma no_comma_by_check (s : jsstring) :
  forallb (fun c => negb (c =? 44)%N) s = true -> ~ In 44%N s.
Proof.
  intros H Hin. rewrite forallb_forall in H. specialize (H _ Hin). discriminate.
Qed.

Lemma base64Data_after_first_comma_witness :
  base64Data (js "data:image/png;base64" ++ 44%N :: js "QUJD") = Some (js "QUJD").
Proof.
  exact (proj1 (proj2 (base64Data_after_first_comma (js "data:image/png;base64")
                         (js "QUJD") []
                         (no_comma_by_check (js "data:image/png;base64") eq_refl)
                         (no_comma_by_check (js "QUJD") eq_refl)))).
Defined.

Lemma unreadable_selection_is_listed_but_not_sent_witness :
  exists file,
    handleFileSelect [pageA] (Some [shotEmpty]) = Some ([pageA] ++ [file])
    /\ gradeExamParts [pageC] ([pageA] ++ [file]) [] en = gradeExamParts [pageC] [pageA] [] en.
Proof.
  destruct (unreadable_selection_is_listed_but_not_sent [pageA] [pageC] shotEmpty
              (js "data:") [] en eq_refl
              (or_introl (no_comma_by_check (js "data:") eq_refl)))
    as (file & Hsel & _ & _ & Hreq & _).
  exists file. split; [exact Hsel | exact Hreq].
Defined.

Lemma guard_counts_files_not_payloads_witness :
  map (fun c => contents (snd c))
      (calls (fire (answers (Some sampleBody)) handleGrade emptyPagesSession))
  = [ContentParts [TextPart (promptText [] en)]].
Proof.
  assert (He : examFiles emptyPagesSession <> []) by discriminate.
  assert (Hr : rubricFiles emptyPagesSession <> []) by discriminate.
  exact (guard_counts_files_not_payloads (answers (Some sampleBody)) emptyPagesSession
           He Hr eq_refl eq_refl).
Defined.
